(** * A shallow embedding of the bounded recursive crawler of [urls_list.py]

    The three process-wide globals of the module ([_visited_urls],
    [_all_discovered_urls], [_all_extracted_content]) become one record that
    is threaded through every call.  Every statement of the source that has
    an effect (a mutation of a global, an HTTP request, a [time.sleep], a
    [break]) is one event; a run is the trace of its events together with
    the globals they produce.

    The network is a parameter: it decides the outcome of every request.
    So is [urllib.parse], of which a reference implementation is given for
    the runs on concrete sites.  Strings are sequences of bytes, and
    [str.lower] is the ASCII one.  What escapes the crawler as an exception
    is outside the model: a URL that [urllib.parse] refuses with
    [ValueError], and the limit Python puts on the depth of the call
    stack. *)

From Stdlib Require Import ZArith Ascii String List Lia Sorted Permutation.
From stdpp Require Import base tactics option list sorting gmap strings pretty.

Local Open Scope Z_scope.

(** ** Python [str] helpers *)

Module Str.

Definition is_upper (c : ascii) : bool :=
  let n := nat_of_ascii c in (65 <=? n)%nat && (n <=? 90)%nat.

Definition is_alpha (c : ascii) : bool :=
  let n := nat_of_ascii c in
  ((65 <=? n)%nat && (n <=? 90)%nat) || ((97 <=? n)%nat && (n <=? 122)%nat).

Definition is_digit (c : ascii) : bool :=
  let n := nat_of_ascii c in (48 <=? n)%nat && (n <=? 57)%nat.

Definition lower_char (c : ascii) : ascii :=
  if is_upper c then ascii_of_nat (nat_of_ascii c + 32) else c.

(** [s.lower()] on ASCII text. *)
Fixpoint lower (s : string) : string :=
  match s with
  | EmptyString => EmptyString
  | String c s' => String (lower_char c) (lower s')
  end.

(** [s.startswith(p)]. *)
Fixpoint startswith (s p : string) : bool :=
  match p, s with
  | EmptyString, _ => true
  | String _ _, EmptyString => false
  | String a p', String b s' => Ascii.eqb a b && startswith s' p'
  end.

(** [s.endswith(p)]. *)
Definition endswith (s p : string) : bool :=
  (String.length p <=? String.length s)%nat &&
  String.eqb (substring (String.length s - String.length p) (String.length p) s) p.

(** [c in s] for a single character. *)
Fixpoint contains (c : ascii) (s : string) : bool :=
  match s with
  | EmptyString => false
  | String a s' => Ascii.eqb a c || contains c s'
  end.

(** [s.partition(c)] without the separator: the text before the first
    occurrence of [c] and the text after it, or [None] when [c] does not
    occur. *)
Fixpoint split_once (c : ascii) (s : string) : option (string * string) :=
  match s with
  | EmptyString => None
  | String a s' =>
      if Ascii.eqb a c then Some (EmptyString, s')
      else match split_once c s' with
           | Some (l, r) => Some (String a l, r)
           | None => None
           end
  end.

(** [s.split(c)]. *)
Fixpoint split (c : ascii) (s : string) : list string :=
  match s with
  | EmptyString => [EmptyString]
  | String a s' =>
      if Ascii.eqb a c then EmptyString :: split c s'
      else match split c s' with
           | w :: ws => String a w :: ws
           | [] => [String a EmptyString]
           end
  end.

(** [c.join(ws)]. *)
Fixpoint join (c : string) (ws : list string) : string :=
  match ws with
  | [] => EmptyString
  | [w] => w
  | w :: ws' => w +:+ c +:+ join c ws'
  end.

Fixpoint forallb (p : ascii -> bool) (s : string) : bool :=
  match s with
  | EmptyString => true
  | String a s' => p a && forallb p s'
  end.

Fixpoint filter (p : ascii -> bool) (s : string) : string :=
  match s with
  | EmptyString => EmptyString
  | String a s' => if p a then String a (filter p s') else filter p s'
  end.

Fixpoint lstrip (p : ascii -> bool) (s : string) : string :=
  match s with
  | EmptyString => EmptyString
  | String a s' => if p a then lstrip p s' else s
  end.

(** Truth value of a Python string: the empty string is falsy. *)
Definition truthy (s : string) : bool :=
  match s with EmptyString => false | String _ _ => true end.

(** Membership of a string in a list literal or a set literal. *)
Definition mem (s : string) (l : list string) : bool :=
  existsb (String.eqb s) l.

End Str.

(** ** The interface of [urllib.parse] used by the crawler *)

(** The six-field result of [urlparse]. *)
Record ParseResult := {
  scheme : string;
  netloc : string;
  path : string;
  params : string;
  query : string;
  fragment : string
}.

(** [parsed._replace(fragment=f)]. *)
Definition replace_fragment (p : ParseResult) (f : string) : ParseResult :=
  {| scheme := scheme p; netloc := netloc p; path := path p;
     params := params p; query := query p; fragment := f |}.

(** The crawler calls three functions of the library; it is verified against
    any implementation of them. *)
Class UrlLib := {
  urlparse : string -> ParseResult;
  urljoin : string -> string -> string;
  geturl : ParseResult -> string
}.

(** ** A reference implementation of the interface, after CPython's
    [Lib/urllib/parse.py] *)

Module Urllib.

Definition uses_relative : list string :=
  [""; "ftp"; "http"; "gopher"; "nntp"; "imap"; "wais"; "file"; "https";
   "shttp"; "mms"; "prospero"; "rtsp"; "rtspu"; "sftp"; "svn"; "svn+ssh";
   "ws"; "wss"].

Definition uses_netloc : list string :=
  [""; "ftp"; "http"; "gopher"; "nntp"; "telnet"; "imap"; "wais"; "file";
   "mms"; "https"; "shttp"; "snews"; "prospero"; "rtsp"; "rtspu"; "rsync";
   "svn"; "svn+ssh"; "sftp"; "nfs"; "git"; "git+ssh"; "ws"; "wss"].

Definition uses_params : list string :=
  [""; "ftp"; "hdl"; "prospero"; "http"; "imap"; "https"; "shttp"; "rtsp";
   "rtspu"; "sip"; "sips"; "mms"; "sftp"; "tel"].

Definition scheme_char (c : ascii) : bool :=
  Str.is_alpha c || Str.is_digit c ||
  Ascii.eqb c "+" || Ascii.eqb c "-" || Ascii.eqb c ".".

Definition c0_control_or_space (c : ascii) : bool :=
  (nat_of_ascii c <=? 32)%nat.

Definition unsafe_byte (c : ascii) : bool :=
  Ascii.eqb c "009" || Ascii.eqb c "010" || Ascii.eqb c "013".

(** The scheme of [url], if it starts with one, and the rest. *)
Definition split_scheme (default : string) (url : string) : string * string :=
  match Str.split_once ":" url with
  | Some (String c0 pre, rest) =>
      if Str.is_alpha c0 && Str.forallb scheme_char (String c0 pre)
      then (Str.lower (String c0 pre), rest)
      else (default, url)
  | _ => (default, url)
  end.

(** [_splitnetloc(url, 2)]: the authority ends at the first of [/ ? #]. *)
Fixpoint splitnetloc (s : string) : string * string :=
  match s with
  | EmptyString => (EmptyString, EmptyString)
  | String a s' =>
      if Ascii.eqb a "/" || Ascii.eqb a "?" || Ascii.eqb a "#"
      then (EmptyString, s)
      else let '(n, r) := splitnetloc s' in (String a n, r)
  end.

Record SplitResult := {
  s_scheme : string; s_netloc : string; s_path : string;
  s_query : string; s_fragment : string
}.

Definition urlsplit (url : string) (default_scheme : string) : SplitResult :=
  let url := Str.lstrip c0_control_or_space url in
  let url := Str.filter (fun c => negb (unsafe_byte c)) url in
  let '(sch, url) := split_scheme default_scheme url in
  let '(nl, url) :=
    match url with
    | String "/" (String "/" rest) => splitnetloc rest
    | _ => (EmptyString, url)
    end in
  let '(url, frag) :=
    match Str.split_once "#" url with
    | Some (l, r) => (l, r)
    | None => (url, EmptyString)
    end in
  let '(url, qry) :=
    match Str.split_once "?" url with
    | Some (l, r) => (l, r)
    | None => (url, EmptyString)
    end in
  {| s_scheme := sch; s_netloc := nl; s_path := url;
     s_query := qry; s_fragment := frag |}.

(** [_splitparams]: the parameters follow the first [;] of the last path
    segment. *)
Definition splitparams (url : string) : string * string :=
  match rev (Str.split "/" url) with
  | last :: before =>
      match Str.split_once ";" last with
      | Some (l, r) => (Str.join "/" (rev (l :: before)), r)
      | None => (url, EmptyString)
      end
  | [] => (url, EmptyString)
  end.

Definition urlparse_with (url default_scheme : string) : ParseResult :=
  let r := urlsplit url default_scheme in
  let '(p, prm) :=
    if Str.mem (s_scheme r) uses_params && Str.contains ";" (s_path r)
    then splitparams (s_path r)
    else (s_path r, EmptyString) in
  {| scheme := s_scheme r; netloc := s_netloc r; path := p;
     params := prm; query := s_query r; fragment := s_fragment r |}.

Definition urlunsplit (sch nl url qry frag : string) : string :=
  let url :=
    if Str.truthy nl ||
       (Str.truthy sch && Str.mem sch uses_netloc &&
        negb (Str.startswith url "//"))
    then "//" +:+ nl +:+
         (if Str.truthy url && negb (Str.startswith url "/")
          then "/" +:+ url else url)
    else url in
  let url := if Str.truthy sch then sch +:+ ":" +:+ url else url in
  let url := if Str.truthy qry then url +:+ "?" +:+ qry else url in
  if Str.truthy frag then url +:+ "#" +:+ frag else url.

Definition urlunparse (p : ParseResult) : string :=
  let url :=
    if Str.truthy (params p) then path p +:+ ";" +:+ params p else path p in
  urlunsplit (scheme p) (netloc p) url (query p) (fragment p).

(** Removal of [.] and [..] segments, as in the loop of [urljoin]. *)
Fixpoint resolve (segments resolved_rev : list string) : list string :=
  match segments with
  | [] => rev resolved_rev
  | seg :: rest =>
      if String.eqb seg ".." then resolve rest (tail resolved_rev)
      else if String.eqb seg "." then resolve rest resolved_rev
      else resolve rest (seg :: resolved_rev)
  end.

(** [segments[1:-1] = filter(None, segments[1:-1])]. *)
Definition drop_empty_inner (segments : list string) : list string :=
  match segments with
  | [] => []
  | first :: rest =>
      match rev rest with
      | [] => [first]
      | last :: mid_rev =>
          first :: List.filter Str.truthy (rev mid_rev) ++ [last]
      end
  end.

Definition urljoin_impl (base url : string) : string :=
  if negb (Str.truthy base) then url
  else if negb (Str.truthy url) then base
  else
    let b := urlparse_with base "" in
    let u := urlparse_with url (scheme b) in
    if negb (String.eqb (scheme u) (scheme b)) ||
       negb (Str.mem (scheme u) uses_relative)
    then url
    else if Str.mem (scheme u) uses_netloc && Str.truthy (netloc u)
    then urlunparse u
    else
      let nl := if Str.mem (scheme u) uses_netloc then netloc b else netloc u in
      if negb (Str.truthy (path u)) && negb (Str.truthy (params u))
      then
        urlunparse {| scheme := scheme u; netloc := nl; path := path b;
                      params := params b;
                      query := if Str.truthy (query u) then query u else query b;
                      fragment := fragment u |}
      else
        let base_parts := Str.split "/" (path b) in
        let base_parts :=
          match rev base_parts with
          | last :: before => if Str.truthy last then rev before else base_parts
          | [] => base_parts
          end in
        let segments :=
          if Str.startswith (path u) "/" then Str.split "/" (path u)
          else drop_empty_inner (base_parts ++ Str.split "/" (path u)) in
        let resolved := resolve segments [] in
        let resolved :=
          match rev segments with
          | last :: _ =>
              if String.eqb last "." || String.eqb last ".."
              then resolved ++ [EmptyString] else resolved
          | [] => resolved
          end in
        let joined := Str.join "/" resolved in
        urlunparse {| scheme := scheme u; netloc := nl;
                      path := if Str.truthy joined then joined else "/";
                      params := params u; query := query u;
                      fragment := fragment u |}.

End Urllib.

#[export] Instance urllib_parse : UrlLib := {|
  urlparse := fun url => Urllib.urlparse_with url "";
  urljoin := Urllib.urljoin_impl;
  geturl := Urllib.urlunparse
|}.

(** ** The URL classifier *)

Definition _FILE_EXTENSIONS : list string :=
  [".pdf"; ".doc"; ".docx"; ".xls"; ".xlsx"; ".ppt"; ".pptx"; ".zip"; ".rar";
   ".tar"; ".gz"; ".bz2"; ".7z"; ".exe"; ".dmg"; ".apk";
   ".jpg"; ".jpeg"; ".png"; ".gif"; ".bmp"; ".svg"; ".webp";
   ".mp3"; ".wav"; ".ogg"; ".flac";
   ".mp4"; ".avi"; ".mov"; ".wmv"; ".flv"; ".webm";
   ".txt"; ".csv"; ".json"; ".xml"; ".yaml"; ".md";
   ".css"; ".js"; ".php"; ".asp"; ".aspx"; ".jsp"; ".cfm"; ".cgi"].

Definition _is_file_url `{UrlLib} (url : string) : bool :=
  let parsed_url := urlparse url in
  let p := Str.lower (path parsed_url) in
  existsb (fun ext => Str.endswith p ext) _FILE_EXTENSIONS.

(** ** Crawl state and events *)

(** The module's three globals. *)
Record CrawlState := {
  _visited_urls : gset string;
  _all_discovered_urls : gset string;
  _all_extracted_content : list (string * string)
}.

Definition cleared : CrawlState :=
  {| _visited_urls := ∅; _all_discovered_urls := ∅; _all_extracted_content := [] |}.

(** A duration handed to [time.sleep], in seconds.  [time.sleep] raises
    [ValueError] on a negative length, so a duration is a non-negative
    rational. *)
Record seconds := { numerator : N; denominator : positive }.

Definition half_second : seconds := {| numerator := 1; denominator := 2 |}.
Definition one_second : seconds := {| numerator := 1; denominator := 1 |}.
Definition two_seconds : seconds := {| numerator := 2; denominator := 1 |}.

(** One event per effectful statement of [urls_list.py]. *)
Inductive event :=
| EvEnter (url : string) (depth : Z)
    (** entry of [_recursive_scrape] *)
| EvDiscover (url : string)
    (** [_all_discovered_urls.add(url)] *)
| EvVisit (url : string)
    (** [_visited_urls.add(url)] *)
| EvAppend (url text : string)
    (** [_all_extracted_content.append({'url': url, 'text': text})] *)
| EvRequest (url : string) (attempt max_retries timeout : Z)
    (** the "Attempt i/n" line followed by [requests.get(url, timeout=...)];
        [attempt] is the loop variable, printed as [attempt + 1] *)
| EvRetrySleep (delay : seconds)
    (** [time.sleep(delay)] of the retry loop *)
| EvGiveUp (url : string) (max_retries : Z)
    (** "Failed to fetch ... after n attempts." *)
| EvPoliteSleep (delay : seconds)
    (** [time.sleep(politeness_delay)] before a recursive call *)
| EvQuotaBreak (limit : Z)
    (** the [break] of the link loop and its message *)
| EvSaved (count : nat) (filename : string)
    (** "Successfully saved n URLs to ..." *)
| EvSaveError (filename : string)
    (** "Error saving URLs to file ..." of the [except IOError] handler *).

(** The effect of an event on the globals. *)
Definition apply_event (e : event) (st : CrawlState) : CrawlState :=
  match e with
  | EvDiscover url =>
      {| _visited_urls := _visited_urls st;
         _all_discovered_urls := {[url]} ∪ _all_discovered_urls st;
         _all_extracted_content := _all_extracted_content st |}
  | EvVisit url =>
      {| _visited_urls := {[url]} ∪ _visited_urls st;
         _all_discovered_urls := _all_discovered_urls st;
         _all_extracted_content := _all_extracted_content st |}
  | EvAppend url text =>
      {| _visited_urls := _visited_urls st;
         _all_discovered_urls := _all_discovered_urls st;
         _all_extracted_content := _all_extracted_content st ++ [(url, text)] |}
  | _ => st
  end.

Definition is_request (e : event) : bool :=
  match e with EvRequest _ _ _ _ => true | _ => false end.

(** The running program: the globals, the number of HTTP requests issued so
    far, and the trace. *)
Record Machine := {
  globals : CrawlState;
  clock : nat;
  trace : list event
}.

Definition emit (e : event) (m : Machine) : Machine :=
  {| globals := apply_event e (globals m);
     clock := if is_request e then S (clock m) else clock m;
     trace := trace m ++ [e] |}.

Arguments emit : simpl never.

(** The globals reached after a sequence of events. *)
Definition replay (st : CrawlState) (es : list event) : CrawlState :=
  fold_left (fun st e => apply_event e st) es st.

(** ** The page fetcher *)

(** What one [requests.get] followed by the parsing of the body yields:
    the cleaned text with the [href] of every anchor in document order, or
    one of the three exceptions the loop catches. *)
Inductive attempt_outcome :=
| Parsed (text : string) (hrefs : list string)
| TimedOut
| RequestFailed
| Unexpected.

(** The network: the outcome of the n-th request of the run, for the URL it
    asks for. *)
Definition Web := nat -> string -> attempt_outcome.

Section Crawler.

Context `{lib : UrlLib}.
Variable web : Web.

(** Lines 76-88: the links kept from a page.  The source collects them in a
    set and returns [list(found_links)], whose order Python leaves
    unspecified; here the order is that of first occurrence. *)
Definition keep_link (url href : string) : option string :=
  let full_url := urljoin url href in
  let parsed_full_url := urlparse full_url in
  if Str.mem (scheme parsed_full_url) ["http"; "https"] &&
     negb (Str.truthy (fragment parsed_full_url)) &&
     negb (Str.startswith full_url "mailto:")
  then Some (geturl (replace_fragment parsed_full_url ""))
  else None.

Definition extract_links (url : string) (hrefs : list string) : list string :=
  remove_dups (omap (keep_link url) hrefs).

(** The body of [for attempt in range(max_retries)], with [remaining]
    iterations left. *)
Fixpoint attempts (url : string) (max_retries : Z) (delay : seconds)
    (remaining : nat) (attempt : Z) (m : Machine)
    : option (string * list string) * Machine :=
  match remaining with
  | O => (None, emit (EvGiveUp url max_retries) m)
  | S remaining' =>
      let outcome := web (clock m) url in
      let m := emit (EvRequest url attempt max_retries 10) m in
      match outcome with
      | Parsed text_content hrefs =>
          (Some (text_content, extract_links url hrefs), m)
      | _ =>
          let m :=
            if attempt <? max_retries - 1 then emit (EvRetrySleep delay) m
            else m in
          attempts url max_retries delay remaining' (attempt + 1) m
      end
  end.

(** [_get_page_content(url, max_retries, delay)]; [None] stands for the
    pair [(None, None)]. *)
Definition _get_page_content (url : string) (max_retries : Z) (delay : seconds)
    (m : Machine) : option (string * list string) * Machine :=
  attempts url max_retries delay (Z.to_nat max_retries) 0 m.

(** ** The traversal engine *)

Definition len (st : CrawlState) : Z :=
  Z.of_nat (length (_all_extracted_content st)).

Definition should_scrape_content (st : CrawlState) (current_url : string)
    (max_depth current_depth scrape_content_limit : Z) : bool :=
  negb (bool_decide (current_url ∈ _visited_urls st)) &&
  (current_depth <=? max_depth) &&
  (len st <? scrape_content_limit).

(** Lines 113-135: everything before the link loop.  Returns
    [found_links]. *)
Definition scrape_page (current_url : string)
    (max_depth current_depth scrape_content_limit : Z) (m : Machine)
    : option (list string) * Machine :=
  let m := emit (EvDiscover current_url) m in
  if should_scrape_content (globals m) current_url max_depth current_depth
       scrape_content_limit
  then
    let m := emit (EvVisit current_url) m in
    (* the call uses the defaults max_retries=3, delay=1 *)
    match _get_page_content current_url 3 one_second m with
    | (Some (text_content, found_links), m) =>
        let m :=
          if Str.truthy text_content
          then emit (EvAppend current_url text_content) m else m in
        (Some found_links, m)
    | (None, m) => (None, m)
    end
  else
    if negb (bool_decide (current_url ∈ _visited_urls (globals m)))
    then
      let m := emit (EvVisit current_url) m in
      match _get_page_content current_url 3 one_second m with
      | (Some (_, found_links), m) => (Some found_links, m)
      | (None, m) => (None, m)
      end
    else (None, m).

(** The condition of line 145. *)
Definition follows (base_url_netloc : string) (st : CrawlState)
    (link : string) (max_depth current_depth : Z) : bool :=
  let parsed_link := urlparse link in
  let is_internal := String.eqb (netloc parsed_link) base_url_netloc in
  let is_file := _is_file_url link in
  is_internal && negb is_file &&
  negb (bool_decide (link ∈ _visited_urls st)) &&
  (current_depth <? max_depth).

(** Lines 138-152: the loop over [found_links]; [recurse] is the recursive
    call of line 151. *)
Fixpoint link_loop (recurse : string -> Machine -> option Machine)
    (base_url_netloc : string) (max_depth current_depth
    scrape_content_limit : Z) (politeness_delay : seconds)
    (found_links : list string) (m : Machine) : option Machine :=
  match found_links with
  | [] => Some m
  | link :: rest =>
      let m := emit (EvDiscover link) m in
      if follows base_url_netloc (globals m) link max_depth current_depth
      then
        if len (globals m) >=? scrape_content_limit
        then Some (emit (EvQuotaBreak scrape_content_limit) m)
        else
          let m := emit (EvPoliteSleep politeness_delay) m in
          match recurse link m with
          | Some m =>
              link_loop recurse base_url_netloc max_depth current_depth
                scrape_content_limit politeness_delay rest m
          | None => None
          end
      else
        link_loop recurse base_url_netloc max_depth current_depth
          scrape_content_limit politeness_delay rest m
  end.

(** [_recursive_scrape]; [fuel] bounds the nesting of calls, and [None]
    means that it ran out. *)
Fixpoint _recursive_scrape (fuel : nat) (base_url_netloc current_url : string)
    (max_depth current_depth scrape_content_limit : Z)
    (politeness_delay : seconds) (m : Machine) : option Machine :=
  match fuel with
  | O => None
  | S fuel' =>
      let m := emit (EvEnter current_url current_depth) m in
      let '(found_links, m) :=
        scrape_page current_url max_depth current_depth
          scrape_content_limit m in
      match found_links with
      | Some (link :: rest) =>
          link_loop
            (fun link m =>
               _recursive_scrape fuel' base_url_netloc link max_depth
                 (current_depth + 1) scrape_content_limit politeness_delay m)
            base_url_netloc max_depth current_depth scrape_content_limit
            politeness_delay (link :: rest) m
      | _ => Some m
      end
  end.

End Crawler.

(** ** The orchestrator *)

(** Lexicographic order on strings by character code, the order of Python's
    [sorted] on [str]. *)
Definition str_le (a b : string) : Prop := String.leb a b = true.

#[export] Instance str_le_dec : RelDecision str_le.
Proof. intros a b. unfold str_le. apply _. Defined.

(** [sorted(list(s))]. *)
Definition sorted (s : gset string) : list string :=
  merge_sort str_le (elements s).

(** What the [with open(...)] block meets: it runs to the end, [open]
    raises, or a [write] raises after some lines went out. *)
Inductive io_outcome :=
| WriteOk
| OpenFails
| WriteFails (written : nat).

(** The text written by the loop of lines 202-203. *)
Fixpoint file_text (urls : list string) : string :=
  match urls with
  | [] => EmptyString
  | url :: rest => (url +:+ String "010" EmptyString) +:+ file_text rest
  end.

(** A file re-read line by line: every line ends at a line feed. *)
Fixpoint read_lines_aux (cur : string -> string) (s : string) : list string :=
  match s with
  | EmptyString => []
  | String c s' =>
      if Ascii.eqb c "010" then cur EmptyString :: read_lines_aux (fun x => x) s'
      else read_lines_aux (fun x => cur (String c x)) s'
  end.

Definition read_lines (s : string) : list string := read_lines_aux (fun x => x) s.

Record RunResult := {
  returned_content : list (string * string);
  returned_urls : list string;
  disk_after : gmap string string;
  final : Machine
}.

(** Lines 200-206: the [try] block that writes the inventory. *)
Definition save_urls (io : io_outcome) (output_filename : string)
    (sorted_discovered_urls : list string) (disk : gmap string string)
    (m : Machine) : gmap string string * Machine :=
  match io with
  | WriteOk =>
      (<[output_filename := file_text sorted_discovered_urls]> disk,
       emit (EvSaved (length sorted_discovered_urls) output_filename) m)
  | OpenFails => (disk, emit (EvSaveError output_filename) m)
  | WriteFails written =>
      (<[output_filename :=
           file_text (take written sorted_discovered_urls)]> disk,
       emit (EvSaveError output_filename) m)
  end.

(** The machine at the start of a run, after lines 178-180 reset the
    globals. *)
Definition fresh : Machine := {| globals := cleared; clock := 0; trace := [] |}.

Section Orchestrator.

Context `{lib : UrlLib}.
Variable web : Web.
Variable io : io_outcome.

(** [scrape_website_to_file]; [stale] is what an earlier run left in the
    globals, and [disk] maps file names to their text. *)
Definition scrape_website_to_file (start_url output_filename : string)
    (max_pages_to_visit max_depth : Z) (politeness_delay : seconds)
    (stale : CrawlState) (disk : gmap string string) : option RunResult :=
  (* whatever [stale] holds is dropped *)
  let m := fresh in
  let parsed_start_url := urlparse start_url in
  let base_url_netloc := netloc parsed_start_url in
  match _recursive_scrape web (S (Z.to_nat max_depth)) base_url_netloc
          start_url max_depth 0 max_pages_to_visit politeness_delay m with
  | None => None
  | Some m =>
      let sorted_discovered_urls := sorted (_all_discovered_urls (globals m)) in
      let '(disk, m) :=
        save_urls io output_filename sorted_discovered_urls disk m in
      Some {| returned_content := _all_extracted_content (globals m);
              returned_urls := sorted_discovered_urls;
              disk_after := disk;
              final := m |}
  end.

End Orchestrator.

(** ** A small site to run the crawler on *)

Module Site.

Definition home : string := "https://a.test/".

Definition pages (url : string) : attempt_outcome :=
  if String.eqb url "https://a.test/" then
    Parsed "home page"
      ["https://a.test/p1"; "https://ext.test/x"; "https://a.test/f.pdf"]
  else if String.eqb url "https://a.test/p1" then
    Parsed "page one" ["/p2"; "/p1#top"; "mailto:foo@bar.com"; "/"]
  else if String.eqb url "https://a.test/p2" then
    Parsed "" ["p3"; "https://ext.test/y"]
  else RequestFailed.

(** Every request is answered the same way whenever it is sent. *)
Definition web : Web := fun _ url => pages url.

End Site.

(** ** The vocabulary of the proofs *)

(** Events of the fetcher leave the globals alone. *)
Definition silent (e : event) : bool :=
  match e with
  | EvRequest _ _ _ _ | EvRetrySleep _ | EvGiveUp _ _ => true
  | _ => false
  end.

(** The URLs of the calls of [_recursive_scrape] in a trace, in order. *)
Definition entered (e : event) : option string :=
  match e with EvEnter url _ => Some url | _ => None end.

Definition enters (es : list event) : list string := omap entered es.

(** What the retry loop may emit when called with [max_retries] and
    [delay]. *)
Definition fetch_event (url : string) (max_retries : Z) (delay : seconds)
    (e : event) : Prop :=
  match e with
  | EvRequest u a n t => u = url /\ n = max_retries /\ t = 10 /\ 0 <= a < max_retries
  | EvRetrySleep d => d = delay
  | EvGiveUp u n => u = url /\ n = max_retries
  | _ => False
  end.

(** The globals after a trace, from the cleared state. *)
Definition after (tr : list event) : CrawlState := replay cleared tr.

(** Every URL a call was made on has been marked visited. *)
Definition settled (m : Machine) : Prop :=
  forall u, u ∈ enters (trace m) -> u ∈ _visited_urls (globals m).

(** *** What the code knows when it emits an event *)

Section Discipline.

Context `{lib : UrlLib}.
Variables (base_url_netloc : string) (max_depth scrape_content_limit : Z)
          (politeness_delay : seconds).

(** The condition under which each event is emitted, read off the
    statements that lead to it: [tr] is the trace so far. *)
Definition guard (tr : list event) (e : event) : Prop :=
  match e with
  | EvEnter url depth =>
      (url ∉ _visited_urls (after tr)) /\
      (forall u, u ∈ enters tr -> u ∈ _visited_urls (after tr)) /\
      ((depth = 0 /\ tr = []) \/
       (exists tr0 parent,
           tr = tr0 ++ [EvDiscover url; EvPoliteSleep politeness_delay] /\
           EvEnter parent (depth - 1) ∈ tr0 /\
           0 <= depth - 1 < max_depth /\
           netloc (urlparse url) = base_url_netloc /\
           _is_file_url url = false /\
           len (after tr) < scrape_content_limit))
  | EvDiscover _ => True
  | EvVisit url =>
      (url ∉ _visited_urls (after tr)) /\
      exists tr0 depth, tr = tr0 ++ [EvEnter url depth; EvDiscover url]
  | EvAppend url text =>
      text <> EmptyString /\
      len (after tr) < scrape_content_limit /\
      exists tr0 es,
        tr = tr0 ++ EvVisit url :: es /\ Forall (fun e => silent e = true) es
  | EvRequest url attempt max_retries timeout =>
      max_retries = 3 /\ timeout = 10 /\ 0 <= attempt < 3
  | EvRetrySleep delay => delay = one_second
  | EvGiveUp _ max_retries => max_retries = 3
  | EvPoliteSleep delay => delay = politeness_delay
  | EvQuotaBreak limit =>
      limit = scrape_content_limit /\ scrape_content_limit <= len (after tr)
  | EvSaved _ _ | EvSaveError _ => True
  end.

(** A trace every event of which was emitted under its guard. *)
Inductive Valid : list event -> Prop :=
| Valid_nil : Valid []
| Valid_snoc tr e : Valid tr -> guard tr e -> Valid (tr ++ [e]).

(** The machines the crawler runs through: the globals are those of the
    trace, and the trace is valid. *)
Record Wf (m : Machine) : Prop := {
  wf_globals : globals m = after (trace m);
  wf_valid : Valid (trace m)
}.

(** What the link loop needs of the recursive call at [depth + 1]. *)
Definition recursion_ok (recurse : string -> Machine -> option Machine)
    (depth : Z) : Prop :=
  forall link m,
    Wf m -> guard (trace m) (EvEnter link (depth + 1)) ->
    exists m', recurse link m = Some m' /\ Wf m' /\ settled m' /\
               trace m `prefix_of` trace m'.

End Discipline.

(** The invariant of the crawl state (section 3 of the specification). *)
Definition crawl_invariant (max_pages : Z) (st : CrawlState) : Prop :=
  _visited_urls st ⊆ _all_discovered_urls st /\
  len st <= max_pages /\
  NoDup (map fst (_all_extracted_content st)).

(** The invariant, with what makes it inductive: content is only kept for
    visited URLs. *)
Definition strong_invariant (scrape_content_limit : Z) (st : CrawlState)
    : Prop :=
  crawl_invariant scrape_content_limit st /\
  forall u, u ∈ map fst (_all_extracted_content st) -> u ∈ _visited_urls st.

(** Every request and every retry pause uses the defaults of
    [_get_page_content]. *)
Definition fetches_use (max_retries timeout : Z) (delay : seconds)
    (tr : list event) : Prop :=
  forall e, e ∈ tr ->
    match e with
    | EvRequest _ _ n t => n = max_retries /\ t = timeout
    | EvRetrySleep d => d = delay
    | EvGiveUp _ n => n = max_retries
    | _ => True
    end.

(** [m'] is reached from [m] by emitting events. *)
Definition extends (m m' : Machine) : Prop :=
  exists es, trace m' = trace m ++ es /\ globals m' = replay (globals m) es.

(** What the call keeps of a fetch result when it extracts content. *)
Definition kept (extract : bool) (url : string)
    (r : option (string * list string)) : list event :=
  match r with
  | Some (text_content, _) =>
      if extract && Str.truthy text_content
      then [EvAppend url text_content] else []
  | None => []
  end.

(** *** The retry loop *)

Definition is_failure (o : attempt_outcome) : bool :=
  match o with Parsed _ _ => false | _ => true end.

(** The pauses of the retry loop in a trace. *)
Definition retry_sleeps (es : list event) : list seconds :=
  omap (fun e => match e with EvRetrySleep d => Some d | _ => None end) es.

Definition requests (es : list event) : nat :=
  length (List.filter is_request es).

(** What a fetch returns when its last attempt meets [o]. *)
Definition fetch_result `{lib : UrlLib} (url : string) (o : attempt_outcome)
    : option (string * list string) :=
  match o with
  | Parsed text_content hrefs => Some (text_content, extract_links url hrefs)
  | _ => None
  end.

(** A URL that can stand on a line of its own. *)
Definition one_line (url : string) : bool := negb (Str.contains "010" url).

(** ** The configuration of the specification *)

(** The crawl configuration as section 3 of the specification lists it; the
    last three fields have no counterpart among the parameters of
    [scrape_website_to_file]. *)
Record SpecCrawlConfig := {
  cfg_start_url : string;
  cfg_output : string;
  cfg_max_pages : Z;
  cfg_max_depth : Z;
  cfg_delay : seconds;
  cfg_fetch_timeout : Z;
  cfg_max_fetch_retries : Z;
  cfg_retry_delay : seconds
}.

(** A run under a configuration: the orchestrator takes what it has
    parameters for. *)
Definition run_config `{lib : UrlLib} (web : Web) (io : io_outcome)
    (c : SpecCrawlConfig) (stale : CrawlState) (disk : gmap string string)
    : option RunResult :=
  scrape_website_to_file web io (cfg_start_url c) (cfg_output c)
    (cfg_max_pages c) (cfg_max_depth c) (cfg_delay c) stale disk.

(** ** Runs on the small site *)

Module Demo.

Definition config : SpecCrawlConfig :=
  {| cfg_start_url := Site.home; cfg_output := "out.txt";
     cfg_max_pages := 50; cfg_max_depth := 3; cfg_delay := half_second;
     cfg_fetch_timeout := 30; cfg_max_fetch_retries := 5;
     cfg_retry_delay := two_seconds |}.

(** The machine of a run on the small site with a quota of one page, when
    the link loop of the start page begins. *)
Definition at_loop : Machine :=
  (scrape_page Site.web Site.home 3 0 1 (emit (EvEnter Site.home 0) fresh)).2.

(** A start page with two internal links, in either order. *)
Definition twins (first second : string) : Web :=
  fun _ url =>
    if String.eqb url "https://a.test/" then Parsed "home page" [first; second]
    else Parsed "leaf" [].

(** A start page whose only anchor carries a fragment. *)
Definition anchored : Web :=
  fun _ url =>
    if String.eqb url "https://x/" then Parsed "x" ["https://x/page#sec"]
    else RequestFailed.

(** A site whose start URL ends in [.pdf] and carries a fragment. *)
Definition report : Web :=
  fun _ url =>
    if String.eqb url "https://a.test/report.pdf#page=2"
    then Parsed "annual report" ["https://a.test/p1"]
    else RequestFailed.

(** Two failures, then the page. *)
Definition third_time : Web :=
  fun n url =>
    match n with
    | O | S O => TimedOut
    | _ => Parsed "at last" ["https://a.test/p1"]
    end.

End Demo.

(** ** More vocabulary: what a trace holds *)

(** The URLs marked visited in a trace, in order. *)
Definition visits (es : list event) : list string :=
  omap (fun e => match e with EvVisit url => Some url | _ => None end) es.

(** The pairs appended to the extracted content in a trace, in order. *)
Definition appended (es : list event) : list (string * string) :=
  omap (fun e => match e with EvAppend url text => Some (url, text) | _ => None end) es.

(** The number of politeness pauses in a trace. *)
Definition polite_sleeps (es : list event) : nat :=
  length (List.filter (fun e => match e with EvPoliteSleep _ => true | _ => false end) es).

(** The number of requests for [url] in a trace. *)
Definition requests_for (url : string) (es : list event) : nat :=
  length (List.filter
            (fun e => match e with
                      | EvRequest u _ _ _ => String.eqb u url
                      | _ => false
                      end) es).

(** [link] came out of the link filter of some page. *)
Definition passed_filter `{lib : UrlLib} (link : string) : Prop :=
  exists url href, keep_link url href = Some link.

(** In a trace, every request for a URL comes after the URL was recorded
    and marked visited. *)
Definition requests_follow_visits (tr : list event) : Prop :=
  forall tr1 u a n t tr2,
    tr = tr1 ++ EvRequest u a n t :: tr2 ->
    EvDiscover u ∈ tr1 /\ EvVisit u ∈ tr1.

(** ** More sites *)

Module Cases.

(** The first request of the run times out, the later ones are answered by
    the small site. *)
Definition flaky : Web :=
  fun n url => match n with O => TimedOut | _ => Site.pages url end.

End Cases.

(** A property of every event of a trace, given the trace before it. *)
Inductive Always (P : list event -> event -> Prop) : list event -> Prop :=
| Always_nil : Always P []
| Always_snoc tr e : Always P tr -> P tr e -> Always P (tr ++ [e]).

(** A request is for a URL that the globals hold as visited and as
    discovered. *)
Definition request_known (tr : list event) (e : event) : Prop :=
  match e with
  | EvRequest u _ _ _ =>
      u ∈ _visited_urls (after tr) /\ u ∈ _all_discovered_urls (after tr)
  | _ => True
  end.

(** What holds of the machine between the steps of a traversal started at
    [start_url]; [pending] is 0 between a politeness pause and the call it
    precedes, and 1 elsewhere. *)
Record crawl_facts `{lib : UrlLib} (start_url : string) (pending : nat)
    (m : Machine) : Prop := {
  facts_globals : globals m = after (trace m);
  facts_visits : visits (trace m) = enters (trace m);
  facts_known : Always request_known (trace m);
  facts_unvisited :
    forall u, u ∉ visits (trace m) -> requests_for u (trace m) = 0%nat;
  facts_requests : forall u, (requests_for u (trace m) <= 3)%nat;
  facts_total : (requests (trace m) <= 3 * length (enters (trace m)))%nat;
  facts_sleeps :
    (polite_sleeps (trace m) + pending)%nat = length (enters (trace m));
  facts_provenance :
    forall u, u ∈ _all_discovered_urls (globals m) ->
              u = start_url \/ passed_filter u
}.

(** * The scripts that work on the crawler's output

    [download_urls.py] names and sorts the files it downloads, and
    [save_extracted_content.py] turns saved pages into text files.  The
    parts of them that decide names, extensions and what is written are
    embedded below.  The functions of Python's library whose result depends
    on Unicode tables, on a digest or on a registry ([urllib.parse.unquote],
    [hashlib.md5], [str.isalnum], [str.strip] without argument,
    [mimetypes.guess_extension], the HTML parser) are parameters: what is
    proved holds whatever they return.  Paths are POSIX paths. *)

(** ** More Python [str] helpers *)

Module Text.

(** [s.rstrip(chars)], with [p] deciding membership in [chars]. *)
Fixpoint rstrip (p : ascii -> bool) (s : string) : string :=
  match s with
  | EmptyString => EmptyString
  | String a s' =>
      match rstrip p s' with
      | EmptyString => if p a then EmptyString else String a EmptyString
      | r => String a r
      end
  end.

(** [s.strip(chars)]. *)
Definition strip (p : ascii -> bool) (s : string) : string :=
  rstrip p (Str.lstrip p s).

(** [s.rsplit(c, 1)]: the text before the last [c] and the text after it,
    or [None] when [c] does not occur and the result has one element. *)
Fixpoint rsplit_once (c : ascii) (s : string) : option (string * string) :=
  match s with
  | EmptyString => None
  | String a s' =>
      match rsplit_once c s' with
      | Some (l, r) => Some (String a l, r)
      | None => if Ascii.eqb a c then Some (EmptyString, s') else None
      end
  end.

(** [re.sub] of a character class by one character. *)
Fixpoint sub_chars (class : ascii -> bool) (repl : ascii) (s : string)
    : string :=
  match s with
  | EmptyString => EmptyString
  | String a s' =>
      String (if class a then repl else a) (sub_chars class repl s')
  end.

(** [needle in s]. *)
Fixpoint contains (needle s : string) : bool :=
  Str.startswith s needle ||
  match s with
  | EmptyString => false
  | String _ s' => contains needle s'
  end.

(** [c in chars] for a character and a string literal. *)
Definition among (chars : list ascii) (c : ascii) : bool :=
  existsb (Ascii.eqb c) chars.

(** [s.rfind(c)] from position [i] on, [found] being the last position
    seen so far; [-1] when there is none. *)
Fixpoint rfind_from (c : ascii) (s : string) (i found : Z) : Z :=
  match s with
  | EmptyString => found
  | String a s' => rfind_from c s' (i + 1) (if Ascii.eqb a c then i else found)
  end.

Definition rfind (c : ascii) (s : string) : Z := rfind_from c s 0 (-1).

(** [s[i:j]] for [0 <= i]. *)
Definition slice (i j : Z) (s : string) : string :=
  substring (Z.to_nat i) (Z.to_nat (j - i)) s.

End Text.

(** ** [download_urls.py]: the name of a downloaded file *)

(** The characters of the class replaced at line 42: backslash (code 92),
    slash, colon, star, question mark, double quote (code 34), angle
    brackets and bar. *)
Definition invalid_chars : list ascii :=
  ["092"; "/"; ":"; "*"; "?"; "034"; "<"; ">"; "|"]%char.

Section Sanitize.

Context `{lib : UrlLib}.
(** [urllib.parse.unquote], [hashlib.md5(q.encode('utf-8')).hexdigest()]
    and [str.isalnum]. *)
Variable unquote : string -> string.
Variable md5_hexdigest : string -> string.
Variable isalnum : string -> bool.

Definition sanitize_filename (url : string) : string :=
  let decoded_url := unquote url in
  let parsed_url := urlparse decoded_url in
  let path_segments :=
    List.filter Str.truthy (Str.split "/" (path parsed_url)) in
  let filename :=
    match path_segments with
    | _ :: _ => default EmptyString (last path_segments)
    | [] => netloc parsed_url
    end in
  let filename :=
    if Str.truthy (query parsed_url) then
      let query_hash :=
        substring 0 8 (md5_hexdigest (query parsed_url)) in
      if Str.truthy filename then filename +:+ "_" +:+ query_hash
      else "index_" +:+ query_hash
    else filename in
  let filename_parts := Text.rsplit_once "." filename in
  let filename :=
    match filename_parts with
    | Some (before, after) => if isalnum after then before else filename
    | None => filename
    end in
  let filename := Text.sub_chars (Text.among invalid_chars) "_" filename in
  let filename := Text.strip (Text.among [" "; "."]%char) filename in
  if negb (Str.truthy filename) then "index" else filename.

End Sanitize.

(** ** [os.path.splitext] on POSIX paths, after CPython's
    [genericpath._splitext] *)

(** The extension starts at the last dot of [p], provided the dot comes
    after the last slash and some character between them is not a dot. *)
Definition splitext (p : string) : string * string :=
  let sepIndex := Text.rfind "/" p in
  let dotIndex := Text.rfind "." p in
  if (dotIndex >? sepIndex) &&
     negb (Str.forallb (Ascii.eqb ".") (Text.slice (sepIndex + 1) dotIndex p))
  then (Text.slice 0 dotIndex p,
        Text.slice dotIndex (Z.of_nat (String.length p)) p)
  else (p, EmptyString).

(** ** [download_urls.py]: the content type and the extension *)

Section ContentType.

Context `{lib : UrlLib}.
(** [str.strip] without argument and [mimetypes.guess_extension]. *)
Variable strip : string -> string.
Variable guess_extension : string -> option string.

(** [content_type_header] is what [response_headers.get] finds under
    [Content-Type], if anything. *)
Definition get_content_type_and_extension (url : string)
    (content_type_header : option string) : string * string :=
  let content_type :=
    Str.lower
      (strip (hd EmptyString
                (Str.split ";" (default EmptyString content_type_header)))) in
  let ext := guess_extension content_type in
  if match ext with Some e => Str.truthy e | None => false end
  then (content_type, default EmptyString ext)
  else
    let parsed_url := urlparse url in
    let path := path parsed_url in
    let url_ext := (splitext path).2 in
    if Str.truthy url_ext then (content_type, Str.lower url_ext)
    else if Text.contains "html" content_type then (content_type, ".html")
    else if Text.contains "text/" content_type then (content_type, ".txt")
    else if Text.contains "json" content_type then (content_type, ".json")
    else if Text.contains "xml" content_type then (content_type, ".xml")
    else if Text.contains "pdf" content_type then (content_type, ".pdf")
    else if Text.contains "image/" content_type then (content_type, ".bin")
    else (content_type, ".bin").

End ContentType.

(** ** [save_extracted_content.py] *)

(** What reading a saved page meets, and what writing its text meets: the
    write goes through, [open] raises and the file is left as it was, or
    the write raises after [written] characters reached the file. *)
Inductive read_outcome :=
| ReadOk (html_content : string)
| ReadFails.

Inductive write_outcome :=
| WriteDone
| OpenRaises
| WriteRaises (written : nat).

(** The test of line 23. *)
Definition is_html_name (filename : string) : bool :=
  Str.endswith filename ".html" || Str.endswith filename ".htm".

(** Lines 37-38 on the output directory, a map from file names to texts. *)
Definition write_text (o : write_outcome) (output_filename text : string)
    (out : gmap string string) : gmap string string :=
  match o with
  | WriteDone => <[output_filename := text]> out
  | OpenRaises => out
  | WriteRaises written => <[output_filename := substring 0 written text]> out
  end.

Section SaveText.

(** [BeautifulSoup(html, 'html.parser').get_text(separator='\n',
    strip=True)], [None] when the parser raises; and what the file system
    does when the file [filename] is read and when its text is written. *)
Variable get_text : string -> option string.
Variable fs_read : string -> read_outcome.
Variable fs_write : string -> write_outcome.

(** One iteration of the loop of line 22; every exception is caught at
    line 41 and the loop goes on. *)
Definition extract_one (out : gmap string string) (filename : string)
    : gmap string string :=
  if is_html_name filename then
    match fs_read filename with
    | ReadOk html_content =>
        match get_text html_content with
        | Some text_content =>
            let output_filename := (splitext filename).1 +:+ ".txt" in
            write_text (fs_write filename) output_filename text_content out
        | None => out
        end
    | ReadFails => out
    end
  else out.

(** [listing] is [None] when [html_files_directory] is not a directory,
    and the result of [os.listdir] otherwise; [out] is the content of
    [output_directory], empty when it has to be created. *)
Definition extract_text_from_html_files_and_save
    (listing : option (list string)) (out : gmap string string)
    : gmap string string :=
  match listing with
  | None => out
  | Some filenames => fold_left extract_one filenames out
  end.

End SaveText.

(** ** [download_urls.py]: the download loop *)

(** [posixpath.join(a, b)]. *)
Definition os_path_join (a b : string) : string :=
  if Str.startswith b "/" then b
  else if negb (Str.truthy a) || Str.endswith a "/" then a +:+ b
  else a +:+ "/" +:+ b.

(** What a path leads to; the file system maps the paths the script uses
    to what they lead to. *)
Inductive node :=
| File (content : string)
| Directory.

(** [os.path.exists(path)]. *)
Definition os_path_exists (fs : gmap string node) (path : string) : bool :=
  match fs !! path with Some _ => true | None => false end.

(** [with open(path, 'wb') as f: ...]: the new file system, and whether the
    block ran to its end.  Opening a directory raises. *)
Definition write_file (o : write_outcome) (path content : string)
    (fs : gmap string node) : gmap string node * bool :=
  match fs !! path with
  | Some Directory => (fs, false)
  | _ =>
      match o with
      | WriteDone => (<[path := File content]> fs, true)
      | OpenRaises => (fs, false)
      | WriteRaises written =>
          (<[path := File (substring 0 written content)]> fs, false)
      end
  end.

(** The file read at line 120 as the lines [for line in f] yields: a line
    ends after a line feed, a carriage return or the two in a row, each
    read as one line feed, and the text after the last of them is a line
    when it is not empty. *)
Fixpoint text_lines_aux (cur : string -> string) (s : string) : list string :=
  match s with
  | EmptyString =>
      match cur EmptyString with
      | EmptyString => []
      | line => [line]
      end
  | String c s' =>
      if Ascii.eqb c "010" then
        cur (String "010" EmptyString) :: text_lines_aux (fun x => x) s'
      else if Ascii.eqb c "013" then
        cur (String "010" EmptyString) ::
        match s' with
        | String c' s'' =>
            if Ascii.eqb c' "010" then text_lines_aux (fun x => x) s''
            else text_lines_aux (fun x => x) s'
        | EmptyString => text_lines_aux (fun x => x) s'
        end
      else text_lines_aux (fun x => cur (String c x)) s'
  end.

Definition text_lines (s : string) : list string :=
  text_lines_aux (fun x => x) s.

(** One event per request, pause and message of the download loop. *)
Inductive dl_event :=
| DlSkip (url : string)
    (** "Skipping URL: ..." and the [continue] of line 143 *)
| DlRequest (url : string) (attempt timeout : Z)
    (** [requests.get(url, ..., stream=True, timeout=...)] *)
| DlSaved (filepath : string)
    (** "Saved HTML to: ..." and "Saved ... to: ..." *)
| DlTextSaved (filepath : string)
    (** "Saved plain text to: ..." *)
| DlTextError (url : string)
    (** "Error extracting text from HTML for ..." *)
| DlRetry (url : string) (attempt : Z)
    (** the four messages that end in "Retrying (i/n)..." *)
| DlRetrySleep (delay : seconds)
    (** [time.sleep(retry_delay)] *)
| DlFailed (url : string) (max_retries : Z)
    (** "Failed to download ... after n attempts." *)
| DlPoliteSleep (delay : seconds).
    (** [time.sleep(politeness_delay)] of line 227 *)

Definition dl_is_request (e : dl_event) : bool :=
  match e with DlRequest _ _ _ => true | _ => false end.

(** The running download: the file system, the number of requests sent so
    far, and what happened so far. *)
Record Downloader := {
  files : gmap string node;
  sent : nat;
  history : list dl_event
}.

Definition record (e : dl_event) (d : Downloader) : Downloader :=
  {| files := files d;
     sent := if dl_is_request e then S (sent d) else sent d;
     history := history d ++ [e] |}.

Definition with_files (fs : gmap string node) (d : Downloader) : Downloader :=
  {| files := fs; sent := sent d; history := history d |}.

(** What a request meets.  [NoResponse] stands for every exception raised
    by [requests.get] or [raise_for_status]; a response comes with its
    [Content-Type] header if it has one, its body, what saving the body
    meets (the stream or the disk may fail half way), the text the parser
    extracts from the page ([None] when lines 184-189 raise), and what
    saving that text meets. *)
Inductive response_outcome :=
| NoResponse
| Response (content_type_header : option string) (body : string)
    (saving : write_outcome) (text_content : option string)
    (text_saving : write_outcome).

Definition Net := nat -> string -> response_outcome.

Definition allowed_domain : string := "www.mosdac.gov.in".

Section Download.

Context `{lib : UrlLib}.
Variable unquote : string -> string.
Variable md5_hexdigest : string -> string.
Variable isalnum : string -> bool.
Variable strip : string -> string.
Variable guess_extension : string -> option string.
Variable net : Net.

Variable output_base_dir : string.

Definition html_dir : string := os_path_join output_base_dir "html_pages".
Definition text_dir : string := os_path_join output_base_dir "text_content".
Definition documents_dir : string := os_path_join output_base_dir "documents".
Definition images_dir : string := os_path_join output_base_dir "images".
Definition other_files_dir : string :=
  os_path_join output_base_dir "other_files".

(** Lines 153-167. *)
Definition choose_target_dir (content_type file_ext : string) : string :=
  if Text.contains "text/html" content_type then html_dir
  else if Text.contains "application/pdf" content_type ||
          String.eqb file_ext ".pdf" then documents_dir
  else if Text.contains "image/" content_type then images_dir
  else if Text.contains "application/msword" content_type ||
          Text.contains
            "application/vnd.openxmlformats-officedocument.wordprocessingml.document"
            content_type ||
          Str.mem file_ext [".doc"; ".docx"] then documents_dir
  else if Text.contains "application/vnd.ms-excel" content_type ||
          Text.contains
            "application/vnd.openxmlformats-officedocument.spreadsheetml.sheet"
            content_type ||
          Str.mem file_ext [".xls"; ".xlsx"] then documents_dir
  else if Text.contains "application/vnd.ms-powerpoint" content_type ||
          Text.contains
            "application/vnd.openxmlformats-officedocument.presentationml.presentation"
            content_type ||
          Str.mem file_ext [".ppt"; ".pptx"] then documents_dir
  else if Text.contains "application/zip" content_type ||
          String.eqb file_ext ".zip" then other_files_dir
  else other_files_dir.

(** The path tried when [counter - 1] paths were found taken. *)
Definition numbered_filepath (target_dir base_filename file_ext : string)
    (counter : Z) : string :=
  os_path_join target_dir
    (base_filename +:+ "_" +:+ pretty counter +:+ file_ext).

(** Lines 200-204: the search for a path that does not exist; [fuel]
    bounds the iterations, and [None] means that it ran out. *)
Fixpoint unique_filepath (fuel : nat) (fs : gmap string node)
    (target_dir base_filename file_ext : string) (counter : Z)
    (filepath : string) : option string :=
  match fuel with
  | O => None
  | S fuel' =>
      if os_path_exists fs filepath
      then unique_filepath fuel' fs target_dir base_filename file_ext
             (counter + 1)
             (numbered_filepath target_dir base_filename file_ext counter)
      else Some filepath
  end.

(** Lines 150-211: what is done with a response.  The result tells whether
    the [break] of line 211 was reached; otherwise an exception left the
    [try] block. *)
Definition save_response (url : string) (content_type_header : option string)
    (body : string) (saving : write_outcome) (text_content : option string)
    (text_saving : write_outcome) (d : Downloader)
    : option (bool * Downloader) :=
  let '(content_type, file_ext) :=
    get_content_type_and_extension strip guess_extension url
      content_type_header in
  let target_dir := choose_target_dir content_type file_ext in
  let base_filename := sanitize_filename unquote md5_hexdigest isalnum url in
  if String.eqb target_dir html_dir then
    let html_filepath := os_path_join target_dir (base_filename +:+ ".html") in
    let text_filepath := os_path_join text_dir (base_filename +:+ ".txt") in
    let '(fs, done) := write_file saving html_filepath body (files d) in
    let d := with_files fs d in
    if done then
      let d := record (DlSaved html_filepath) d in
      let d :=
        match text_content with
        | Some text_content =>
            let '(fs, done) :=
              write_file text_saving text_filepath text_content (files d) in
            let d := with_files fs d in
            if done then record (DlTextSaved text_filepath) d
            else record (DlTextError url) d
        | None => record (DlTextError url) d
        end in
      Some (true, d)
    else Some (false, d)
  else
    let filepath := os_path_join target_dir (base_filename +:+ file_ext) in
    match unique_filepath (S (size (files d))) (files d) target_dir
            base_filename file_ext 1 filepath with
    | None => None
    | Some filepath =>
        let '(fs, done) := write_file saving filepath body (files d) in
        let d := with_files fs d in
        if done then Some (true, record (DlSaved filepath) d)
        else Some (false, d)
    end.

(** The body of [for attempt in range(max_retries)], with [remaining]
    iterations left, and the [else] of the loop. *)
Fixpoint download_attempts (url : string) (max_retries : Z)
    (retry_delay : seconds) (remaining : nat) (attempt : Z) (d : Downloader)
    : option Downloader :=
  match remaining with
  | O => Some (record (DlFailed url max_retries) d)
  | S remaining' =>
      let outcome := net (sent d) url in
      let d := record (DlRequest url attempt 15) d in
      let result :=
        match outcome with
        | NoResponse => Some (false, d)
        | Response content_type_header body saving text_content text_saving =>
            save_response url content_type_header body saving text_content
              text_saving d
        end in
      match result with
      | None => None
      | Some (true, d) => Some d
      | Some (false, d) =>
          let d := record (DlRetry url attempt) d in
          let d :=
            if attempt <? max_retries - 1
            then record (DlRetrySleep retry_delay) d else d in
          download_attempts url max_retries retry_delay remaining'
            (attempt + 1) d
      end
  end.

(** One iteration of the loop of line 137. *)
Definition download_url (politeness_delay : seconds) (max_retries : Z)
    (retry_delay : seconds) (url : string) (d : Downloader)
    : option Downloader :=
  let parsed_url := urlparse url in
  if negb (String.eqb (netloc parsed_url) allowed_domain)
  then Some (record (DlSkip url) d)
  else
    match download_attempts url max_retries retry_delay
            (Z.to_nat max_retries) 0 d with
    | Some d => Some (record (DlPoliteSleep politeness_delay) d)
    | None => None
    end.

Fixpoint download_all (politeness_delay : seconds) (max_retries : Z)
    (retry_delay : seconds) (urls : list string) (d : Downloader)
    : option Downloader :=
  match urls with
  | [] => Some d
  | url :: rest =>
      match download_url politeness_delay max_retries retry_delay url d with
      | Some d =>
          download_all politeness_delay max_retries retry_delay rest d
      | None => None
      end
  end.

(** Line 121. *)
Definition urls_to_download (text : string) : list string :=
  map strip
    (List.filter (fun line => Str.truthy (strip line)) (text_lines text)).

(** [download_content_from_urls], once the directories of lines 102-116
    are there: [fs] is the file system at that point, and [url_list_file]
    the text of the list, [None] when reading it raises. *)
Definition download_content_from_urls (url_list_file : option string)
    (politeness_delay : seconds) (max_retries : Z) (retry_delay : seconds)
    (fs : gmap string node) : option Downloader :=
  let d := {| files := fs; sent := 0; history := [] |} in
  match url_list_file with
  | None => Some d
  | Some text =>
      download_all politeness_delay max_retries retry_delay
        (urls_to_download text) d
  end.

End Download.

(** *** The vocabulary of the download loop *)

(** What [os.path.join] puts before a relative name. *)
Definition dir_prefix (a : string) : string :=
  if negb (Str.truthy a) || Str.endswith a "/" then a else a +:+ "/".

Definition dl_requests (es : list dl_event) : nat :=
  length (List.filter dl_is_request es).

Definition dl_polite_sleeps (es : list dl_event) : list seconds :=
  omap (fun e => match e with DlPoliteSleep d => Some d | _ => None end) es.

Definition dl_failures (es : list dl_event) : list string :=
  omap (fun e => match e with DlFailed u _ => Some u | _ => None end) es.

(** The test of line 141, the other way round. *)
Definition is_allowed `{lib : UrlLib} (url : string) : bool :=
  String.eqb (netloc (urlparse url)) allowed_domain.

(** What the retry loop for [url] may put in the history. *)
Definition attempt_event (url : string) (max_retries : Z)
    (retry_delay : seconds) (e : dl_event) : Prop :=
  match e with
  | DlRequest u a t => u = url /\ t = 15 /\ 0 <= a < max_retries
  | DlSaved _ | DlTextSaved _ | DlTextError _ => True
  | DlRetry u a => u = url /\ 0 <= a < max_retries
  | DlRetrySleep d => d = retry_delay
  | DlFailed u n => u = url /\ n = max_retries
  | DlSkip _ | DlPoliteSleep _ => False
  end.

(** Whatever was in the file system is still there, except files at the
    paths [open]. *)
Definition preserves (open : list string) (fs fs' : gmap string node)
    : Prop :=
  forall p n, fs !! p = Some n ->
    fs' !! p = Some n \/ (p ∈ open /\ exists content, n = File content).

(** The two files an HTML page is saved to. *)
Definition page_paths `{lib : UrlLib} (unquote md5_hexdigest : string -> string)
    (isalnum : string -> bool) (output_base_dir url : string) : list string :=
  let base_filename := sanitize_filename unquote md5_hexdigest isalnum url in
  [os_path_join (html_dir output_base_dir) (base_filename +:+ ".html");
   os_path_join (text_dir output_base_dir) (base_filename +:+ ".txt")].

(** What saving a response may put in the history. *)
Definition save_event (e : dl_event) : Prop :=
  match e with
  | DlSaved _ | DlTextSaved _ | DlTextError _ => True
  | _ => False
  end.

(** What the loop does for a URL when no attempt is made. *)
Definition without_attempt `{lib : UrlLib} (politeness_delay : seconds)
    (max_retries : Z) (url : string) : list dl_event :=
  if is_allowed url
  then [DlFailed url max_retries; DlPoliteSleep politeness_delay]
  else [DlSkip url].

(** [str.strip()] on ASCII text: the characters [str.isspace] accepts are
    the tab, the line feed, the vertical tab, the form feed, the carriage
    return, the four separators 28 to 31 and the space. *)
Definition ascii_isspace (c : ascii) : bool :=
  let n := nat_of_ascii c in
  ((9 <=? n)%nat && (n <=? 13)%nat) || ((28 <=? n)%nat && (n <=? 32)%nat).

Definition ascii_strip (s : string) : string := Text.strip ascii_isspace s.

(** * Theorems *)

(** ** The reference implementation of the library at work *)

Example urlparse_page_sec :
  urlparse "https://x/page#sec" =
  {| scheme := "https"; netloc := "x"; path := "/page"; params := "";
     query := ""; fragment := "sec" |}.
Proof. reflexivity. Qed.

Example urljoin_relative :
  urljoin "https://a.test/dir/index.html" "../f.pdf?x=1" = "https://a.test/f.pdf?x=1".
Proof. reflexivity. Qed.

(** Reference resolution on the examples of RFC 3986, section 5.4, as
    [urljoin] resolves them. *)
Example urljoin_rfc3986 :
  map (urljoin "http://a/b/c/d;p?q")
    ["g"; "./g"; "g/"; "/g"; "//g"; "?y"; "g?y"; "#s"; "g#s"; ";x"; "g;x";
     ""; "."; "./"; ".."; "../"; "../g"; "../.."; "../../g"; "../../../g";
     "/./g"; "g."; "./../g"; "g/./h"; "g/../h"; "mailto:foo@bar.com"] =
    ["http://a/b/c/g"; "http://a/b/c/g"; "http://a/b/c/g/"; "http://a/g";
     "http://g"; "http://a/b/c/d;p?y"; "http://a/b/c/g?y";
     "http://a/b/c/d;p?q#s"; "http://a/b/c/g#s"; "http://a/b/c/;x";
     "http://a/b/c/g;x"; "http://a/b/c/d;p?q"; "http://a/b/c/";
     "http://a/b/c/"; "http://a/b/"; "http://a/b/"; "http://a/b/g";
     "http://a/"; "http://a/g"; "http://a/g"; "http://a/g";
     "http://a/b/c/g."; "http://a/b/g"; "http://a/b/c/g/h";
     "http://a/b/c/h"; "mailto:foo@bar.com"].
Proof. vm_compute. reflexivity. Qed.

Example is_file_url_cases :
  map _is_file_url
    ["https://a.test/Docs/F.PDF?x=1"; "https://a.test/x.pdf;v=1?q#f";
     "https://a.test/a.tar.gz"; "https://a.test/x.pdfx"; "https://a.test/md";
     "https://a.js"; "https://a.test/"] =
    [true; true; true; false; false; false; false].
Proof. vm_compute. reflexivity. Qed.

(** ** Traces and the globals they produce *)

Lemma replay_app st es1 es2 :
  replay st (es1 ++ es2) = replay (replay st es1) es2.
Proof. unfold replay. apply fold_left_app. Qed.

Lemma replay_snoc st es e :
  replay st (es ++ [e]) = apply_event e (replay st es).
Proof. rewrite replay_app. reflexivity. Qed.

Lemma silent_apply e st : silent e = true -> apply_event e st = st.
Proof. destruct e; simpl; intros; congruence. Qed.

Lemma replay_silent st es :
  Forall (fun e => silent e = true) es -> replay st es = st.
Proof.
  intros Hs. revert st. induction Hs as [|e es He _ IH]; intros st; [reflexivity|].
  change (replay st (e :: es)) with (replay (apply_event e st) es).
  rewrite IH. apply silent_apply, He.
Qed.

Lemma enters_app es1 es2 : enters (es1 ++ es2) = enters es1 ++ enters es2.
Proof. apply omap_app. Qed.

Lemma emit_trace e m : trace (emit e m) = trace m ++ [e].
Proof. reflexivity. Qed.

Lemma emit_globals e m : globals (emit e m) = apply_event e (globals m).
Proof. reflexivity. Qed.

(** ** The fetcher, event by event *)

Section Fetcher.

Context `{lib : UrlLib}.
Variable web : Web.

Lemma fetch_event_silent url n d e : fetch_event url n d e -> silent e = true.
Proof. destruct e; simpl; intros; try contradiction; reflexivity. Qed.

Lemma attempts_events url max_retries delay remaining :
  forall attempt m r m',
    0 <= attempt ->
    (remaining = 0%nat \/ attempt + Z.of_nat remaining <= max_retries) ->
    attempts web url max_retries delay remaining attempt m = (r, m') ->
    exists es,
      trace m' = trace m ++ es /\
      globals m' = globals m /\
      Forall (fetch_event url max_retries delay) es.
Proof.
  induction remaining as [|k IH]; intros attempt m r m' H0 Hle Hrun; simpl in Hrun.
  - inversion Hrun; subst. exists [EvGiveUp url max_retries]. simpl.
    repeat split. constructor; [simpl; auto | constructor].
  - destruct Hle as [Hle|Hle]; [discriminate|].
    assert (Hreq : fetch_event url max_retries delay
                     (EvRequest url attempt max_retries 10))
      by (simpl; repeat split; lia).
    assert (Hfail : forall m1,
               attempts web url max_retries delay k (attempt + 1) m1 = (r, m') ->
               trace m1 = trace m ++ [EvRequest url attempt max_retries 10] \/
               trace m1 = trace m ++ [EvRequest url attempt max_retries 10;
                                      EvRetrySleep delay] ->
               globals m1 = globals m ->
               exists es, trace m' = trace m ++ es /\ globals m' = globals m /\
                          Forall (fetch_event url max_retries delay) es).
    { intros m1 Hrun1 Htr1 Hg1.
      eapply IH in Hrun1; [| lia | destruct k; [left; reflexivity | right; lia]].
      destruct Hrun1 as (es & Htr & Hg & Hall).
      destruct Htr1 as [Htr1|Htr1]; rewrite Htr1 in Htr;
        rewrite <- app_assoc in Htr; eexists; (split; [exact Htr|]);
        (split; [congruence|]); simpl; repeat constructor; auto; lia. }
    destruct (web (clock m) url) eqn:Hout.
    + inversion Hrun; subst. eexists [_]. simpl. repeat split.
      constructor; [exact Hreq | constructor].
    + destruct (attempt <? max_retries - 1);
        (eapply Hfail;
           [exact Hrun | rewrite ?emit_trace, <- ?app_assoc; simpl; auto | reflexivity]).
    + destruct (attempt <? max_retries - 1);
        (eapply Hfail;
           [exact Hrun | rewrite ?emit_trace, <- ?app_assoc; simpl; auto | reflexivity]).
    + destruct (attempt <? max_retries - 1);
        (eapply Hfail;
           [exact Hrun | rewrite ?emit_trace, <- ?app_assoc; simpl; auto | reflexivity]).
Qed.

Lemma get_page_content_events url max_retries delay m r m' :
  _get_page_content web url max_retries delay m = (r, m') ->
  exists es,
    trace m' = trace m ++ es /\
    globals m' = globals m /\
    Forall (fetch_event url max_retries delay) es.
Proof.
  unfold _get_page_content. intros Hrun.
  eapply attempts_events in Hrun; [exact Hrun | lia |].
  destruct (Z.to_nat max_retries) eqn:E; [left; reflexivity | right; lia].
Qed.

End Fetcher.

(** ** Valid traces *)

Section DisciplineFacts.

Context `{lib : UrlLib}.
Variable web : Web.
Variables (base_url_netloc : string) (max_depth scrape_content_limit : Z)
          (politeness_delay : seconds).

Local Abbreviation guard :=
  (guard base_url_netloc max_depth scrape_content_limit politeness_delay).
Local Abbreviation Valid :=
  (Valid base_url_netloc max_depth scrape_content_limit politeness_delay).
Local Abbreviation Wf :=
  (Wf base_url_netloc max_depth scrape_content_limit politeness_delay).

Lemma Valid_prefix tr1 tr2 : Valid (tr1 ++ tr2) -> Valid tr1.
Proof.
  revert tr1. induction tr2 as [|e tr2 IH] using rev_ind; intros tr1 Hv.
  - rewrite app_nil_r in Hv. exact Hv.
  - rewrite app_assoc in Hv. inversion Hv as [Hnil | tr e' Hv' Hg Heq].
    + destruct (tr1 ++ tr2); discriminate.
    + apply app_inj_tail in Heq as [-> ->]. apply IH, Hv'.
Qed.

Lemma Valid_guard tr1 e tr2 : Valid (tr1 ++ e :: tr2) -> guard tr1 e.
Proof.
  intros Hv. change (tr1 ++ e :: tr2) with (tr1 ++ [e] ++ tr2) in Hv.
  rewrite app_assoc in Hv. apply Valid_prefix in Hv.
  inversion Hv as [Hnil | tr e' Hv' Hg Heq].
  - destruct tr1; discriminate.
  - apply app_inj_tail in Heq as [-> ->]. exact Hg.
Qed.

Lemma Wf_emit e m : Wf m -> guard (trace m) e -> Wf (emit e m).
Proof.
  intros [Hg Hv] He. split.
  - rewrite emit_globals, emit_trace. unfold after. rewrite replay_snoc.
    f_equal. exact Hg.
  - rewrite emit_trace. constructor; assumption.
Qed.

Lemma fetch_event_guard url tr e : fetch_event url 3 one_second e -> guard tr e.
Proof.
  destruct e; simpl; try contradiction; intros H; intuition.
Qed.

(** Appending fetcher events keeps a machine well formed. *)
Lemma Wf_fetch url m m' es :
  Wf m ->
  trace m' = trace m ++ es ->
  globals m' = globals m ->
  Forall (fetch_event url 3 one_second) es ->
  Wf m'.
Proof.
  intros [Hg Hv] Htr Hgl Hall. split.
  - rewrite Htr, Hgl, Hg. unfold after. rewrite replay_app.
    symmetry. apply replay_silent.
    eapply Forall_impl; [exact Hall|]. intros e. apply fetch_event_silent.
  - rewrite Htr. clear Htr Hgl Hg.
    induction es as [|e es IH] using rev_ind.
    + rewrite app_nil_r. exact Hv.
    + apply Forall_app in Hall as [Hes He]. rewrite app_assoc.
      constructor; [exact (IH Hes)|].
      eapply fetch_event_guard. inversion He; subst; eassumption.
Qed.

End DisciplineFacts.

(** ** The shape of one call before its link loop *)

Section Page.

Context `{lib : UrlLib}.
Variable web : Web.
Variables (max_depth scrape_content_limit : Z).

Lemma should_scrape_content_true st url depth :
  should_scrape_content st url max_depth depth scrape_content_limit = true <->
  (url ∉ _visited_urls st) /\ depth <= max_depth /\ len st < scrape_content_limit.
Proof.
  unfold should_scrape_content.
  rewrite !andb_true_iff, negb_true_iff, bool_decide_eq_false.
  rewrite Z.leb_le, Z.ltb_lt. tauto.
Qed.

Lemma truthy_nonempty s : Str.truthy s = true <-> s <> EmptyString.
Proof. destruct s; simpl; split; intros; congruence. Qed.

(** What a call on a URL that is not yet visited emits before its link
    loop, and what it does to the globals. *)
Lemma scrape_page_trace url depth m found m' :
  url ∉ _visited_urls (globals m) ->
  scrape_page web url max_depth depth scrape_content_limit m = (found, m') ->
  exists es tail,
    trace m' = trace m ++ [EvDiscover url; EvVisit url] ++ es ++ tail /\
    Forall (fetch_event url 3 one_second) es /\
    (tail = [] \/
     exists text, tail = [EvAppend url text] /\ text <> EmptyString /\
                  len (globals m) < scrape_content_limit) /\
    globals m' = replay (globals m) ([EvDiscover url; EvVisit url] ++ tail).
Proof.
  intros Hnv Hrun. unfold scrape_page in Hrun.
  assert (Hbd : bool_decide
                  (url ∈ _visited_urls (globals (emit (EvDiscover url) m))) = false)
    by (apply bool_decide_eq_false; exact Hnv).
  destruct (should_scrape_content _ _ _ _ _) eqn:Hs.
  - apply should_scrape_content_true in Hs as (_ & _ & Hlen).
    destruct (_get_page_content _ _ _ _ _) as [r m2] eqn:Hf.
    apply get_page_content_events in Hf as (es & Htr & Hg & Hall).
    rewrite !emit_trace, <- !app_assoc in Htr. simpl in Htr.
    destruct r as [[text links]|].
    + destruct (Str.truthy text) eqn:Ht; inversion Hrun; subst.
      * exists es, [EvAppend url text]. rewrite emit_trace, emit_globals, Htr, Hg.
        rewrite <- !app_assoc. simpl. repeat split; auto.
        right. exists text. repeat split; auto.
        apply truthy_nonempty, Ht.
      * exists es, []. rewrite Htr, Hg, app_nil_r. simpl. repeat split; auto.
    + inversion Hrun; subst. exists es, []. rewrite Htr, Hg, app_nil_r.
      simpl. repeat split; auto.
  - rewrite Hbd in Hrun. simpl in Hrun.
    destruct (_get_page_content _ _ _ _ _) as [r m2] eqn:Hf.
    apply get_page_content_events in Hf as (es & Htr & Hg & Hall).
    rewrite !emit_trace, <- !app_assoc in Htr. simpl in Htr.
    destruct r as [[text links]|]; inversion Hrun; subst;
      exists es, []; rewrite Htr, Hg, app_nil_r; simpl; repeat split; auto.
Qed.

End Page.

(** ** The traversal keeps to the discipline, and returns *)

Section Refinement.

Context `{lib : UrlLib}.
Variable web : Web.
Variables (base_url_netloc : string) (max_depth scrape_content_limit : Z)
          (politeness_delay : seconds).

Local Abbreviation guard :=
  (guard base_url_netloc max_depth scrape_content_limit politeness_delay).
Local Abbreviation Valid :=
  (Valid base_url_netloc max_depth scrape_content_limit politeness_delay).
Local Abbreviation Wf :=
  (Wf base_url_netloc max_depth scrape_content_limit politeness_delay).
Local Abbreviation recursion_ok :=
  (recursion_ok base_url_netloc max_depth scrape_content_limit
     politeness_delay).

Lemma Valid_fetch url tr es :
  Valid tr -> Forall (fetch_event url 3 one_second) es -> Valid (tr ++ es).
Proof.
  intros Hv Hall. induction es as [|e es IH] using rev_ind.
  - rewrite app_nil_r. exact Hv.
  - apply Forall_app in Hall as [Hes He]. rewrite app_assoc.
    constructor; [exact (IH Hes)|].
    eapply fetch_event_guard. inversion He; subst; eassumption.
Qed.

Lemma enters_fetch url n d es :
  Forall (fetch_event url n d) es -> enters es = [].
Proof.
  induction 1 as [|e es He _ IH]; [reflexivity|].
  destruct e; simpl in He; try contradiction; exact IH.
Qed.

Lemma fetch_silent url n d es :
  Forall (fetch_event url n d) es -> Forall (fun e => silent e = true) es.
Proof.
  intros Hall. eapply Forall_impl; [exact Hall|].
  intros e. apply fetch_event_silent.
Qed.

(** The entry of a call and everything up to its link loop. *)
Lemma enter_ok url depth m found m' :
  Wf m ->
  guard (trace m) (EvEnter url depth) ->
  scrape_page web url max_depth depth scrape_content_limit
    (emit (EvEnter url depth) m) = (found, m') ->
  Wf m' /\ settled m' /\ trace m `prefix_of` trace m' /\
  EvEnter url depth ∈ trace m'.
Proof.
  intros Hwf Hguard Hrun.
  pose proof Hguard as (Hnv & Hset & _).
  pose proof (Wf_emit _ _ _ _ _ _ Hwf Hguard) as Hwf0.
  destruct Hwf as [Hgl Hv]. rewrite <- Hgl in Hnv, Hset.
  set (m0 := emit (EvEnter url depth) m) in *.
  assert (Hg0 : globals m0 = globals m) by reflexivity.
  apply scrape_page_trace in Hrun; [|rewrite Hg0; exact Hnv].
  destruct Hrun as (es & tail & Htr & Hall & Htail & Hgm').
  assert (Htr0 : trace m0 = trace m ++ [EvEnter url depth]) by reflexivity.
  destruct Hwf0 as [Hgl0 Hv0].
  set (tr2 := (trace m0 ++ [EvDiscover url]) ++ [EvVisit url]).
  assert (Haft2 : after tr2 = replay (globals m0) [EvDiscover url; EvVisit url]).
  { unfold tr2, after. rewrite <- app_assoc, replay_app. fold (after (trace m0)).
    rewrite <- Hgl0. reflexivity. }
  assert (Hv2 : Valid tr2).
  { unfold tr2. constructor; [constructor; [exact Hv0 | exact I]|]. split.
    - unfold after. rewrite replay_snoc. fold (after (trace m0)).
      rewrite <- Hgl0, Hg0. exact Hnv.
    - exists (trace m), depth. rewrite Htr0, <- app_assoc. reflexivity. }
  assert (Haft3 : after (tr2 ++ es) = after tr2).
  { unfold after. rewrite replay_app. apply replay_silent.
    eapply fetch_silent, Hall. }
  assert (Hv3 : Valid (tr2 ++ es)) by (eapply Valid_fetch; eassumption).
  assert (Htr' : trace m' = (tr2 ++ es) ++ tail).
  { rewrite Htr. unfold tr2. rewrite <- !app_assoc. reflexivity. }
  assert (Hvis : _visited_urls (globals m') = {[url]} ∪ _visited_urls (globals m)).
  { rewrite Hgm', <- Hg0.
    destruct Htail as [->|(text & -> & _)]; reflexivity. }
  split; [split|split; [|split]].
  - rewrite Htr'. unfold after. rewrite replay_app. fold (after (tr2 ++ es)).
    rewrite Haft3, Haft2, Hgm', replay_app. reflexivity.
  - rewrite Htr'. destruct Htail as [->|(text & -> & Hne & Hlen)].
    + rewrite app_nil_r. exact Hv3.
    + constructor; [exact Hv3|]. split; [exact Hne|]. split.
      * rewrite Haft3, Haft2. exact Hlen.
      * exists (trace m0 ++ [EvDiscover url]), es. split.
        -- unfold tr2. rewrite <- !app_assoc. reflexivity.
        -- eapply fetch_silent, Hall.
  - intros u Hu. rewrite Hvis. rewrite Htr, Htr0 in Hu.
    rewrite !enters_app in Hu. rewrite (enters_fetch _ _ _ _ Hall) in Hu.
    assert (Hnil : enters tail = [])
      by (destruct Htail as [->|(text & -> & _)]; reflexivity).
    rewrite Hnil in Hu. simpl in Hu. rewrite !app_nil_r in Hu.
    apply elem_of_app in Hu as [Hu|Hu].
    + apply elem_of_union_r, Hset, Hu.
    + apply list_elem_of_singleton in Hu. subst. apply elem_of_union_l.
      apply elem_of_singleton. reflexivity.
  - rewrite Htr, Htr0, <- app_assoc. apply prefix_app_r. reflexivity.
  - rewrite Htr, Htr0. apply elem_of_app. left. apply elem_of_app. right.
    apply list_elem_of_singleton. reflexivity.
Qed.

Lemma follows_true st link depth :
  follows base_url_netloc st link max_depth depth = true <->
  netloc (urlparse link) = base_url_netloc /\ _is_file_url link = false /\
  (link ∉ _visited_urls st) /\ depth < max_depth.
Proof.
  unfold follows.
  rewrite !andb_true_iff, !negb_true_iff, bool_decide_eq_false.
  rewrite String.eqb_eq, Z.ltb_lt. tauto.
Qed.

Lemma link_loop_cons recurse depth link rest m :
  link_loop recurse base_url_netloc max_depth depth scrape_content_limit
    politeness_delay (link :: rest) m =
  let m1 := emit (EvDiscover link) m in
  if follows base_url_netloc (globals m1) link max_depth depth
  then
    if len (globals m1) >=? scrape_content_limit
    then Some (emit (EvQuotaBreak scrape_content_limit) m1)
    else
      match recurse link (emit (EvPoliteSleep politeness_delay) m1) with
      | Some m2 =>
          link_loop recurse base_url_netloc max_depth depth
            scrape_content_limit politeness_delay rest m2
      | None => None
      end
  else
    link_loop recurse base_url_netloc max_depth depth scrape_content_limit
      politeness_delay rest m1.
Proof. reflexivity. Qed.

Lemma link_loop_ok recurse current_url depth found_links :
  0 <= depth ->
  recursion_ok recurse depth ->
  forall m,
    Wf m -> settled m -> EvEnter current_url depth ∈ trace m ->
    exists m',
      link_loop recurse base_url_netloc max_depth depth scrape_content_limit
        politeness_delay found_links m = Some m' /\
      Wf m' /\ settled m' /\ trace m `prefix_of` trace m'.
Proof.
  intros Hd Hrec.
  induction found_links as [|link rest IH]; intros m Hwf Hset Hin.
  - exists m. simpl. do 3 (split; [reflexivity || assumption|]). reflexivity.
  - rewrite link_loop_cons. cbv zeta.
    set (m1 := emit (EvDiscover link) m).
    assert (Hwf1 : Wf m1) by (apply Wf_emit; [exact Hwf | exact I]).
    assert (Hset1 : settled m1).
    { intros u Hu. unfold m1 in Hu. rewrite emit_trace, enters_app in Hu.
      simpl in Hu. rewrite app_nil_r in Hu. apply Hset, Hu. }
    assert (Hin1 : EvEnter current_url depth ∈ trace m1)
      by (unfold m1; rewrite emit_trace; apply elem_of_app; auto).
    assert (Hpre1 : trace m `prefix_of` trace m1)
      by (unfold m1; rewrite emit_trace; apply prefix_app_r; reflexivity).
    destruct (follows _ _ _ _ _) eqn:Hf.
    + apply follows_true in Hf as (Hnet & Hfile & Hnv & Hlt).
      destruct (len (globals m1) >=? scrape_content_limit) eqn:Hq.
      * eexists. split; [reflexivity|]. split; [|split].
        -- apply Wf_emit; [exact Hwf1|]. split; [reflexivity|].
           rewrite <- (wf_globals _ _ _ _ _ Hwf1). lia.
        -- intros u Hu. rewrite emit_trace, enters_app in Hu. simpl in Hu.
           rewrite app_nil_r in Hu. apply Hset1, Hu.
        -- etransitivity; [exact Hpre1|]. rewrite emit_trace.
           apply prefix_app_r. reflexivity.
      * set (m2 := emit (EvPoliteSleep politeness_delay) m1).
        assert (Hwf2 : Wf m2) by (apply Wf_emit; [exact Hwf1 | reflexivity]).
        assert (Hg2 : globals m2 = globals m1) by reflexivity.
        assert (Htr2 : trace m2 =
                       trace m ++ [EvDiscover link; EvPoliteSleep politeness_delay])
          by (unfold m2, m1; rewrite !emit_trace, <- app_assoc; reflexivity).
        destruct (Hrec link m2 Hwf2) as (m3 & Hr & Hwf3 & Hset3 & Hpre3).
        { hnf. rewrite <- (wf_globals _ _ _ _ _ Hwf2), Hg2.
          split; [exact Hnv|]. split.
          - intros u Hu. rewrite Htr2, enters_app in Hu. simpl in Hu.
            rewrite app_nil_r in Hu. apply Hset, Hu.
          - right. exists (trace m), current_url.
            replace (depth + 1 - 1) with depth by lia.
            repeat split; auto; lia. }
        rewrite Hr.
        destruct (IH m3 Hwf3 Hset3) as (m' & Hl & Hwf' & Hset' & Hpre').
        { destruct Hpre3 as [k ->]. apply elem_of_app. left.
          rewrite Htr2. apply elem_of_app. left.
          exact Hin. }
        exists m'. do 3 (split; [assumption|]).
        etransitivity; [exact Hpre1|].
        etransitivity; [|exact Hpre'].
        etransitivity; [|exact Hpre3].
        unfold m2. rewrite emit_trace. apply prefix_app_r. reflexivity.
    + destruct (IH m1 Hwf1 Hset1 Hin1) as (m' & Hl & Hwf' & Hset' & Hpre').
      exists m'. do 3 (split; [assumption|]).
      etransitivity; [exact Hpre1 | exact Hpre'].
Qed.

(** A call whose entry is allowed returns when it is given more fuel than
    there are levels left, and leaves a well-formed machine. *)
Lemma recursive_scrape_ok fuel :
  forall current_url depth m,
    Wf m ->
    guard (trace m) (EvEnter current_url depth) ->
    (Z.to_nat (max_depth - depth) < fuel)%nat ->
    exists m',
      _recursive_scrape web fuel base_url_netloc current_url max_depth depth
        scrape_content_limit politeness_delay m = Some m' /\
      Wf m' /\ settled m' /\ trace m `prefix_of` trace m'.
Proof.
  induction fuel as [|fuel IH]; intros current_url depth m Hwf Hguard Hfuel;
    [lia|].
  simpl.
  destruct (scrape_page _ _ _ _ _ _) as [found m1] eqn:Hpage.
  destruct (enter_ok _ _ _ _ _ Hwf Hguard Hpage) as (Hwf1 & Hset1 & Hpre1 & Hin1).
  assert (Hd : 0 <= depth).
  { destruct Hguard as (_ & _ & [[-> _]|(? & ? & _ & _ & ? & _)]); lia. }
  destruct found as [[|link rest]|]; try (exists m1; do 3 (split; [reflexivity || assumption|]); assumption).
  edestruct (link_loop_ok
               (fun link m =>
                  _recursive_scrape web fuel base_url_netloc link max_depth
                    (depth + 1) scrape_content_limit politeness_delay m)
               current_url depth (link :: rest) Hd) as (m' & Hl & Hwf' & Hset' & Hpre');
    [| exact Hwf1 | exact Hset1 | exact Hin1 |].
  - intros l m2 Hwf2 Hg2. apply IH; [exact Hwf2 | exact Hg2 |].
    destruct Hg2 as (_ & _ & [[? _]|(? & ? & _ & _ & ? & _)]); lia.
  - exists m'. do 3 (split; [assumption|]). etransitivity; eassumption.
Qed.

End Refinement.

(** ** What follows from the discipline *)

Section Consequences.

Context `{lib : UrlLib}.
Variables (base_url_netloc : string) (max_depth scrape_content_limit : Z)
          (politeness_delay : seconds).

Local Abbreviation guard :=
  (guard base_url_netloc max_depth scrape_content_limit politeness_delay).
Local Abbreviation Valid :=
  (Valid base_url_netloc max_depth scrape_content_limit politeness_delay).
Local Abbreviation strong_invariant := (strong_invariant scrape_content_limit).

Lemma prefix_snoc_cases (p tr : list event) e :
  p `prefix_of` tr ++ [e] -> p = tr ++ [e] \/ p `prefix_of` tr.
Proof.
  intros [k Hk]. destruct k as [|x k _] using rev_ind.
  - left. rewrite app_nil_r in Hk. congruence.
  - right. rewrite app_assoc in Hk. apply app_inj_tail in Hk as [-> _].
    apply prefix_app_r. reflexivity.
Qed.

Lemma after_snoc tr e : after (tr ++ [e]) = apply_event e (after tr).
Proof. apply replay_snoc. Qed.

Lemma Valid_invariant tr :
  0 <= scrape_content_limit ->
  Valid tr ->
  forall p, p `prefix_of` tr -> strong_invariant (after p).
Proof.
  intros Hl Hv. induction Hv as [|tr e Hv IH Hg]; intros p Hp.
  - apply prefix_nil_inv in Hp as ->. repeat split; simpl.
    + intros x Hx. exact Hx.
    + unfold len. simpl. lia.
    + constructor.
    + intros u Hu. inversion Hu.
  - apply prefix_snoc_cases in Hp as [->|Hp]; [|apply IH, Hp].
    pose proof (IH tr ltac:(reflexivity)) as ((Hsub & Hlen & Hnd) & Hvis).
    rewrite after_snoc.
    destruct e; simpl in Hg; try (repeat split; assumption).
    + (* EvDiscover *)
      repeat split; simpl; auto.
    intros x Hx. apply elem_of_union_r, Hsub, Hx.
    + (* EvVisit *)
      destruct Hg as (_ & tr0 & d & ->).
      repeat split; simpl; auto.
      * unfold after in *. rewrite replay_app in *. simpl in *.
      intros x Hx. apply elem_of_union in Hx as [Hx|Hx]; [|apply Hsub, Hx].
      apply elem_of_singleton in Hx. subst x.
      apply elem_of_union_l, elem_of_singleton. reflexivity.
      * intros u Hu. apply elem_of_union_r, Hvis, Hu.
    + (* EvAppend *)
      destruct Hg as (Hne & Hlt & tr0 & es & -> & Hsil).
      assert (Haft : after (tr0 ++ EvVisit url :: es) =
                     apply_event (EvVisit url) (after tr0)).
      { change (tr0 ++ EvVisit url :: es) with (tr0 ++ [EvVisit url] ++ es).
        unfold after. rewrite app_assoc, replay_app, replay_snoc.
        apply replay_silent, Hsil. }
      assert (Hfresh : url ∉ map fst (_all_extracted_content (after tr0))).
      { intros Hin.
        destruct (IH tr0 ltac:(apply prefix_app_r; reflexivity)) as (_ & Hv0).
        apply Valid_guard in Hv as (Hnv & _). apply Hnv, Hv0, Hin. }
      rewrite Haft in *. simpl in *.
      repeat split; simpl; auto.
      * unfold len in *. simpl in *. rewrite length_app. simpl. lia.
      * rewrite map_app. simpl. apply NoDup_app. split; [exact Hnd|].
        split; [|apply NoDup_singleton].
        intros u Hu Hu'. apply list_elem_of_singleton in Hu'. subst.
        apply Hfresh, Hu.
      * intros u Hu. rewrite map_app in Hu. apply elem_of_app in Hu as [Hu|Hu].
        -- apply Hvis, Hu.
        -- simpl in Hu. apply list_elem_of_singleton in Hu. subst.
           apply elem_of_union_l, elem_of_singleton. reflexivity.
Qed.

Lemma Valid_in tr e :
  Valid tr -> e ∈ tr -> exists tr1 tr2, tr = tr1 ++ e :: tr2 /\ guard tr1 e.
Proof.
  intros Hv Hin. apply list_elem_of_split in Hin as (tr1 & tr2 & ->).
  exists tr1, tr2. split; [reflexivity|]. eapply Valid_guard, Hv.
Qed.

(** No URL is the subject of two calls. *)
Lemma Valid_enters_NoDup tr : Valid tr -> NoDup (enters tr).
Proof.
  induction 1 as [|tr e Hv IH Hg]; [constructor|].
  rewrite enters_app. destruct e; simpl; rewrite ?app_nil_r; try exact IH.
  destruct Hg as (Hnv & Hset & _).
  apply NoDup_app. split; [exact IH|]. split; [|apply NoDup_singleton].
  intros u Hu Hu'. apply list_elem_of_singleton in Hu'. subst.
  apply Hnv, Hset, Hu.
Qed.

(** Calls happen at depths between 0 and [max_depth]. *)
Lemma Valid_enter_depth tr url depth :
  0 <= max_depth -> Valid tr -> EvEnter url depth ∈ tr ->
  0 <= depth <= max_depth.
Proof.
  intros Hmd Hv Hin. apply Valid_in in Hin as (tr1 & tr2 & _ & Hg); [|exact Hv].
  destruct Hg as (_ & _ & [[-> _]|(? & ? & _ & _ & ? & _)]); lia.
Qed.

Lemma Valid_fetches tr : Valid tr -> fetches_use 3 10 one_second tr.
Proof.
  intros Hv e Hin. apply Valid_in in Hin as (tr1 & tr2 & _ & Hg); [|exact Hv].
  destruct e; simpl in Hg; try exact I; intuition.
Qed.

End Consequences.

(** ** Whole runs *)

Section Run.

Context `{lib : UrlLib}.
Variable web : Web.

Lemma fresh_guard base_url_netloc max_depth limit delay start_url :
  guard base_url_netloc max_depth limit delay (trace fresh) (EvEnter start_url 0).
Proof.
  split; [|split].
  - apply not_elem_of_empty.
  - intros u Hu. inversion Hu.
  - left. split; reflexivity.
Qed.

Lemma fresh_Wf base_url_netloc max_depth limit delay :
  Wf base_url_netloc max_depth limit delay fresh.
Proof. split; [reflexivity | constructor]. Qed.

(** The traversal started by the orchestrator returns. *)
Lemma crawl_ok start_url max_pages_to_visit max_depth politeness_delay :
  let base_url_netloc := netloc (urlparse start_url) in
  exists m,
    _recursive_scrape web (S (Z.to_nat max_depth)) base_url_netloc start_url
      max_depth 0 max_pages_to_visit politeness_delay fresh = Some m /\
    Wf base_url_netloc max_depth max_pages_to_visit politeness_delay m /\
    settled m.
Proof.
  intros base_url_netloc.
  destruct (recursive_scrape_ok web base_url_netloc max_depth
              max_pages_to_visit politeness_delay (S (Z.to_nat max_depth))
              start_url 0 fresh) as (m & Hrun & Hwf & Hset & _).
  - apply fresh_Wf.
  - apply fresh_guard.
  - rewrite Z.sub_0_r. lia.
  - exists m. auto.
Qed.

Lemma save_urls_final io output_filename urls disk m :
  exists e, (e = EvSaved (length urls) output_filename \/
             e = EvSaveError output_filename) /\
            (save_urls io output_filename urls disk m).2 = emit e m.
Proof. destruct io; simpl; eauto. Qed.

(** The orchestrator returns, and its result is that of the traversal
    followed by the saving of the inventory. *)
Lemma run_ok io start_url output_filename max_pages_to_visit max_depth
    politeness_delay stale disk :
  let base_url_netloc := netloc (urlparse start_url) in
  exists m r,
    _recursive_scrape web (S (Z.to_nat max_depth)) base_url_netloc start_url
      max_depth 0 max_pages_to_visit politeness_delay fresh = Some m /\
    scrape_website_to_file web io start_url output_filename
      max_pages_to_visit max_depth politeness_delay stale disk = Some r /\
    Wf base_url_netloc max_depth max_pages_to_visit politeness_delay m /\
    Wf base_url_netloc max_depth max_pages_to_visit politeness_delay (final r) /\
    returned_content r = _all_extracted_content (globals m) /\
    returned_urls r = sorted (_all_discovered_urls (globals m)) /\
    (disk_after r, final r) =
      save_urls io output_filename (returned_urls r) disk m /\
    trace m `prefix_of` trace (final r).
Proof.
  intros base_url_netloc.
  destruct (crawl_ok start_url max_pages_to_visit max_depth politeness_delay)
    as (m & Hrun & Hwf & _).
  fold base_url_netloc in Hrun, Hwf.
  unfold scrape_website_to_file. fold base_url_netloc. rewrite Hrun.
  destruct (save_urls_final io output_filename
              (sorted (_all_discovered_urls (globals m))) disk m)
    as (e & He & Hfin).
  destruct (save_urls _ _ _ _ _) as [disk' m'] eqn:Hsave. simpl in Hfin.
  exists m. eexists. split; [reflexivity|]. split; [reflexivity|]. simpl.
  subst m'. split; [exact Hwf|]. split.
  { apply Wf_emit; [exact Hwf|]. destruct He as [->| ->]; exact I. }
  split; [destruct He as [->| ->]; reflexivity|].
  split; [reflexivity|]. split; [symmetry; exact Hsave|].
  rewrite emit_trace. apply prefix_app_r. reflexivity.
Qed.

End Run.

(** ** Fuel *)

Section Fuel.

Context `{lib : UrlLib}.
Variable web : Web.
Variables (base_url_netloc : string) (max_depth scrape_content_limit : Z)
          (politeness_delay : seconds).

Lemma link_loop_ext recurse1 recurse2 depth :
  (forall l m m', recurse1 l m = Some m' -> recurse2 l m = Some m') ->
  forall found_links m m',
    link_loop recurse1 base_url_netloc max_depth depth scrape_content_limit
      politeness_delay found_links m = Some m' ->
    link_loop recurse2 base_url_netloc max_depth depth scrape_content_limit
      politeness_delay found_links m = Some m'.
Proof.
  intros Hext. induction found_links as [|link rest IH]; intros m m' Hrun.
  - exact Hrun.
  - rewrite link_loop_cons in *. cbv zeta in *.
    destruct (follows _ _ _ _ _); [|apply IH, Hrun].
    destruct (_ >=? _); [exact Hrun|].
    destruct (recurse1 link _) as [m2|] eqn:Hr; [|discriminate].
    rewrite (Hext _ _ _ Hr). apply IH, Hrun.
Qed.

Lemma recursive_scrape_S fuel current_url depth m :
  _recursive_scrape web (S fuel) base_url_netloc current_url max_depth depth
    scrape_content_limit politeness_delay m =
  let '(found_links, m1) :=
    scrape_page web current_url max_depth depth scrape_content_limit
      (emit (EvEnter current_url depth) m) in
  match found_links with
  | Some (link :: rest) =>
      link_loop
        (fun link m =>
           _recursive_scrape web fuel base_url_netloc link max_depth
             (depth + 1) scrape_content_limit politeness_delay m)
        base_url_netloc max_depth depth scrape_content_limit
        politeness_delay (link :: rest) m1
  | _ => Some m1
  end.
Proof. reflexivity. Qed.

(** More fuel never changes the result of a call. *)
Lemma recursive_scrape_fuel_mono fuel :
  forall fuel' current_url depth m m',
    (fuel <= fuel')%nat ->
    _recursive_scrape web fuel base_url_netloc current_url max_depth depth
      scrape_content_limit politeness_delay m = Some m' ->
    _recursive_scrape web fuel' base_url_netloc current_url max_depth depth
      scrape_content_limit politeness_delay m = Some m'.
Proof.
  induction fuel as [|fuel IH]; intros fuel' current_url depth m m' Hle Hrun;
    [discriminate|].
  destruct fuel' as [|fuel']; [lia|].
  rewrite recursive_scrape_S in *.
  destruct (scrape_page _ _ _ _ _ _) as [found m1].
  destruct found as [[|link rest]|]; try exact Hrun.
  eapply link_loop_ext; [|exact Hrun].
  intros l m2 m3. apply IH. lia.
Qed.

End Fuel.

(** ** The claims about whole runs *)


(** C7. With a non-negative depth limit the traversal returns, whatever the
    pages link to, as soon as the fuel exceeds [max_depth], and more fuel
    gives the same result.  Every call but the first is made from a call one
    level up whose depth is below [max_depth], so depths stay between 0 and
    [max_depth]; the URL of a call is unvisited when the call is made, and
    no URL is the subject of two calls. *)
Theorem traversal_terminates `{lib : UrlLib} (web : Web)
    (start_url : string) (max_pages_to_visit max_depth : Z)
    (politeness_delay : seconds) :
  0 <= max_depth ->
  let base_url_netloc := netloc (urlparse start_url) in
  exists m,
    (forall fuel, (Z.to_nat max_depth < fuel)%nat ->
       _recursive_scrape web fuel base_url_netloc start_url max_depth 0
         max_pages_to_visit politeness_delay fresh = Some m) /\
    (forall tr1 url depth tr2,
       trace m = tr1 ++ EvEnter url depth :: tr2 ->
       (url ∉ _visited_urls (replay cleared tr1)) /\
       (tr1 <> [] ->
        exists parent, EvEnter parent (depth - 1) ∈ tr1 /\ depth - 1 < max_depth)) /\
    (forall url depth, EvEnter url depth ∈ trace m -> 0 <= depth <= max_depth) /\
    NoDup (enters (trace m)).
Proof.
  intros Hdepth base_url_netloc.
  destruct (crawl_ok web start_url max_pages_to_visit max_depth politeness_delay)
    as (m & Hrun & [Hgl Hv] & _).
  fold base_url_netloc in Hrun, Hv.
  exists m. split; [|split; [|split]].
  - intros fuel Hfuel. eapply recursive_scrape_fuel_mono; [|exact Hrun]. lia.
  - intros tr1 url depth tr2 Htr. rewrite Htr in Hv.
    apply Valid_guard in Hv as (Hnv & _ & Hcase). split; [exact Hnv|].
    intros Hne. destruct Hcase as [[_ ->]|(tr0 & parent & -> & Hin & Hlt & _)];
      [congruence|].
    exists parent. split; [|lia]. apply elem_of_app. left. exact Hin.
  - intros url depth Hin. eapply Valid_enter_depth; eassumption.
  - eapply Valid_enters_NoDup, Hv.
Qed.

(** ** A run only ever appends to the trace *)

Lemma extends_refl m : extends m m.
Proof. exists []. rewrite app_nil_r. auto. Qed.

Lemma extends_trans m1 m2 m3 : extends m1 m2 -> extends m2 m3 -> extends m1 m3.
Proof.
  intros (es1 & Ht1 & Hg1) (es2 & Ht2 & Hg2). exists (es1 ++ es2).
  rewrite Ht2, Ht1, Hg2, Hg1, replay_app, app_assoc. auto.
Qed.

Lemma extends_emit e m : extends m (emit e m).
Proof. exists [e]. auto. Qed.

Lemma extends_fetch `{lib : UrlLib} web url n d m r m' :
  _get_page_content web url n d m = (r, m') -> extends m m'.
Proof.
  intros Hf. apply get_page_content_events in Hf as (es & Htr & Hg & Hall).
  exists es. split; [exact Htr|]. rewrite Hg. symmetry.
  apply replay_silent. eapply fetch_silent, Hall.
Qed.

Lemma replay_discovered st es u :
  u ∈ _all_discovered_urls st -> u ∈ _all_discovered_urls (replay st es).
Proof.
  revert st. induction es as [|e es IH]; intros st Hu; [exact Hu|].
  apply IH. destruct e; simpl; auto. apply elem_of_union_r, Hu.
Qed.

Lemma replay_extracted st es :
  exists l, _all_extracted_content (replay st es) = _all_extracted_content st ++ l.
Proof.
  revert st. induction es as [|e es IH]; intros st.
  - exists []. rewrite app_nil_r. reflexivity.
  - destruct (IH (apply_event e st)) as (l & Hl).
    change (replay st (e :: es)) with (replay (apply_event e st) es).
    rewrite Hl. destruct e; simpl; eauto.
    rewrite <- app_assoc. eauto.
Qed.

Section Extends.

Context `{lib : UrlLib}.
Variable web : Web.
Variables (base_url_netloc : string) (max_depth scrape_content_limit : Z)
          (politeness_delay : seconds).

Lemma scrape_page_extends url depth m found m' :
  scrape_page web url max_depth depth scrape_content_limit m = (found, m') ->
  extends m m'.
Proof.
  unfold scrape_page. intros Hrun.
  pose proof (extends_emit (EvDiscover url) m) as H1.
  pose proof (extends_emit (EvVisit url) (emit (EvDiscover url) m)) as H2.
  destruct (should_scrape_content _ _ _ _ _).
  - destruct (_get_page_content _ _ _ _ _) as [r m2] eqn:Hf.
    apply extends_fetch in Hf.
    assert (H3 : extends m m2) by eauto using extends_trans.
    destruct r as [[text links]|]; [|inversion Hrun; subst; exact H3].
    destruct (Str.truthy text); inversion Hrun; subst; [|exact H3].
    eapply extends_trans; [exact H3 | apply extends_emit].
  - destruct (negb _).
    + destruct (_get_page_content _ _ _ _ _) as [r m2] eqn:Hf.
      apply extends_fetch in Hf.
      assert (H3 : extends m m2) by eauto using extends_trans.
      destruct r as [[text links]|]; inversion Hrun; subst; exact H3.
    + inversion Hrun; subst. exact H1.
Qed.

Lemma link_loop_extends recurse depth :
  (forall l m m', recurse l m = Some m' -> extends m m') ->
  forall found_links m m',
    link_loop recurse base_url_netloc max_depth depth scrape_content_limit
      politeness_delay found_links m = Some m' ->
    extends m m'.
Proof.
  intros Hrec. induction found_links as [|link rest IH]; intros m m' Hrun.
  - inversion Hrun; subst. apply extends_refl.
  - rewrite link_loop_cons in Hrun. cbv zeta in Hrun.
    pose proof (extends_emit (EvDiscover link) m) as H1.
    destruct (follows _ _ _ _ _).
    + destruct (_ >=? _).
      * inversion Hrun; subst.
        eapply extends_trans; [exact H1 | apply extends_emit].
      * destruct (recurse link _) as [m2|] eqn:Hr; [|discriminate].
        apply Hrec in Hr. apply IH in Hrun.
        eapply extends_trans; [exact H1|].
        eapply extends_trans; [apply extends_emit|].
        eapply extends_trans; eassumption.
    + apply IH in Hrun. eapply extends_trans; eassumption.
Qed.

Lemma recursive_scrape_extends fuel :
  forall current_url depth m m',
    _recursive_scrape web fuel base_url_netloc current_url max_depth depth
      scrape_content_limit politeness_delay m = Some m' ->
    extends m m'.
Proof.
  induction fuel as [|fuel IH]; intros current_url depth m m' Hrun;
    [discriminate|].
  rewrite recursive_scrape_S in Hrun.
  destruct (scrape_page _ _ _ _ _ _) as [found m1] eqn:Hpage.
  apply scrape_page_extends in Hpage.
  assert (H1 : extends m m1)
    by (eapply extends_trans; [apply extends_emit | exact Hpage]).
  destruct found as [[|link rest]|]; try (inversion Hrun; subst; exact H1).
  eapply extends_trans; [exact H1|].
  eapply link_loop_extends; [|exact Hrun].
  intros l m2 m3. apply IH.
Qed.

End Extends.

(** ** One call on a URL, in full *)

Section Call.

Context `{lib : UrlLib}.
Variable web : Web.
Variables (max_depth scrape_content_limit : Z).

Lemma should_scrape_content_discover st url u depth :
  should_scrape_content (apply_event (EvDiscover u) st) url max_depth depth
    scrape_content_limit =
  should_scrape_content st url max_depth depth scrape_content_limit.
Proof. reflexivity. Qed.

(** On a visited URL a call only records the URL. *)
Lemma scrape_page_visited url depth m :
  url ∈ _visited_urls (globals m) ->
  scrape_page web url max_depth depth scrape_content_limit m =
  (None, emit (EvDiscover url) m).
Proof.
  intros Hv. unfold scrape_page.
  assert (Hs : should_scrape_content (globals (emit (EvDiscover url) m)) url
                 max_depth depth scrape_content_limit = false).
  { unfold should_scrape_content.
    rewrite (bool_decide_eq_true_2 _ Hv). reflexivity. }
  rewrite Hs.
  assert (Hb : bool_decide (url ∈ _visited_urls (globals (emit (EvDiscover url) m)))
               = true) by (apply bool_decide_eq_true_2; exact Hv).
  rewrite Hb. reflexivity.
Qed.

(** On an unvisited URL a call marks it visited, fetches it, keeps the
    text if it was to extract and the text is not empty, and hands on the
    links of the fetch. *)
Lemma scrape_page_unvisited url depth m :
  url ∉ _visited_urls (globals m) ->
  forall r m3,
    _get_page_content web url 3 one_second
      (emit (EvVisit url) (emit (EvDiscover url) m)) = (r, m3) ->
    exists m',
      scrape_page web url max_depth depth scrape_content_limit m =
        (snd <$> r, m') /\
      trace m' =
        trace m3 ++
        kept (should_scrape_content (globals m) url max_depth depth
                scrape_content_limit) url r /\
      globals m' =
        replay (globals m3)
          (kept (should_scrape_content (globals m) url max_depth depth
                   scrape_content_limit) url r).
Proof.
  intros Hnv r m3 Hf. unfold scrape_page.
  rewrite emit_globals, should_scrape_content_discover.
  assert (Hb : bool_decide (url ∈ _visited_urls (apply_event (EvDiscover url)
                                                   (globals m))) = false)
    by (apply bool_decide_eq_false; exact Hnv).
  destruct (should_scrape_content _ _ _ _ _); rewrite ?Hb; simpl negb;
    cbv iota; rewrite Hf.
  - destruct r as [[text links]|]; simpl.
    + destruct (Str.truthy text); eexists; split; try reflexivity;
        rewrite ?app_nil_r; auto.
    + eexists; split; [reflexivity|]. rewrite app_nil_r. auto.
  - destruct r as [[text links]|]; simpl;
      eexists; (split; [reflexivity|]); rewrite app_nil_r; auto.
Qed.

(** The retry loop starts with a request. *)
Lemma get_page_content_first url m r m' :
  _get_page_content web url 3 one_second m = (r, m') ->
  exists es, trace m' = trace m ++ EvRequest url 0 3 10 :: es.
Proof.
  unfold _get_page_content. change (Z.to_nat 3) with 3%nat.
  intros Hrun. cbn [attempts] in Hrun.
  set (m1 := emit (EvRequest url 0 3 10) m) in *.
  assert (Hrest : forall m2,
             trace m2 = trace m1 \/ trace m2 = trace m1 ++ [EvRetrySleep one_second] ->
             attempts web url 3 one_second 2 (0 + 1) m2 = (r, m') ->
             exists es, trace m' = trace m ++ EvRequest url 0 3 10 :: es).
  { intros m2 Htr2 Hrun2.
    apply attempts_events in Hrun2 as (es & Htr & _); [|lia|right; lia].
    destruct Htr2 as [Htr2|Htr2]; rewrite Htr2 in Htr; unfold m1 in Htr;
      rewrite emit_trace, <- ?app_assoc in Htr; simpl in Htr; eauto. }
  destruct (web (clock m) url).
  - inversion Hrun; subst. exists []. reflexivity.
  - eapply Hrest; [|exact Hrun]. right. reflexivity.
  - eapply Hrest; [|exact Hrun]. right. reflexivity.
  - eapply Hrest; [|exact Hrun]. right. reflexivity.
Qed.

End Call.


(** C8, as the code has it.  Every request of a run is one of at most 3
    attempts with a timeout of 10, and every pause between attempts lasts 1:
    the defaults of [_get_page_content] and the literal of line 63, whatever
    the run is called with. *)
Theorem fetch_parameters_are_built_in `{lib : UrlLib} (web : Web)
    (io : io_outcome) (start_url output_filename : string)
    (max_pages_to_visit max_depth : Z) (politeness_delay : seconds)
    (stale : CrawlState) (disk : gmap string string) :
  exists r,
    scrape_website_to_file web io start_url output_filename max_pages_to_visit
      max_depth politeness_delay stale disk = Some r /\
    fetches_use 3 10 one_second (trace (final r)) /\
    EvRequest start_url 0 3 10 ∈ trace (final r).
Proof.
  destruct (run_ok web io start_url output_filename max_pages_to_visit
              max_depth politeness_delay stale disk)
    as (m & r & Hcrawl & Hrun & _ & [_ Hv] & _ & _ & _ & Hpre).
  exists r. split; [exact Hrun|]. split; [eapply Valid_fetches, Hv|].
  destruct Hpre as [k ->]. apply elem_of_app. left.
  rewrite recursive_scrape_S in Hcrawl.
  destruct (scrape_page _ _ _ _ _ _) as [found m1] eqn:Hp.
  set (m0 := emit (EvEnter start_url 0) fresh) in *.
  assert (Hnv : start_url ∉ _visited_urls (globals m0)) by apply not_elem_of_empty.
  destruct (_get_page_content web start_url 3 one_second
              (emit (EvVisit start_url) (emit (EvDiscover start_url) m0)))
    as [res m3] eqn:Hf.
  destruct (scrape_page_unvisited web max_depth max_pages_to_visit start_url 0
              m0 Hnv res m3 Hf) as (m1' & Hp' & Htr & _).
  rewrite Hp in Hp'. inversion Hp'; subst m1'.
  apply get_page_content_first in Hf as (es & Hes).
  assert (Hin1 : EvRequest start_url 0 3 10 ∈ trace m1).
  { rewrite Htr, Hes. apply elem_of_app. left. apply elem_of_app. right.
    constructor. }
  assert (Hext : extends m1 m).
  { destruct found as [[|link rest]|]; try (inversion Hcrawl; subst; apply extends_refl).
    eapply link_loop_extends; [|exact Hcrawl].
    intros l ma mb. apply recursive_scrape_extends. }
  destruct Hext as (k' & -> & _). apply elem_of_app. left. exact Hin1.
Qed.

(** ** Sorting and re-reading the inventory *)

Lemma string_compare_trans_le s1 :
  forall s2 s3,
    String.compare s1 s2 <> Gt -> String.compare s2 s3 <> Gt ->
    String.compare s1 s3 <> Gt.
Proof.
  induction s1 as [|a s1 IH]; intros [|b s2] [|c s3]; simpl; try congruence.
  unfold Ascii.compare.
  destruct (N.compare_spec (N_of_ascii a) (N_of_ascii b)) as [Hab|Hab|Hab];
    destruct (N.compare_spec (N_of_ascii b) (N_of_ascii c)) as [Hbc|Hbc|Hbc];
    destruct (N.compare_spec (N_of_ascii a) (N_of_ascii c)) as [Hac|Hac|Hac];
    try congruence; try lia.
  apply IH.
Qed.

#[export] Instance str_le_trans : Transitive str_le.
Proof.
  intros s1 s2 s3. unfold str_le, String.leb. intros H12 H23.
  pose proof (string_compare_trans_le s1 s2 s3) as Ht.
  destruct (String.compare s1 s2); try discriminate;
    destruct (String.compare s2 s3); try discriminate;
    destruct (String.compare s1 s3); try reflexivity;
    exfalso; apply Ht; congruence.
Qed.

#[export] Instance str_le_total : Total str_le.
Proof. intros s1 s2. apply String.leb_total. Qed.

Lemma sorted_elem_of (s : gset string) u : u ∈ sorted s <-> u ∈ s.
Proof.
  unfold sorted. rewrite merge_sort_Permutation. apply elem_of_elements.
Qed.

Lemma sorted_NoDup (s : gset string) : NoDup (sorted s).
Proof.
  unfold sorted. rewrite merge_sort_Permutation. apply NoDup_elements.
Qed.

Lemma sorted_StronglySorted (s : gset string) : StronglySorted str_le (sorted s).
Proof. apply StronglySorted_merge_sort; apply _. Qed.

Lemma append_line_feed u s :
  (u +:+ String "010" EmptyString) +:+ s = u +:+ String "010" s.
Proof.
  induction u as [|c u IH]; [reflexivity|].
  change (String c ((u +:+ String "010" EmptyString) +:+ s) =
          String c (u +:+ String "010" s)).
  rewrite IH. reflexivity.
Qed.

Lemma read_lines_aux_line u :
  forall cur s,
    one_line u = true ->
    read_lines_aux cur (u +:+ String "010" s) = cur u :: read_lines s.
Proof.
  induction u as [|c u IH]; intros cur s Hu.
  - reflexivity.
  - unfold one_line in Hu. simpl in Hu. rewrite negb_true_iff, orb_false_iff in Hu.
    destruct Hu as [Hc Hu].
    change (String c u +:+ String "010" s) with (String c (u +:+ String "010" s)).
    cbn [read_lines_aux]. rewrite Hc.
    rewrite (IH (fun x => cur (String c x))); [reflexivity|].
    unfold one_line. rewrite Hu. reflexivity.
Qed.

Lemma read_lines_file_text urls :
  Forall (fun u => one_line u = true) urls ->
  read_lines (file_text urls) = urls.
Proof.
  induction 1 as [|u urls Hu _ IH]; [reflexivity|].
  cbn [file_text]. rewrite append_line_feed. unfold read_lines at 1.
  rewrite read_lines_aux_line by exact Hu. rewrite IH. reflexivity.
Qed.



(** ** The retry loop *)

Section Retry.

Context `{lib : UrlLib}.
Variable web : Web.

Lemma clock_emit e m :
  clock (emit e m) = if is_request e then S (clock m) else clock m.
Proof. reflexivity. Qed.

Lemma attempts_countdown url max_retries delay remaining :
  forall attempt m,
    attempt + Z.of_nat (S remaining) = max_retries ->
    (forall k, (k < remaining)%nat ->
               is_failure (web (clock m + k)%nat url) = true) ->
    exists es m',
      attempts web url max_retries delay (S remaining) attempt m =
        (fetch_result url (web (clock m + remaining)%nat url), m') /\
      trace m' = trace m ++ es /\
      retry_sleeps es = replicate remaining delay /\
      requests es = S remaining.
Proof.
  induction remaining as [|k IH]; intros attempt m Hsum Hfail.
  - cbn [attempts]. rewrite Nat.add_0_r.
    assert (Hlast : (attempt <? max_retries - 1) = false)
      by (apply Z.ltb_ge; lia).
    rewrite Hlast.
    destruct (web (clock m) url); simpl;
      eexists _, _; (split; [reflexivity|]);
      rewrite ?emit_trace, <- ?app_assoc; (split; [reflexivity|]);
      split; reflexivity.
  - cbn [attempts].
    assert (Hmore : (attempt <? max_retries - 1) = true)
      by (apply Z.ltb_lt; lia).
    rewrite Hmore.
    pose proof (Hfail 0%nat ltac:(lia)) as Hnow. rewrite Nat.add_0_r in Hnow.
    set (m1 := emit (EvRetrySleep delay)
                 (emit (EvRequest url attempt max_retries 10) m)).
    assert (Hclock : clock m1 = S (clock m)) by reflexivity.
    destruct (IH (attempt + 1) m1) as (es & m' & Hrun & Htr & Hsl & Hreq).
    { lia. }
    { intros j Hj. rewrite Hclock.
      replace (S (clock m) + j)%nat with (clock m + S j)%nat by lia.
      apply Hfail. lia. }
    rewrite Hclock in Hrun.
    replace (S (clock m) + k)%nat with (clock m + S k)%nat in Hrun by lia.
    exists (EvRequest url attempt max_retries 10 :: EvRetrySleep delay :: es), m'.
    split.
    { destruct (web (clock m) url); [discriminate| | |]; exact Hrun. }
    split.
    { rewrite Htr. unfold m1. rewrite !emit_trace, <- !app_assoc. reflexivity. }
    split.
    { change (retry_sleeps (EvRequest url attempt max_retries 10 ::
                              EvRetrySleep delay :: es))
        with (delay :: retry_sleeps es).
      rewrite Hsl. reflexivity. }
    change (requests (EvRequest url attempt max_retries 10 ::
                      EvRetrySleep delay :: es))
      with (S (requests es)).
    rewrite Hreq. reflexivity.
Qed.

End Retry.

(** C5. With [max_retries >= 1], if the first [max_retries - 1] attempts
    fail, the fetch makes [max_retries] requests with exactly
    [max_retries - 1] pauses between them, each of the same [delay], and
    returns what the last attempt gives: the text and links when it succeeds,
    the failure value (no text, no links) when it fails too. *)
Theorem retry_policy `{lib : UrlLib} (web : Web) (url : string)
    (max_retries : Z) (delay : seconds) (m : Machine) :
  1 <= max_retries ->
  (forall k, (Z.of_nat k < max_retries - 1) ->
             is_failure (web (clock m + k)%nat url) = true) ->
  exists es m',
    _get_page_content web url max_retries delay m =
      (fetch_result url (web (clock m + Z.to_nat (max_retries - 1))%nat url), m') /\
    trace m' = trace m ++ es /\
    retry_sleeps es = replicate (Z.to_nat (max_retries - 1)) delay /\
    requests es = Z.to_nat max_retries.
Proof.
  intros Hn Hfail. unfold _get_page_content.
  replace (Z.to_nat max_retries) with (S (Z.to_nat (max_retries - 1))) by lia.
  apply attempts_countdown.
  - lia.
  - intros k Hk. apply Hfail. lia.
Qed.

(** ** The links of a page *)


(** ** The link loop *)

(** C10. When the loop reaches a link that is internal, not a file and
    unvisited, at a depth below [max_depth], while the extracted content has
    reached the limit, it records that link, logs the break and stops: the
    links that follow are not added to the discovered set by this loop, be
    they external or files. *)
Theorem quota_break_leaves_links_undiscovered `{lib : UrlLib}
    (recurse : string -> Machine -> option Machine)
    (base_url_netloc : string) (max_depth current_depth scrape_content_limit : Z)
    (politeness_delay : seconds) (link : string) (rest : list string) (m : Machine) :
  netloc (urlparse link) = base_url_netloc ->
  _is_file_url link = false ->
  link ∉ _visited_urls (globals m) ->
  current_depth < max_depth ->
  scrape_content_limit <= len (globals m) ->
  exists m',
    link_loop recurse base_url_netloc max_depth current_depth
      scrape_content_limit politeness_delay (link :: rest) m = Some m' /\
    trace m' = trace m ++ [EvDiscover link; EvQuotaBreak scrape_content_limit] /\
    _all_discovered_urls (globals m') = {[link]} ∪ _all_discovered_urls (globals m) /\
    forall l, l ∈ rest -> l <> link -> l ∉ _all_discovered_urls (globals m) ->
              l ∉ _all_discovered_urls (globals m').
Proof.
  intros Hnet Hfile Hnv Hlt Hfull.
  rewrite link_loop_cons. cbv zeta.
  assert (Hf : follows base_url_netloc (globals (emit (EvDiscover link) m)) link
                 max_depth current_depth = true).
  { apply follows_true. auto. }
  rewrite Hf.
  assert (Hq : (len (globals (emit (EvDiscover link) m)) >=? scrape_content_limit)
               = true).
  { change (len (globals (emit (EvDiscover link) m))) with (len (globals m)).
    apply Z.geb_le. exact Hfull. }
  rewrite Hq. eexists. split; [reflexivity|].
  split; [rewrite !emit_trace, <- app_assoc; reflexivity|].
  split; [reflexivity|].
  intros l _ Hne Hnd Hin. simpl in Hin.
  apply elem_of_union in Hin as [Hin|Hin]; [|exact (Hnd Hin)].
  apply elem_of_singleton in Hin. exact (Hne Hin).
Qed.

Lemma extends_discovered m m' u :
  extends m m' -> u ∈ _all_discovered_urls (globals m) ->
  u ∈ _all_discovered_urls (globals m').
Proof. intros (es & _ & ->). apply replay_discovered. Qed.

Section Reach.

Context `{lib : UrlLib}.
Variables (base_url_netloc : string) (max_depth scrape_content_limit : Z)
          (politeness_delay : seconds).

(** The loop records every link it reaches; it leaves links unreached only
    by breaking, at a link it would otherwise have followed. *)
Lemma link_loop_reach recurse depth :
  (forall l m m', recurse l m = Some m' -> extends m m') ->
  forall found_links m m',
    link_loop recurse base_url_netloc max_depth depth scrape_content_limit
      politeness_delay found_links m = Some m' ->
    exists reached unreached,
      found_links = reached ++ unreached /\
      (forall l, l ∈ reached -> l ∈ _all_discovered_urls (globals m')) /\
      (unreached <> [] ->
       exists l, last reached = Some l /\
         netloc (urlparse l) = base_url_netloc /\ _is_file_url l = false /\
         (l ∉ _visited_urls (globals m')) /\ depth < max_depth /\
         scrape_content_limit <= len (globals m') /\
         last (trace m') = Some (EvQuotaBreak scrape_content_limit)).
Proof.
  intros Hrec. induction found_links as [|link rest IH]; intros m m' Hrun.
  - exists [], []. split; [reflexivity|]. split; [|congruence].
    intros l Hl. inversion Hl.
  - rewrite link_loop_cons in Hrun. cbv zeta in Hrun.
    set (m1 := emit (EvDiscover link) m) in *.
    assert (Hd1 : link ∈ _all_discovered_urls (globals m1))
      by (apply elem_of_union_l, elem_of_singleton; reflexivity).
    assert (Hcons : forall m2,
               extends m1 m2 ->
               link_loop recurse base_url_netloc max_depth depth
                 scrape_content_limit politeness_delay rest m2 = Some m' ->
               exists reached unreached,
                 link :: rest = reached ++ unreached /\
                 (forall l, l ∈ reached -> l ∈ _all_discovered_urls (globals m')) /\
                 (unreached <> [] ->
                  exists l, last reached = Some l /\
                    netloc (urlparse l) = base_url_netloc /\
                    _is_file_url l = false /\
                    (l ∉ _visited_urls (globals m')) /\ depth < max_depth /\
                    scrape_content_limit <= len (globals m') /\
                    last (trace m') = Some (EvQuotaBreak scrape_content_limit))).
    { intros m2 Hext Hloop.
      pose proof (link_loop_extends base_url_netloc max_depth
                    scrape_content_limit politeness_delay recurse depth Hrec
                    rest m2 m' Hloop) as Hext'.
      destruct (IH m2 m' Hloop) as (reached & unreached & -> & Hall & Hbreak).
      exists (link :: reached), unreached. split; [reflexivity|]. split.
      - intros l Hl. apply elem_of_cons in Hl as [->|Hl]; [|apply Hall, Hl].
        eapply extends_discovered; [exact Hext'|].
        eapply extends_discovered; [exact Hext | exact Hd1].
      - intros Hne. destruct (Hbreak Hne) as (l & Hlast & Hrestl).
        exists l. split; [|exact Hrestl].
        destruct reached; [discriminate | exact Hlast]. }
    destruct (follows _ _ _ _ _) eqn:Hf.
    + destruct (_ >=? _) eqn:Hq.
      * inversion Hrun; subst m'. exists [link], rest.
        split; [reflexivity|]. split.
        -- intros l Hl. apply list_elem_of_singleton in Hl. subst. exact Hd1.
        -- intros _. exists link. split; [reflexivity|].
           apply follows_true in Hf as (Hnet & Hfile & Hnv & Hlt).
           repeat split; auto.
           ++ apply Z.geb_le in Hq. exact Hq.
           ++ rewrite emit_trace. apply last_snoc.
      * destruct (recurse link _) as [m2|] eqn:Hr; [|discriminate].
        apply Hrec in Hr. eapply Hcons; [|exact Hrun].
        eapply extends_trans; [apply extends_emit | exact Hr].
    + eapply Hcons; [apply extends_refl | exact Hrun].
Qed.

End Reach.

(** C3, as the code has it.  In a run, every call but the first is made on a
    link that was just recorded and after the politeness pause, one level
    below a call whose depth is under [max_depth]; the link is on the host of
    the start URL, is not a file, and is unvisited at that moment, and the
    quota is not exhausted.  So a link on another host, or one with a file
    extension, is never the subject of a call.  The loop over the links of a
    page records each link it reaches; it can leave links unrecorded only
    by breaking at a link it would have followed, with the quota exhausted. *)
Theorem links_are_followed_only_when_eligible `{lib : UrlLib} (web : Web)
    (io : io_outcome) (start_url output_filename : string)
    (max_pages_to_visit max_depth : Z) (politeness_delay : seconds)
    (stale : CrawlState) (disk : gmap string string) :
  let base_url_netloc := netloc (urlparse start_url) in
  (exists r,
     scrape_website_to_file web io start_url output_filename max_pages_to_visit
       max_depth politeness_delay stale disk = Some r /\
     forall tr1 url depth tr2,
       trace (final r) = tr1 ++ EvEnter url depth :: tr2 -> tr1 <> [] ->
       (exists tr0 parent,
          tr1 = tr0 ++ [EvDiscover url; EvPoliteSleep politeness_delay] /\
          EvEnter parent (depth - 1) ∈ tr0) /\
       netloc (urlparse url) = base_url_netloc /\
       _is_file_url url = false /\
       (url ∉ _visited_urls (replay cleared tr1)) /\
       depth - 1 < max_depth /\
       len (replay cleared tr1) < max_pages_to_visit) /\
  (forall fuel current_depth found_links m m',
     link_loop
       (fun link m =>
          _recursive_scrape web fuel base_url_netloc link max_depth
            (current_depth + 1) max_pages_to_visit politeness_delay m)
       base_url_netloc max_depth current_depth max_pages_to_visit
       politeness_delay found_links m = Some m' ->
     exists reached unreached,
       found_links = reached ++ unreached /\
       (forall l, l ∈ reached -> l ∈ _all_discovered_urls (globals m')) /\
       (unreached <> [] ->
        exists l, last reached = Some l /\
          netloc (urlparse l) = base_url_netloc /\ _is_file_url l = false /\
          (l ∉ _visited_urls (globals m')) /\ current_depth < max_depth /\
          max_pages_to_visit <= len (globals m') /\
          last (trace m') = Some (EvQuotaBreak max_pages_to_visit))).
Proof.
  intros base_url_netloc. split.
  - destruct (run_ok web io start_url output_filename max_pages_to_visit
                max_depth politeness_delay stale disk)
      as (m & r & _ & Hrun & _ & [_ Hv] & _).
    fold base_url_netloc in Hv.
    exists r. split; [exact Hrun|].
    intros tr1 url depth tr2 Htr Hne. rewrite Htr in Hv.
    apply Valid_guard in Hv as (Hnv & _ & Hcase).
    destruct Hcase as [[_ ->]|(tr0 & parent & -> & Hin & Hlt & Hnet & Hfile & Hlen)];
      [congruence|].
    split; [exists tr0, parent; auto|]. repeat split; auto. lia.
  - intros fuel current_depth found_links m m' Hrun.
    eapply link_loop_reach; [|exact Hrun].
    intros l ma mb. apply recursive_scrape_extends.
Qed.

(** ** The crawler at work *)

(** The run over the small site: two pages yield content, the page without
    text and the unreachable one do not, and the inventory read back from
    the file is the list returned. *)
Example crawl_of_site :
  exists r,
    scrape_website_to_file Site.web WriteOk Site.home "out.txt" 50 3 half_second
      cleared ∅ = Some r /\
    returned_content r =
      [("https://a.test/", "home page"); ("https://a.test/p1", "page one")] /\
    returned_urls r =
      ["https://a.test/"; "https://a.test/f.pdf"; "https://a.test/p1";
       "https://a.test/p2"; "https://a.test/p3"; "https://ext.test/x";
       "https://ext.test/y"] /\
    enters (trace (final r)) =
      ["https://a.test/"; "https://a.test/p1"; "https://a.test/p2";
       "https://a.test/p3"] /\
    (disk_after r !! "out.txt") ≫= (fun text => Some (read_lines text)) =
      Some (returned_urls r).
Proof. eexists. split; [vm_compute; reflexivity|]. repeat split. Qed.

(** With a depth limit of 0 only the start page is entered; its links are
    recorded. *)
Example crawl_with_depth_zero :
  exists r,
    scrape_website_to_file Site.web WriteOk Site.home "out.txt" 50 0 half_second
      cleared ∅ = Some r /\
    returned_content r = [("https://a.test/", "home page")] /\
    enters (trace (final r)) = ["https://a.test/"] /\
    returned_urls r =
      ["https://a.test/"; "https://a.test/f.pdf"; "https://a.test/p1";
       "https://ext.test/x"].
Proof. eexists. split; [vm_compute; reflexivity|]. repeat split. Qed.

(** With a quota of one page the link loop of the start page breaks at its
    first link. *)
Example crawl_with_quota_one :
  exists r,
    scrape_website_to_file Site.web WriteOk Site.home "out.txt" 1 3 half_second
      cleared ∅ = Some r /\
    returned_urls r = ["https://a.test/"; "https://a.test/p1"] /\
    trace (final r) =
      [EvEnter "https://a.test/" 0; EvDiscover "https://a.test/";
       EvVisit "https://a.test/"; EvRequest "https://a.test/" 0 3 10;
       EvAppend "https://a.test/" "home page"; EvDiscover "https://a.test/p1";
       EvQuotaBreak 1; EvSaved 2 "out.txt"].
Proof. eexists. split; [vm_compute; reflexivity|]. repeat split. Qed.

(** A start URL that the classifier takes for a file and that carries a
    fragment is crawled like any other. *)
Example crawl_from_a_pdf_url :
  _is_file_url "https://a.test/report.pdf#page=2" = true /\
  fragment (urlparse "https://a.test/report.pdf#page=2") = "page=2" /\
  exists r,
    scrape_website_to_file Demo.report WriteOk
      "https://a.test/report.pdf#page=2" "out.txt" 50 3 half_second cleared ∅ =
      Some r /\
    returned_content r =
      [("https://a.test/report.pdf#page=2", "annual report")] /\
    returned_urls r =
      ["https://a.test/p1"; "https://a.test/report.pdf#page=2"].
Proof.
  split; [vm_compute; reflexivity|]. split; [vm_compute; reflexivity|].
  eexists. split; [vm_compute; reflexivity|]. repeat split.
Qed.

(** A write that fails after two lines leaves two lines in the file and
    changes nothing in what is returned. *)
Example crawl_with_failing_write :
  exists r,
    scrape_website_to_file Site.web (WriteFails 2) Site.home "out.txt" 50 0
      half_second cleared ∅ = Some r /\
    returned_content r = [("https://a.test/", "home page")] /\
    returned_urls r =
      ["https://a.test/"; "https://a.test/f.pdf"; "https://a.test/p1";
       "https://ext.test/x"] /\
    (disk_after r !! "out.txt") ≫= (fun text => Some (read_lines text)) =
      Some ["https://a.test/"; "https://a.test/f.pdf"] /\
    last (trace (final r)) = Some (EvSaveError "out.txt").
Proof. eexists. split; [vm_compute; reflexivity|]. repeat split. Qed.

(** ** Where the specification and the code part *)

(** Non-membership in a set of URLs, by evaluation. *)
Lemma not_discovered_by_evaluation (u : string) (s : gset string) :
  bool_decide (u ∈ s) = false -> u ∉ s.
Proof. apply bool_decide_eq_false. Qed.

(** Against C3 as written: on the small site with a quota of one page, the
    fetch of the start page returns a link to another host, and that link is
    not in the discovered set at the end of the run.  The order of the links
    does not matter: with two internal links on the start page, the second
    one, whichever it is, stays undiscovered. *)
Lemma returned_link_left_undiscovered :
  (exists r text links m',
      scrape_website_to_file Site.web WriteOk Site.home "out.txt" 1 3 half_second
        cleared ∅ = Some r /\
      _get_page_content Site.web Site.home 3 one_second
        (emit (EvVisit Site.home)
           (emit (EvDiscover Site.home) (emit (EvEnter Site.home 0) fresh))) =
        (Some (text, links), m') /\
      "https://ext.test/x" ∈ links /\
      netloc (urlparse "https://ext.test/x") <> netloc (urlparse Site.home) /\
      "https://ext.test/x" ∉ _all_discovered_urls (globals (final r))) /\
  (exists r,
      scrape_website_to_file
        (Demo.twins "https://a.test/p1" "https://a.test/p2") WriteOk Site.home
        "out.txt" 1 3 half_second cleared ∅ = Some r /\
      "https://a.test/p2" ∉ _all_discovered_urls (globals (final r))) /\
  (exists r,
      scrape_website_to_file
        (Demo.twins "https://a.test/p2" "https://a.test/p1") WriteOk Site.home
        "out.txt" 1 3 half_second cleared ∅ = Some r /\
      "https://a.test/p1" ∉ _all_discovered_urls (globals (final r))).
Proof.
  split; [|split].
  - eexists _, _, _, _. split; [vm_compute; reflexivity|].
    split; [vm_compute; reflexivity|].
    split; [apply list_elem_of_In; simpl; tauto|].
    split; [vm_compute; discriminate|].
    apply not_discovered_by_evaluation. vm_compute. reflexivity.
  - eexists. split; [vm_compute; reflexivity|].
    apply not_discovered_by_evaluation. vm_compute. reflexivity.
  - eexists. split; [vm_compute; reflexivity|].
    apply not_discovered_by_evaluation. vm_compute. reflexivity.
Qed.


(** Against C8 as written: under a configuration asking for 5 attempts, a
    timeout of 30 and a retry delay of 2, the run on the small site sends
    its requests as attempts out of 3 with a timeout of 10, pauses 1 between
    attempts, and gives up on an unreachable page after 3 attempts. *)
Lemma configured_fetch_parameters_are_ignored :
  exists r,
    run_config Site.web WriteOk Demo.config cleared ∅ = Some r /\
    EvRequest "https://a.test/" 0 3 10 ∈ trace (final r) /\
    EvRetrySleep one_second ∈ trace (final r) /\
    EvGiveUp "https://a.test/p3" 3 ∈ trace (final r) /\
    ~ fetches_use (cfg_max_fetch_retries Demo.config)
        (cfg_fetch_timeout Demo.config) (cfg_retry_delay Demo.config)
        (trace (final r)).
Proof.
  eexists. split; [vm_compute; reflexivity|].
  assert (Hreq : EvRequest "https://a.test/" 0 3 10 ∈
                 trace (final
                   (default {| returned_content := []; returned_urls := [];
                               disk_after := ∅; final := fresh |}
                      (run_config Site.web WriteOk Demo.config cleared ∅)))).
  { vm_compute. apply list_elem_of_In. simpl. tauto. }
  split; [apply list_elem_of_In; simpl; tauto|].
  split; [apply list_elem_of_In; simpl; tauto|].
  split; [apply list_elem_of_In; simpl; tauto|].
  intros Huse. apply list_elem_of_In in Hreq.
  specialize (Huse (EvRequest "https://a.test/" 0 3 10)).
  simpl in Huse. destruct Huse as [H5 _]; [|discriminate H5].
  apply list_elem_of_In. simpl. tauto.
Qed.

(** ** The theorems at work on the small site *)


(** The termination of C7 on the small site, with a depth limit of 3. *)
Lemma traversal_terminates_on_site :
  exists m,
    (forall fuel, (Z.to_nat 3 < fuel)%nat ->
       _recursive_scrape Site.web fuel (netloc (urlparse Site.home)) Site.home 3 0
         50 half_second fresh = Some m) /\
    (forall tr1 url depth tr2,
       trace m = tr1 ++ EvEnter url depth :: tr2 ->
       (url ∉ _visited_urls (replay cleared tr1)) /\
       (tr1 <> [] ->
        exists parent, EvEnter parent (depth - 1) ∈ tr1 /\ depth - 1 < 3)) /\
    (forall url depth, EvEnter url depth ∈ trace m -> 0 <= depth <= 3) /\
    NoDup (enters (trace m)).
Proof.
  apply (traversal_terminates Site.web Site.home 50 3 half_second).
  lia.
Defined.

(** The retry policy of C5 on a page that answers at the third attempt. *)
Lemma retry_policy_third_time :
  exists es m',
    _get_page_content Demo.third_time Site.home 3 one_second fresh =
      (Some ("at last", ["https://a.test/p1"]), m') /\
    trace m' = trace fresh ++ es /\
    retry_sleeps es = [one_second; one_second] /\
    requests es = 3%nat.
Proof.
  assert (Hn : 1 <= 3) by lia.
  assert (Hfail : forall k : nat,
             Z.of_nat k < 3 - 1 ->
             is_failure (Demo.third_time (clock fresh + k)%nat Site.home) = true)
    by (intros [|[|k]] Hk; [reflexivity | reflexivity | lia]).
  exact (retry_policy Demo.third_time Site.home 3 one_second fresh Hn Hfail).
Defined.


(** The break of C10 in the run over the small site with a quota of one
    page: the loop of the start page stops at its first link, and the
    external link and the file link that follow stay undiscovered. *)
Lemma quota_break_on_site :
  exists m',
    link_loop
      (fun link m =>
         _recursive_scrape Site.web 3 "a.test" link 3 (0 + 1) 1 half_second m)
      "a.test" 3 0 1 half_second
      ["https://a.test/p1"; "https://ext.test/x"; "https://a.test/f.pdf"]
      Demo.at_loop = Some m' /\
    trace m' = trace Demo.at_loop ++ [EvDiscover "https://a.test/p1"; EvQuotaBreak 1] /\
    _all_discovered_urls (globals m') =
      {["https://a.test/p1"]} ∪ _all_discovered_urls (globals Demo.at_loop) /\
    forall l, l ∈ ["https://ext.test/x"; "https://a.test/f.pdf"] ->
              l <> "https://a.test/p1" ->
              l ∉ _all_discovered_urls (globals Demo.at_loop) ->
              l ∉ _all_discovered_urls (globals m').
Proof.
  apply (quota_break_leaves_links_undiscovered
           (fun link m =>
              _recursive_scrape Site.web 3 "a.test" link 3 (0 + 1) 1 half_second m)
           "a.test" 3 0 1 half_second "https://a.test/p1"
           ["https://ext.test/x"; "https://a.test/f.pdf"] Demo.at_loop).
  - vm_compute. reflexivity.
  - vm_compute. reflexivity.
  - apply not_discovered_by_evaluation. vm_compute. reflexivity.
  - lia.
  - vm_compute. discriminate.
Defined.

(** * Further properties of the crawler *)

(** ** A proof rule for the traversal *)

(** To show that [I] holds when a call returns, it is enough that [J] holds
    when a call is entered, that the part of a call before its link loop
    takes [J] to [I] and returns links that satisfy [L], that recording a
    link and breaking keep [I], and that the pause before a recursive call
    takes [I] to [J]. *)
Section Rule.

Context `{lib : UrlLib}.
Variable web : Web.
Variables (base_url_netloc : string) (max_depth scrape_content_limit : Z)
          (politeness_delay : seconds).
Variable J : string -> Z -> Machine -> Prop.
Variable I : Machine -> Prop.
Variable L : string -> Prop.

Hypothesis rule_call : forall m url depth found m1,
  J url depth m ->
  scrape_page web url max_depth depth scrape_content_limit
    (emit (EvEnter url depth) m) = (found, m1) ->
  I m1 /\ forall links, found = Some links -> Forall L links.
Hypothesis rule_discover : forall m link,
  I m -> L link -> I (emit (EvDiscover link) m).
Hypothesis rule_break : forall m,
  I m -> scrape_content_limit <= len (globals m) ->
  I (emit (EvQuotaBreak scrape_content_limit) m).
Hypothesis rule_sleep : forall m link depth,
  I m -> L link ->
  follows base_url_netloc (globals m) link max_depth depth = true ->
  len (globals m) < scrape_content_limit ->
  J link (depth + 1) (emit (EvPoliteSleep politeness_delay) m).

Lemma link_loop_rule recurse depth :
  (forall l m m', J l (depth + 1) m -> recurse l m = Some m' -> I m') ->
  forall found_links m m',
    Forall L found_links -> I m ->
    link_loop recurse base_url_netloc max_depth depth scrape_content_limit
      politeness_delay found_links m = Some m' ->
    I m'.
Proof.
  intros Hrec. induction found_links as [|link rest IH]; intros m m' HL HI Hrun.
  - inversion Hrun; subst. exact HI.
  - apply Forall_cons in HL as [Hl HL].
    rewrite link_loop_cons in Hrun. cbv zeta in Hrun.
    pose proof (rule_discover m link HI Hl) as HI1.
    destruct (follows _ _ _ _ _) eqn:Hf; [|eapply IH; eassumption].
    destruct (_ >=? _) eqn:Hq.
    + inversion Hrun; subst. apply rule_break; [exact HI1|].
      apply Z.geb_le in Hq. exact Hq.
    + destruct (recurse link _) as [m2|] eqn:Hr; [|discriminate].
      eapply IH; [exact HL| |exact Hrun].
      eapply Hrec; [|exact Hr].
      apply rule_sleep; auto.
      rewrite Z.geb_leb in Hq. apply Z.leb_gt in Hq. exact Hq.
Qed.

Lemma recursive_scrape_rule fuel :
  forall url depth m m',
    J url depth m ->
    _recursive_scrape web fuel base_url_netloc url max_depth depth
      scrape_content_limit politeness_delay m = Some m' ->
    I m'.
Proof.
  induction fuel as [|fuel IH]; intros url depth m m' HJ Hrun; [discriminate|].
  rewrite recursive_scrape_S in Hrun.
  destruct (scrape_page _ _ _ _ _ _) as [found m1] eqn:Hp.
  destruct (rule_call _ _ _ _ _ HJ Hp) as [HI1 HL].
  destruct found as [[|link rest]|]; try (inversion Hrun; subst; exact HI1).
  eapply link_loop_rule; [|apply HL; reflexivity|exact HI1|exact Hrun].
  intros l ma mb. apply IH.
Qed.

End Rule.

(** The end of a run: the trace of the traversal and one event for the
    saving of the inventory. *)
Lemma run_final `{lib : UrlLib} web io start_url output_filename
    max_pages_to_visit max_depth politeness_delay stale disk :
  let base_url_netloc := netloc (urlparse start_url) in
  exists m r e,
    _recursive_scrape web (S (Z.to_nat max_depth)) base_url_netloc start_url
      max_depth 0 max_pages_to_visit politeness_delay fresh = Some m /\
    scrape_website_to_file web io start_url output_filename
      max_pages_to_visit max_depth politeness_delay stale disk = Some r /\
    Wf base_url_netloc max_depth max_pages_to_visit politeness_delay m /\
    trace (final r) = trace m ++ [e] /\
    (e = EvSaved (length (returned_urls r)) output_filename \/
     e = EvSaveError output_filename) /\
    globals (final r) = globals m /\
    returned_content r = _all_extracted_content (globals m) /\
    returned_urls r = sorted (_all_discovered_urls (globals m)) /\
    (disk_after r, final r) =
      save_urls io output_filename (returned_urls r) disk m.
Proof.
  intros base_url_netloc.
  destruct (run_ok web io start_url output_filename max_pages_to_visit
              max_depth politeness_delay stale disk)
    as (m & r & Hcrawl & Hrun & Hwf & _ & Hcontent & Hurls & Hsave & _).
  destruct (save_urls_final io output_filename (returned_urls r) disk m)
    as (e & He & Hfin).
  rewrite <- Hsave in Hfin. simpl in Hfin.
  exists m, r, e. repeat (split; [assumption|]).
  split; [rewrite Hfin; reflexivity|]. split; [exact He|].
  split; [rewrite Hfin; destruct He as [->| ->]; reflexivity|].
  auto.
Qed.

(** ** The fetcher in general *)

Section FetcherFacts.

Context `{lib : UrlLib}.
Variable web : Web.
Variables (url : string) (max_retries : Z) (delay : seconds).

Lemma requests_cons_request u a n t es :
  requests (EvRequest u a n t :: es) = S (requests es).
Proof. reflexivity. Qed.

Lemma attempts_shape remaining :
  forall attempt m,
    remaining = 0%nat \/ attempt + Z.of_nat remaining = max_retries ->
    exists es,
      trace (attempts web url max_retries delay remaining attempt m).2 =
        trace m ++ es /\
      (requests es <= remaining)%nat /\
      (1 <= remaining -> 1 <= requests es)%nat /\
      clock (attempts web url max_retries delay remaining attempt m).2 =
        (clock m + requests es)%nat /\
      retry_sleeps es = replicate (requests es - 1) delay.
Proof.
  induction remaining as [|k IH]; intros attempt m Hsum.
  - exists [EvGiveUp url max_retries]. cbn [attempts snd].
    rewrite emit_trace, clock_emit.
    change (requests [EvGiveUp url max_retries]) with 0%nat. cbn [is_request].
    repeat split; try reflexivity; lia.
  - destruct Hsum as [Hsum|Hsum]; [discriminate|].
    cbn [attempts].
    set (m0 := emit (EvRequest url attempt max_retries 10) m).
    assert (Hfail :
              exists es,
                trace (attempts web url max_retries delay k (attempt + 1)
                         (if attempt <? max_retries - 1
                          then emit (EvRetrySleep delay) m0 else m0)).2 =
                  trace m ++ es /\
                (requests es <= S k)%nat /\
                (1 <= S k -> 1 <= requests es)%nat /\
                clock (attempts web url max_retries delay k (attempt + 1)
                         (if attempt <? max_retries - 1
                          then emit (EvRetrySleep delay) m0 else m0)).2 =
                  (clock m + requests es)%nat /\
                retry_sleeps es = replicate (requests es - 1) delay).
    { destruct (attempt <? max_retries - 1) eqn:Hlt.
      - apply Z.ltb_lt in Hlt.
        destruct (IH (attempt + 1) (emit (EvRetrySleep delay) m0))
          as (es & Htr & Hle & Hge & Hck & Hsl); [right; lia|].
        exists (EvRequest url attempt max_retries 10 :: EvRetrySleep delay :: es).
        rewrite Htr, Hck. unfold m0. rewrite !emit_trace, <- !app_assoc.
        change (requests (EvRequest url attempt max_retries 10 ::
                          EvRetrySleep delay :: es)) with (S (requests es)).
        change (retry_sleeps (EvRequest url attempt max_retries 10 ::
                              EvRetrySleep delay :: es))
          with (delay :: retry_sleeps es).
        assert (1 <= requests es)%nat by (apply Hge; lia).
        split; [reflexivity|]. split; [lia|]. split; [lia|].
        split; [rewrite !clock_emit; simpl; lia|].
        rewrite Hsl. destruct (requests es) as [|n]; [lia|].
        simpl. rewrite Nat.sub_0_r. reflexivity.
      - apply Z.ltb_ge in Hlt. assert (k = 0%nat) by lia. subst k.
        exists [EvRequest url attempt max_retries 10; EvGiveUp url max_retries].
        cbn [attempts snd]. unfold m0. rewrite !emit_trace, <- !app_assoc.
        split; [reflexivity|]. split; [cbn; lia|]. split; [cbn; lia|].
        split; [rewrite !clock_emit; cbn; lia|]. reflexivity. }
    destruct (web (clock m) url); try exact Hfail.
    exists [EvRequest url attempt max_retries 10]. cbn [snd]. fold m0.
    unfold m0. rewrite emit_trace, clock_emit.
    split; [reflexivity|]. split; [cbn; lia|]. split; [cbn; lia|].
    split; [cbn; lia|]. reflexivity.
Qed.

Lemma attempts_first_success k :
  forall remaining attempt m text hrefs,
    (k < remaining)%nat ->
    attempt + Z.of_nat remaining = max_retries ->
    (forall j, (j < k)%nat -> is_failure (web (clock m + j)%nat url) = true) ->
    web (clock m + k)%nat url = Parsed text hrefs ->
    exists es m',
      attempts web url max_retries delay remaining attempt m =
        (Some (text, extract_links url hrefs), m') /\
      trace m' = trace m ++ es /\
      requests es = S k /\
      retry_sleeps es = replicate k delay /\
      clock m' = (clock m + S k)%nat /\
      last es = Some (EvRequest url (attempt + Z.of_nat k) max_retries 10).
Proof.
  induction k as [|k IH]; intros remaining attempt m text hrefs Hk Hsum Hfail Hok.
  - destruct remaining as [|r]; [lia|]. cbn [attempts].
    rewrite Nat.add_0_r in Hok. rewrite Hok.
    exists [EvRequest url attempt max_retries 10],
      (emit (EvRequest url attempt max_retries 10) m).
    split; [reflexivity|]. rewrite emit_trace, clock_emit.
    replace (attempt + Z.of_nat 0) with attempt by lia.
    repeat split. cbn. lia.
  - destruct remaining as [|r]; [lia|]. cbn [attempts].
    pose proof (Hfail 0%nat ltac:(lia)) as Hnow. rewrite Nat.add_0_r in Hnow.
    assert (Hmore : (attempt <? max_retries - 1) = true)
      by (apply Z.ltb_lt; lia).
    rewrite Hmore.
    set (m1 := emit (EvRetrySleep delay)
                 (emit (EvRequest url attempt max_retries 10) m)).
    assert (Hclock : clock m1 = S (clock m)) by reflexivity.
    destruct (IH r (attempt + 1) m1 text hrefs) as (es & m' & Hrun & Htr & Hreq & Hsl & Hck & Hlast).
    { lia. }
    { lia. }
    { intros j Hj. rewrite Hclock.
      replace (S (clock m) + j)%nat with (clock m + S j)%nat by lia.
      apply Hfail. lia. }
    { rewrite Hclock.
      replace (S (clock m) + k)%nat with (clock m + S k)%nat by lia. exact Hok. }
    exists (EvRequest url attempt max_retries 10 :: EvRetrySleep delay :: es), m'.
    split.
    { destruct (web (clock m) url); [discriminate| | |]; exact Hrun. }
    split.
    { rewrite Htr. unfold m1. rewrite !emit_trace, <- !app_assoc. reflexivity. }
    change (requests (EvRequest url attempt max_retries 10 ::
                      EvRetrySleep delay :: es)) with (S (requests es)).
    change (retry_sleeps (EvRequest url attempt max_retries 10 ::
                          EvRetrySleep delay :: es))
      with (delay :: retry_sleeps es).
    rewrite Hreq, Hsl, Hck, Hclock.
    split; [reflexivity|]. split; [reflexivity|]. split; [lia|].
    destruct es as [|e es]; [discriminate|].
    change (last (EvRequest url attempt max_retries 10 ::
                  EvRetrySleep delay :: e :: es)) with (last (e :: es)).
    rewrite Hlast. do 2 f_equal. lia.
Qed.

Lemma attempts_none_iff remaining :
  forall attempt m,
    (attempts web url max_retries delay remaining attempt m).1 = None <->
    forall k, (k < remaining)%nat ->
              is_failure (web (clock m + k)%nat url) = true.
Proof.
  induction remaining as [|r IH]; intros attempt m.
  - cbn. split; [intros _ k Hk; lia | reflexivity].
  - cbn [attempts].
    set (m1 := if attempt <? max_retries - 1
               then emit (EvRetrySleep delay)
                      (emit (EvRequest url attempt max_retries 10) m)
               else emit (EvRequest url attempt max_retries 10) m).
    assert (Hclock : clock m1 = S (clock m))
      by (unfold m1; destruct (attempt <? max_retries - 1); reflexivity).
    assert (Hshift :
              (forall k, (k < r)%nat ->
                         is_failure (web (clock m1 + k)%nat url) = true) ->
              is_failure (web (clock m) url) = true ->
              forall k, (k < S r)%nat ->
                        is_failure (web (clock m + k)%nat url) = true).
    { intros Hrest Hnow [|k] Hk; [rewrite Nat.add_0_r; exact Hnow|].
      replace (clock m + S k)%nat with (clock m1 + k)%nat by lia.
      apply Hrest. lia. }
    assert (Hunshift :
              (forall k, (k < S r)%nat ->
                         is_failure (web (clock m + k)%nat url) = true) ->
              forall k, (k < r)%nat ->
                        is_failure (web (clock m1 + k)%nat url) = true).
    { intros Hall k Hk.
      replace (clock m1 + k)%nat with (clock m + S k)%nat by lia.
      apply Hall. lia. }
    destruct (web (clock m) url) eqn:Hout.
    + cbn. split; [discriminate|]. intros Hall.
      specialize (Hall 0%nat ltac:(lia)). rewrite Nat.add_0_r, Hout in Hall.
      discriminate.
    + rewrite IH. split; [intros H; apply Hshift; auto | apply Hunshift].
    + rewrite IH. split; [intros H; apply Hshift; auto | apply Hunshift].
    + rewrite IH. split; [intros H; apply Hshift; auto | apply Hunshift].
Qed.

End FetcherFacts.


(** X2. A fetch stops at its first successful attempt: when the first [k]
    attempts fail and attempt [k] (counted from 0, below [max_retries])
    succeeds, the fetch returns the text and the links of that attempt
    after [k + 1] requests and [k] pauses of [delay]; the successful request
    is the last event, so no later attempt is made. *)
Theorem fetch_stops_at_first_success `{lib : UrlLib} (web : Web) (url : string)
    (max_retries : Z) (delay : seconds) (m : Machine) (k : nat)
    (text : string) (hrefs : list string) :
  (k < Z.to_nat max_retries)%nat ->
  (forall j, (j < k)%nat -> is_failure (web (clock m + j)%nat url) = true) ->
  web (clock m + k)%nat url = Parsed text hrefs ->
  exists es m',
    _get_page_content web url max_retries delay m =
      (Some (text, extract_links url hrefs), m') /\
    trace m' = trace m ++ es /\
    requests es = S k /\
    retry_sleeps es = replicate k delay /\
    clock m' = (clock m + S k)%nat /\
    last es = Some (EvRequest url (Z.of_nat k) max_retries 10).
Proof.
  intros Hk Hfail Hok. unfold _get_page_content.
  destruct (attempts_first_success web url max_retries delay k
              (Z.to_nat max_retries) 0 m text hrefs Hk ltac:(lia) Hfail Hok)
    as (es & m' & Hrun & H).
  exists es, m'. split; [exact Hrun | exact H].
Qed.

(** X2 on the site whose first request times out: the second attempt gives
    the page, after one pause. *)
Lemma fetch_stops_at_first_success_flaky :
  exists es m',
    _get_page_content Cases.flaky Site.home 3 one_second fresh =
      (Some ("home page",
             extract_links Site.home
               ["https://a.test/p1"; "https://ext.test/x"; "https://a.test/f.pdf"]),
       m') /\
    trace m' = trace fresh ++ es /\
    requests es = 2%nat /\
    retry_sleeps es = replicate 1 one_second /\
    clock m' = (clock fresh + 2)%nat /\
    last es = Some (EvRequest Site.home (Z.of_nat 1) 3 10).
Proof.
  apply (fetch_stops_at_first_success Cases.flaky Site.home 3 one_second fresh 1
           "home page"
           ["https://a.test/p1"; "https://ext.test/x"; "https://a.test/f.pdf"]).
  - vm_compute. lia.
  - intros [|j] Hj; [reflexivity | lia].
  - reflexivity.
Defined.

(** X3. A fetch returns the failure value exactly when every one of its
    [max_retries] attempts fails; in particular it does so at once, without
    a request, when [max_retries] is zero or negative. *)
Theorem fetch_fails_iff_every_attempt_fails `{lib : UrlLib} (web : Web)
    (url : string) (max_retries : Z) (delay : seconds) (m : Machine) :
  ((_get_page_content web url max_retries delay m).1 = None <->
   forall k, (k < Z.to_nat max_retries)%nat ->
             is_failure (web (clock m + k)%nat url) = true) /\
  (max_retries <= 0 ->
   _get_page_content web url max_retries delay m =
     (None, emit (EvGiveUp url max_retries) m)).
Proof.
  split; [apply attempts_none_iff|].
  intros Hn. unfold _get_page_content.
  replace (Z.to_nat max_retries) with 0%nat by lia. reflexivity.
Qed.

(** ** The links of a page and the classifier *)


Lemma string_length_app (a b : string) :
  String.length (a +:+ b) = (String.length a + String.length b)%nat.
Proof.
  induction a as [|c a IH]; [reflexivity|].
  change (String c a +:+ b) with (String c (a +:+ b)).
  cbn [String.length]. rewrite IH. reflexivity.
Qed.

Lemma substring_all (p : string) : substring 0 (String.length p) p = p.
Proof. induction p as [|c p IH]; [reflexivity|]. cbn. rewrite IH. reflexivity. Qed.

Lemma substring_app_skip (t p : string) :
  substring (String.length t) (String.length p) (t +:+ p) = p.
Proof.
  induction t as [|c t IH]; [apply substring_all|].
  change (String c t +:+ p) with (String c (t +:+ p)). cbn. exact IH.
Qed.

Lemma substring_split (n : nat) :
  forall s, (n <= String.length s)%nat ->
    s = substring 0 n s +:+ substring n (String.length s - n) s.
Proof.
  induction n as [|n IH]; intros s Hn.
  - rewrite Nat.sub_0_r, substring_all. destruct s; reflexivity.
  - destruct s as [|c s]; [cbn in Hn; lia|].
    cbn in Hn. cbn [substring String.length Nat.sub].
    change (String c (substring 0 n s) +:+ substring n (String.length s - n) s)
      with (String c (substring 0 n s +:+ substring n (String.length s - n) s)).
    rewrite <- IH by lia. reflexivity.
Qed.

(** [s.endswith(p)] holds exactly when [s] is some text followed by [p]. *)
Lemma endswith_spec (s p : string) :
  Str.endswith s p = true <-> exists t, s = t +:+ p.
Proof.
  unfold Str.endswith. rewrite andb_true_iff, Nat.leb_le, String.eqb_eq. split.
  - intros [Hle Hsub].
    exists (substring 0 (String.length s - String.length p) s).
    pose proof (substring_split (String.length s - String.length p) s
                  ltac:(lia)) as Hsplit.
    replace (String.length s - (String.length s - String.length p))%nat
      with (String.length p) in Hsplit by lia.
    rewrite Hsub in Hsplit. exact Hsplit.
  - intros [t ->]. rewrite string_length_app. split; [lia|].
    replace (String.length t + String.length p - String.length p)%nat
      with (String.length t) by lia.
    apply substring_app_skip.
Qed.

Lemma lower_length (s : string) : String.length (Str.lower s) = String.length s.
Proof. induction s as [|c s IH]; [reflexivity|]. cbn. rewrite IH. reflexivity. Qed.



(** ** Counting in traces *)

Lemma Always_prefix P tr1 tr2 : Always P (tr1 ++ tr2) -> Always P tr1.
Proof.
  revert tr1. induction tr2 as [|e tr2 IH] using rev_ind; intros tr1 Hv.
  - rewrite app_nil_r in Hv. exact Hv.
  - rewrite app_assoc in Hv. inversion Hv as [Hnil | tr e' Hv' Hg Heq].
    + destruct (tr1 ++ tr2); discriminate.
    + apply app_inj_tail in Heq as [-> ->]. apply IH, Hv'.
Qed.

Lemma Always_at P tr1 e tr2 : Always P (tr1 ++ e :: tr2) -> P tr1 e.
Proof.
  intros Hv. change (tr1 ++ e :: tr2) with (tr1 ++ [e] ++ tr2) in Hv.
  rewrite app_assoc in Hv. apply Always_prefix in Hv.
  inversion Hv as [Hnil | tr e' Hv' Hg Heq].
  - destruct tr1; discriminate.
  - apply app_inj_tail in Heq as [-> ->]. exact Hg.
Qed.

Lemma Always_app P tr block :
  Always P tr ->
  (forall b1 e b2, block = b1 ++ e :: b2 -> P (tr ++ b1) e) ->
  Always P (tr ++ block).
Proof.
  intros Htr. induction block as [|e block IH] using rev_ind; intros Hblock.
  - rewrite app_nil_r. exact Htr.
  - rewrite app_assoc. constructor.
    + apply IH. intros b1 e' b2 ->. apply (Hblock b1 e' (b2 ++ [e])).
      rewrite <- app_assoc. reflexivity.
    + apply (Hblock block e []). reflexivity.
Qed.

Lemma visits_app es1 es2 : visits (es1 ++ es2) = visits es1 ++ visits es2.
Proof. apply omap_app. Qed.

Lemma appended_app es1 es2 : appended (es1 ++ es2) = appended es1 ++ appended es2.
Proof. apply omap_app. Qed.

Lemma polite_sleeps_app es1 es2 :
  polite_sleeps (es1 ++ es2) = (polite_sleeps es1 + polite_sleeps es2)%nat.
Proof. unfold polite_sleeps. rewrite List.filter_app, length_app. reflexivity. Qed.

Lemma requests_for_app u es1 es2 :
  requests_for u (es1 ++ es2) = (requests_for u es1 + requests_for u es2)%nat.
Proof. unfold requests_for. rewrite List.filter_app, length_app. reflexivity. Qed.

Lemma requests_app es1 es2 :
  requests (es1 ++ es2) = (requests es1 + requests es2)%nat.
Proof. unfold requests. rewrite List.filter_app, length_app. reflexivity. Qed.

(** What the events of one fetch count for. *)
Lemma fetch_events_count url n d es :
  Forall (fetch_event url n d) es ->
  visits es = [] /\ appended es = [] /\ polite_sleeps es = 0%nat /\
  (requests_for url es <= requests es)%nat /\
  forall u, u <> url -> requests_for u es = 0%nat.
Proof.
  induction 1 as [|e es He _ (IHv & IHa & IHp & IHr & IHo)].
  - repeat split; auto.
  - destruct e; simpl in He; try contradiction.
    + destruct He as (-> & _).
      split; [exact IHv|]. split; [exact IHa|]. split; [exact IHp|]. split.
      * unfold requests_for, requests in *. cbn. rewrite String.eqb_refl.
        cbn. lia.
      * intros u Hu. unfold requests_for in *. cbn.
        destruct (String.eqb_spec url u); [congruence|]. apply IHo, Hu.
    + split; [exact IHv|]. split; [exact IHa|]. split; [exact IHp|].
      split; [exact IHr | exact IHo].
    + split; [exact IHv|]. split; [exact IHa|]. split; [exact IHp|].
      split; [exact IHr | exact IHo].
Qed.

(** The sets of the globals after a trace are the URLs of its events. *)
Lemma visited_after tr u : u ∈ _visited_urls (after tr) <-> EvVisit u ∈ tr.
Proof.
  induction tr as [|e tr IH] using rev_ind.
  - split; intros H; [apply not_elem_of_empty in H; contradiction | inversion H].
  - rewrite after_snoc, elem_of_app, list_elem_of_singleton.
    destruct e; simpl; rewrite ?IH;
      try (split; [intros H; left; exact H | intros [H|H]; [exact H | discriminate]]).
    rewrite elem_of_union, elem_of_singleton, IH.
    split; [intros [->|H]; auto | intros [H|H]; [auto | inversion H; auto]].
Qed.

Lemma discovered_after tr u :
  u ∈ _all_discovered_urls (after tr) <-> EvDiscover u ∈ tr.
Proof.
  induction tr as [|e tr IH] using rev_ind.
  - split; intros H; [apply not_elem_of_empty in H; contradiction | inversion H].
  - rewrite after_snoc, elem_of_app, list_elem_of_singleton.
    destruct e; simpl; rewrite ?IH;
      try (split; [intros H; left; exact H | intros [H|H]; [exact H | discriminate]]).
    rewrite elem_of_union, elem_of_singleton, IH.
    split; [intros [->|H]; auto | intros [H|H]; [auto | inversion H; auto]].
Qed.

Lemma extracted_after tr : _all_extracted_content (after tr) = appended tr.
Proof.
  induction tr as [|e tr IH] using rev_ind; [reflexivity|].
  rewrite after_snoc, appended_app.
  destruct e; simpl; rewrite ?app_nil_r; try exact IH.
  rewrite IH. reflexivity.
Qed.

Lemma visits_elem_of tr u : u ∈ visits tr <-> EvVisit u ∈ tr.
Proof.
  unfold visits. rewrite list_elem_of_omap. split.
  - intros (e & Hin & He). destruct e; try discriminate. inversion He; subst.
    exact Hin.
  - intros Hin. exists (EvVisit u). auto.
Qed.

Lemma enters_elem_of tr u : u ∈ enters tr <-> exists d, EvEnter u d ∈ tr.
Proof.
  unfold enters. rewrite list_elem_of_omap. split.
  - intros (e & Hin & He). destruct e; try discriminate. inversion He; subst.
    eauto.
  - intros (d & Hin). exists (EvEnter u d). auto.
Qed.

Lemma appended_elem_of tr u t : (u, t) ∈ appended tr <-> EvAppend u t ∈ tr.
Proof.
  unfold appended. rewrite list_elem_of_omap. split.
  - intros (e & Hin & He). destruct e; try discriminate. inversion He; subst.
    exact Hin.
  - intros Hin. exists (EvAppend u t). auto.
Qed.

Lemma extends_coherent m m' :
  globals m = after (trace m) -> extends m m' -> globals m' = after (trace m').
Proof.
  intros Hg (es & -> & ->). rewrite Hg. unfold after.
  rewrite replay_app. reflexivity.
Qed.

(** ** The facts of a traversal *)

Section Facts.

Context `{lib : UrlLib}.
Variable web : Web.
Variables (start_url base_url_netloc : string)
          (max_depth scrape_content_limit : Z) (politeness_delay : seconds).

Lemma requests_snoc_plain tr e :
  is_request e = false -> requests (tr ++ [e]) = requests tr.
Proof.
  intros He. rewrite requests_app. unfold requests at 2. cbn. rewrite He.
  cbn. lia.
Qed.

Lemma attempts_links url n d remaining :
  forall attempt m text links m',
    attempts web url n d remaining attempt m = (Some (text, links), m') ->
    exists hrefs, links = extract_links url hrefs.
Proof.
  induction remaining as [|k IH]; intros attempt m text links m' Hrun;
    cbn [attempts] in Hrun; [discriminate|].
  destruct (web (clock m) url); try (eapply IH; exact Hrun).
  inversion Hrun; subst. eauto.
Qed.

Lemma get_page_content_shape url m r m' :
  _get_page_content web url 3 one_second m = (r, m') ->
  exists es,
    trace m' = trace m ++ es /\
    globals m' = globals m /\
    Forall (fetch_event url 3 one_second) es /\
    (requests es <= 3)%nat /\
    forall text links, r = Some (text, links) ->
                       exists hrefs, links = extract_links url hrefs.
Proof.
  intros Hrun. pose proof Hrun as Hev.
  apply get_page_content_events in Hev as (es & Htr & Hg & Hall).
  exists es. split; [exact Htr|]. split; [exact Hg|]. split; [exact Hall|].
  split.
  - unfold _get_page_content in Hrun.
    destruct (attempts_shape web url 3 one_second (Z.to_nat 3) 0 m)
      as (es' & Htr' & Hle & _); [right; reflexivity|].
    rewrite Hrun in Htr'. cbn [snd] in Htr'. rewrite Htr in Htr'.
    apply app_inv_head in Htr'. subst es'. exact Hle.
  - intros text links ->. eapply attempts_links. exact Hrun.
Qed.

Lemma Always_known_fetch url tr es :
  Always request_known tr ->
  EvVisit url ∈ tr -> EvDiscover url ∈ tr ->
  Forall (fetch_event url 3 one_second) es ->
  Always request_known (tr ++ es).
Proof.
  intros Htr Hv Hd Hall. induction es as [|e es IH] using rev_ind.
  - rewrite app_nil_r. exact Htr.
  - apply Forall_app in Hall as [Hes He]. rewrite app_assoc.
    constructor; [exact (IH Hes)|].
    inversion He as [|e' l' He' _]; subst.
    destruct e; simpl in He'; try contradiction; try exact I.
    destruct He' as (-> & _). split.
    + apply visited_after, elem_of_app. left. exact Hv.
    + apply discovered_after, elem_of_app. left. exact Hd.
Qed.

(** The part of a call before its link loop. *)
Lemma call_facts url depth m found m1 :
  crawl_facts start_url 0 m ->
  url ∉ _visited_urls (globals m) ->
  (url = start_url \/ passed_filter url) ->
  scrape_page web url max_depth depth scrape_content_limit
    (emit (EvEnter url depth) m) = (found, m1) ->
  crawl_facts start_url 1 m1 /\
  forall links, found = Some links -> Forall passed_filter links.
Proof.
  intros [Hg Hvis Hknown Hunv Hreq Htot Hsl Hprov] Hnv Hurl Hpage.
  set (m0 := emit (EvEnter url depth) m) in *.
  pose proof (scrape_page_extends web max_depth scrape_content_limit
                url depth m0 found m1 Hpage) as Hext.
  destruct (_get_page_content web url 3 one_second
              (emit (EvVisit url) (emit (EvDiscover url) m0)))
    as [r m3] eqn:Hf.
  destruct (scrape_page_unvisited web max_depth scrape_content_limit url depth
              m0 Hnv r m3 Hf) as (m1' & Hpage' & Htr1 & Hg1).
  rewrite Hpage in Hpage'. inversion Hpage'; subst found m1'. clear Hpage'.
  apply get_page_content_shape in Hf as (es & Htr3 & Hg3 & Hall & Hle & Hlinks).
  set (tail := kept (should_scrape_content (globals m0) url max_depth depth
                       scrape_content_limit) url r) in *.
  assert (Htail : visits tail = [] /\ enters tail = [] /\
                  requests tail = 0%nat /\
                  polite_sleeps tail = 0%nat /\
                  (forall u, requests_for u tail = 0%nat) /\
                  (forall st, _all_discovered_urls (replay st tail) =
                              _all_discovered_urls st) /\
                  forall tr, Always request_known tr ->
                             Always request_known (tr ++ tail)).
  { unfold tail, kept. destruct r as [[text links]|];
      [destruct (_ && _)|]; repeat split; auto;
      intros tr Htr; rewrite ?app_nil_r; auto.
    constructor; [exact Htr | exact I]. }
  destruct Htail as (Htv & Hte & Htq & Htp & Htr & Htd & Htk).
  destruct (fetch_events_count url 3 one_second es Hall)
    as (Hev & _ & Hep & Her & Heo).
  assert (Hfe : enters es = []) by (eapply enters_fetch, Hall).
  assert (Htrace : trace m1 =
                   (trace m ++ [EvEnter url depth; EvDiscover url; EvVisit url]
                      ++ es) ++ tail).
  { rewrite Htr1, Htr3. unfold m0. rewrite !emit_trace, <- !app_assoc.
    reflexivity. }
  assert (Hfresh : url ∉ visits (trace m)).
  { intros Hin. apply Hnv. rewrite Hg. apply visited_after, visits_elem_of, Hin. }
  split; [split|].
  - eapply extends_coherent; [|exact Hext].
    unfold m0. rewrite emit_globals, emit_trace, after_snoc. simpl.
    exact Hg.
  - rewrite Htrace, !visits_app, !enters_app, Htv, Hte, Hev, Hfe, Hvis.
    reflexivity.
  - rewrite Htrace. apply Htk. rewrite app_assoc.
    apply (Always_known_fetch url).
    + change [EvEnter url depth; EvDiscover url; EvVisit url]
        with ([EvEnter url depth] ++ [EvDiscover url] ++ [EvVisit url]).
      rewrite !app_assoc.
      repeat (constructor; [|exact I]). exact Hknown.
    + apply elem_of_app. right. apply list_elem_of_In. simpl. auto.
    + apply elem_of_app. right. apply list_elem_of_In. simpl. auto.
    + exact Hall.
  - intros u Hu. rewrite Htrace, !visits_app, Htv, Hev in Hu.
    rewrite !app_nil_r in Hu. cbn in Hu.
    rewrite Htrace, !requests_for_app, Htr.
    assert (u <> url) by (intros ->; apply Hu, elem_of_app; right; constructor).
    rewrite (Heo u) by assumption.
    rewrite Hunv; [reflexivity|].
    intros Hin. apply Hu, elem_of_app. left. exact Hin.
  - intros u. rewrite Htrace, !requests_for_app, Htr.
    change (requests_for u [EvEnter url depth; EvDiscover url; EvVisit url])
      with 0%nat.
    destruct (decide (u = url)) as [->|Hne].
    + rewrite (Hunv url Hfresh). lia.
    + rewrite (Heo u Hne). pose proof (Hreq u). lia.
  - rewrite Htrace, !requests_app, !enters_app, Htq, Hte, Hfe.
    change (requests [EvEnter url depth; EvDiscover url; EvVisit url])
      with 0%nat.
    rewrite !app_nil_r, length_app. cbn [enters omap entered length].
    cbn. lia.
  - rewrite Htrace, !polite_sleeps_app, !enters_app, Htp, Hte, Hep, Hfe.
    cbn. rewrite !length_app. cbn. lia.
  - intros u Hu. rewrite Hg1, Htd, Hg3 in Hu. unfold m0 in Hu.
    rewrite !emit_globals in Hu. simpl in Hu.
    apply elem_of_union in Hu as [Hu|Hu]; [|apply Hprov, Hu].
    apply elem_of_singleton in Hu. subst u. exact Hurl.
  - intros links Hfound. destruct r as [[text links']|]; [|discriminate].
    inversion Hfound; subst links'.
    destruct (Hlinks text links eq_refl) as (hrefs & ->).
    apply Forall_forall. intros l Hl. unfold extract_links in Hl.
    apply elem_of_remove_dups, list_elem_of_omap in Hl as (href & _ & Hk).
    exists url, href. exact Hk.
Qed.

(** An event that counts for nothing keeps the facts. *)
Lemma plain_facts e pending m :
  crawl_facts start_url pending m ->
  match e with
  | EvQuotaBreak _ | EvSaved _ _ | EvSaveError _ => True
  | _ => False
  end ->
  crawl_facts start_url pending (emit e m).
Proof.
  intros [Hg Hvis Hknown Hunv Hreq Htot Hsl Hprov] He.
  destruct e; try contradiction;
    (split;
     [ rewrite emit_globals, emit_trace, after_snoc; simpl; exact Hg
     | rewrite emit_trace, visits_app, enters_app, !app_nil_r; exact Hvis
     | rewrite emit_trace; constructor; [exact Hknown | exact I]
     | intros u Hu; rewrite emit_trace, visits_app, app_nil_r in Hu;
       rewrite emit_trace, requests_for_app, (Hunv u Hu); reflexivity
     | intros u; rewrite emit_trace, requests_for_app;
       pose proof (Hreq u); cbn; lia
     | rewrite emit_trace, requests_snoc_plain, enters_app, app_nil_r
         by reflexivity; exact Htot
     | rewrite emit_trace, polite_sleeps_app, enters_app, app_nil_r;
       cbn; lia
     | exact Hprov ]).
Qed.

Lemma discover_facts link m :
  crawl_facts start_url 1 m -> passed_filter link ->
  crawl_facts start_url 1 (emit (EvDiscover link) m).
Proof.
  intros [Hg Hvis Hknown Hunv Hreq Htot Hsl Hprov] Hl. split.
  - rewrite emit_globals, emit_trace, after_snoc, <- Hg. reflexivity.
  - rewrite emit_trace, visits_app, enters_app, !app_nil_r. exact Hvis.
  - rewrite emit_trace. constructor; [exact Hknown | exact I].
  - intros u Hu. rewrite emit_trace, visits_app, app_nil_r in Hu.
    rewrite emit_trace, requests_for_app, (Hunv u Hu). reflexivity.
  - intros u. rewrite emit_trace, requests_for_app. pose proof (Hreq u).
    cbn. lia.
  - rewrite emit_trace, requests_snoc_plain, enters_app, app_nil_r
      by reflexivity.
    exact Htot.
  - rewrite emit_trace, polite_sleeps_app, enters_app, app_nil_r. cbn. lia.
  - intros u Hu. rewrite emit_globals in Hu. simpl in Hu.
    apply elem_of_union in Hu as [Hu|Hu]; [|apply Hprov, Hu].
    apply elem_of_singleton in Hu. subst u. right. exact Hl.
Qed.

Lemma sleep_facts m :
  crawl_facts start_url 1 m ->
  crawl_facts start_url 0 (emit (EvPoliteSleep politeness_delay) m).
Proof.
  intros [Hg Hvis Hknown Hunv Hreq Htot Hsl Hprov]. split.
  - rewrite emit_globals, emit_trace, after_snoc, <- Hg. reflexivity.
  - rewrite emit_trace, visits_app, enters_app, !app_nil_r. exact Hvis.
  - rewrite emit_trace. constructor; [exact Hknown | exact I].
  - intros u Hu. rewrite emit_trace, visits_app, app_nil_r in Hu.
    rewrite emit_trace, requests_for_app, (Hunv u Hu). reflexivity.
  - intros u. rewrite emit_trace, requests_for_app. pose proof (Hreq u).
    cbn. lia.
  - rewrite emit_trace, requests_snoc_plain, enters_app, app_nil_r
      by reflexivity.
    exact Htot.
  - rewrite emit_trace, polite_sleeps_app, enters_app, app_nil_r. cbn. lia.
  - exact Hprov.
Qed.

Lemma fresh_facts : crawl_facts start_url 0 fresh.
Proof.
  split; try reflexivity.
  - constructor.
  - intros u. cbn. lia.
  - intros u Hu. apply not_elem_of_empty in Hu. contradiction.
Qed.

(** The facts hold when the traversal returns. *)
Lemma traversal_facts fuel m :
  _recursive_scrape web fuel base_url_netloc start_url max_depth 0
    scrape_content_limit politeness_delay fresh = Some m ->
  crawl_facts start_url 1 m.
Proof.
  apply (recursive_scrape_rule web base_url_netloc max_depth
           scrape_content_limit politeness_delay
           (fun url depth m =>
              crawl_facts start_url 0 m /\
              (url ∉ _visited_urls (globals m)) /\
              (url = start_url \/ passed_filter url))
           (crawl_facts start_url 1) passed_filter).
  - intros m0 url depth found m1 (Hf & Hnv & Hurl) Hp.
    eapply call_facts; eassumption.
  - intros m0 link Hf Hl. apply discover_facts; assumption.
  - intros m0 Hf _. apply plain_facts; [exact Hf | exact I].
  - intros m0 link depth Hf Hl Hfollow _.
    split; [apply sleep_facts, Hf|]. split; [|right; exact Hl].
    apply follows_true in Hfollow as (_ & _ & Hnv & _). exact Hnv.
  - split; [apply fresh_facts|]. split; [apply not_elem_of_empty|].
    left. reflexivity.
Qed.

End Facts.

(** The facts hold of the result of a run. *)
Lemma run_facts `{lib : UrlLib} web io start_url output_filename
    max_pages_to_visit max_depth politeness_delay stale disk :
  exists r,
    scrape_website_to_file web io start_url output_filename
      max_pages_to_visit max_depth politeness_delay stale disk = Some r /\
    crawl_facts start_url 1 (final r) /\
    Valid (netloc (urlparse start_url)) max_depth max_pages_to_visit
      politeness_delay (trace (final r)) /\
    (exists es, trace (final r) = EvEnter start_url 0 :: es) /\
    returned_content r = appended (trace (final r)) /\
    returned_urls r = sorted (_all_discovered_urls (globals (final r))).
Proof.
  destruct (run_ok web io start_url output_filename max_pages_to_visit
              max_depth politeness_delay stale disk)
    as (m & r & Hcrawl & Hrun & Hwf & [Hgf Hvf] & Hcontent & Hurls & Hsave & _).
  pose proof (traversal_facts web start_url _ _ _ _ _ m Hcrawl) as Hfacts.
  destruct (save_urls_final io output_filename (returned_urls r) disk m)
    as (e & He & Hfin).
  rewrite <- Hsave in Hfin. simpl in Hfin.
  assert (Hgl : globals (final r) = globals m)
    by (rewrite Hfin; destruct He as [->| ->]; reflexivity).
  exists r. split; [exact Hrun|]. split.
  { rewrite Hfin. apply plain_facts; [exact Hfacts|].
    destruct He as [->| ->]; exact I. }
  split; [exact Hvf|]. split.
  { rewrite Hfin, emit_trace.
    rewrite recursive_scrape_S in Hcrawl.
    destruct (scrape_page _ _ _ _ _ _) as [found m1] eqn:Hp.
    apply scrape_page_extends in Hp as (k1 & Hk1 & _).
    assert (Hext : extends m1 m).
    { destruct found as [[|link rest]|];
        try (inversion Hcrawl; subst; apply extends_refl).
      eapply link_loop_extends; [|exact Hcrawl].
      intros l ma mb. apply recursive_scrape_extends. }
    destruct Hext as (k2 & Hk2 & _).
    rewrite Hk2, Hk1, emit_trace. simpl. eauto. }
  split.
  { rewrite Hcontent, <- Hgl, Hgf. apply extracted_after. }
  rewrite Hurls, Hgl. reflexivity.
Qed.


(** ** Accounting for a whole run *)

(** X6. In every run the URLs marked visited are exactly the URLs of the
    calls of [_recursive_scrape], in the same order and without repetition:
    no call finds its URL already visited.  No URL is requested more than
    three times, and the run sends at most three requests per call. *)
Theorem requests_stay_within_three_per_page `{lib : UrlLib} (web : Web)
    (io : io_outcome) (start_url output_filename : string)
    (max_pages_to_visit max_depth : Z) (politeness_delay : seconds)
    (stale : CrawlState) (disk : gmap string string) :
  exists r,
    scrape_website_to_file web io start_url output_filename max_pages_to_visit
      max_depth politeness_delay stale disk = Some r /\
    visits (trace (final r)) = enters (trace (final r)) /\
    NoDup (visits (trace (final r))) /\
    (forall u, (requests_for u (trace (final r)) <= 3)%nat) /\
    (requests (trace (final r)) <= 3 * length (visits (trace (final r))))%nat.
Proof.
  destruct (run_facts web io start_url output_filename max_pages_to_visit
              max_depth politeness_delay stale disk)
    as (r & Hrun & Hfacts & Hvalid & _).
  destruct Hfacts as [_ Hvis _ _ Hreq Htot _ _].
  exists r. split; [exact Hrun|]. split; [exact Hvis|]. split.
  - rewrite Hvis. eapply Valid_enters_NoDup, Hvalid.
  - split; [exact Hreq|]. rewrite Hvis. exact Htot.
Qed.

(** X7. A request is only ever sent for a URL that has, by then, been both
    recorded as discovered and marked visited: the marking comes before the
    fetch, so a page whose fetch fails is never fetched again. *)
Theorem requests_come_after_the_marking `{lib : UrlLib} (web : Web)
    (io : io_outcome) (start_url output_filename : string)
    (max_pages_to_visit max_depth : Z) (politeness_delay : seconds)
    (stale : CrawlState) (disk : gmap string string) :
  exists r,
    scrape_website_to_file web io start_url output_filename max_pages_to_visit
      max_depth politeness_delay stale disk = Some r /\
    requests_follow_visits (trace (final r)).
Proof.
  destruct (run_facts web io start_url output_filename max_pages_to_visit
              max_depth politeness_delay stale disk)
    as (r & Hrun & Hfacts & _).
  destruct Hfacts as [_ _ Hknown _ _ _ _ _].
  exists r. split; [exact Hrun|].
  intros tr1 u a n t tr2 Htr. rewrite Htr in Hknown.
  apply Always_at in Hknown as [Hv Hd]. split.
  - apply discovered_after, Hd.
  - apply visited_after, Hv.
Qed.

(** X8. The run pauses for politeness exactly once per call of
    [_recursive_scrape] other than the first, and always for
    [politeness_delay]: there is no pause before the start page, none after
    the last page, and none for a link that is only recorded. *)
Theorem one_polite_pause_per_followed_link `{lib : UrlLib} (web : Web)
    (io : io_outcome) (start_url output_filename : string)
    (max_pages_to_visit max_depth : Z) (politeness_delay : seconds)
    (stale : CrawlState) (disk : gmap string string) :
  exists r,
    scrape_website_to_file web io start_url output_filename max_pages_to_visit
      max_depth politeness_delay stale disk = Some r /\
    (polite_sleeps (trace (final r)) + 1)%nat =
      length (enters (trace (final r))) /\
    forall d, EvPoliteSleep d ∈ trace (final r) -> d = politeness_delay.
Proof.
  destruct (run_facts web io start_url output_filename max_pages_to_visit
              max_depth politeness_delay stale disk)
    as (r & Hrun & Hfacts & Hvalid & _).
  destruct Hfacts as [_ _ _ _ _ _ Hsl _].
  exists r. split; [exact Hrun|]. split; [exact Hsl|].
  intros d Hd.
  destruct (Valid_in _ _ _ _ _ _ Hvalid Hd) as (tr1 & tr2 & _ & Hg).
  exact Hg.
Qed.

Lemma keep_link_some `{lib : UrlLib} page href u :
  keep_link page href = Some u ->
  let parsed := urlparse (urljoin page href) in
  u = geturl (replace_fragment parsed "") /\
  (scheme parsed = "http" \/ scheme parsed = "https") /\
  fragment parsed = "" /\
  Str.startswith (urljoin page href) "mailto:" = false.
Proof.
  intros Hk parsed. unfold keep_link in Hk. fold parsed in Hk.
  destruct (Str.mem (scheme parsed) ["http"; "https"]) eqn:Hs;
    [|discriminate].
  destruct (Str.truthy (fragment parsed)) eqn:Hf; [discriminate|].
  destruct (Str.startswith (urljoin page href) "mailto:") eqn:Hm;
    [discriminate|].
  simpl in Hk. inversion Hk. split; [reflexivity|]. split.
  - unfold Str.mem in Hs. simpl in Hs. rewrite orb_false_r in Hs.
    apply orb_true_iff in Hs as [Hs|Hs]; apply String.eqb_eq in Hs; auto.
  - split; [|reflexivity]. destruct (fragment parsed); [reflexivity|discriminate].
Qed.



(** ** Runs at the edge of their limits *)

Lemma len_nonneg st : 0 <= len st.
Proof. unfold len. lia. Qed.

(** With no depth or no quota to spend, the first call is the only one. *)
Lemma only_first_call `{lib : UrlLib} base_url_netloc max_depth
    scrape_content_limit politeness_delay s es :
  Valid base_url_netloc max_depth scrape_content_limit politeness_delay
    (EvEnter s 0 :: es) ->
  max_depth <= 0 \/ scrape_content_limit <= 0 ->
  enters (EvEnter s 0 :: es) = [s].
Proof.
  intros Hv Hlim. change (s :: enters es = [s]). f_equal.
  destruct (enters es) as [|u us] eqn:He; [reflexivity|].
  assert (Hu : u ∈ enters es) by (rewrite He; left).
  apply enters_elem_of in Hu as (d & Hd).
  apply list_elem_of_split in Hd as (a & b & ->).
  change (EvEnter s 0 :: a ++ EvEnter u d :: b)
    with ((EvEnter s 0 :: a) ++ EvEnter u d :: b) in Hv.
  apply Valid_guard in Hv.
  destruct Hv as (_ & _ & [[_ Hnil]|(tr0 & parent & _ & _ & Hd1 & _ & _ & Hlen)]).
  - discriminate.
  - pose proof (len_nonneg (after (EvEnter s 0 :: a))). lia.
Qed.

(** X10. With a page limit of zero or less the run still fetches the start
    page, but it extracts nothing and follows no link: the content returned
    is empty, the start URL is the only one a call is made on, there is no
    politeness pause and at most three requests are sent. *)
Theorem nothing_is_extracted_without_quota `{lib : UrlLib} (web : Web)
    (io : io_outcome) (start_url output_filename : string)
    (max_pages_to_visit max_depth : Z) (politeness_delay : seconds)
    (stale : CrawlState) (disk : gmap string string) :
  max_pages_to_visit <= 0 ->
  exists r,
    scrape_website_to_file web io start_url output_filename max_pages_to_visit
      max_depth politeness_delay stale disk = Some r /\
    returned_content r = [] /\
    enters (trace (final r)) = [start_url] /\
    visits (trace (final r)) = [start_url] /\
    polite_sleeps (trace (final r)) = 0%nat /\
    (requests (trace (final r)) <= 3)%nat.
Proof.
  intros Hq.
  destruct (run_facts web io start_url output_filename max_pages_to_visit
              max_depth politeness_delay stale disk)
    as (r & Hrun & Hfacts & Hvalid & (es & Htr) & Hcontent & _).
  destruct Hfacts as [_ Hvis _ _ _ Htot Hsl _].
  assert (Hent : enters (trace (final r)) = [start_url]).
  { rewrite Htr. rewrite Htr in Hvalid.
    eapply only_first_call; [exact Hvalid | right; exact Hq]. }
  exists r. split; [exact Hrun|]. split.
  { rewrite Hcontent.
    destruct (appended (trace (final r))) as [|[u t] rest] eqn:Ha;
      [reflexivity|].
    assert (Hin : (u, t) ∈ appended (trace (final r))) by (rewrite Ha; left).
    apply appended_elem_of in Hin.
    destruct (Valid_in _ _ _ _ _ _ Hvalid Hin) as (tr1 & tr2 & _ & _ & Hlen & _).
    pose proof (len_nonneg (after tr1)). lia. }
  split; [exact Hent|]. split; [rewrite Hvis; exact Hent|].
  rewrite Hent in Hsl, Htot. cbn in Hsl, Htot. split; lia.
Qed.

Lemma nothing_is_extracted_without_quota_on_site :
  exists r,
    scrape_website_to_file Site.web WriteOk Site.home "out.txt" 0 3
      half_second cleared ∅ = Some r /\
    returned_content r = [] /\
    enters (trace (final r)) = [Site.home] /\
    visits (trace (final r)) = [Site.home] /\
    polite_sleeps (trace (final r)) = 0%nat /\
    (requests (trace (final r)) <= 3)%nat.
Proof.
  apply (nothing_is_extracted_without_quota Site.web WriteOk Site.home
           "out.txt" 0 3 half_second cleared ∅).
  lia.
Defined.

Lemma link_loop_no_descent `{lib : UrlLib} recurse base_url_netloc max_depth
    depth scrape_content_limit politeness_delay links :
  max_depth <= depth ->
  forall m, exists m',
    link_loop recurse base_url_netloc max_depth depth scrape_content_limit
      politeness_delay links m = Some m' /\
    trace m' = trace m ++ map EvDiscover links /\
    globals m' = replay (globals m) (map EvDiscover links).
Proof.
  intros Hd. induction links as [|l links IH]; intros m.
  - exists m. simpl. rewrite app_nil_r. auto.
  - rewrite link_loop_cons. cbv zeta.
    destruct (follows base_url_netloc (globals (emit (EvDiscover l) m)) l
                max_depth depth) eqn:Hf.
    { apply follows_true in Hf. lia. }
    destruct (IH (emit (EvDiscover l) m)) as (m' & Hloop & Htr & Hg).
    exists m'. split; [exact Hloop|].
    rewrite Htr, Hg, emit_trace, emit_globals, <- app_assoc. auto.
Qed.

Lemma replay_discovers st links :
  _visited_urls (replay st (map EvDiscover links)) = _visited_urls st /\
  _all_extracted_content (replay st (map EvDiscover links)) =
    _all_extracted_content st /\
  forall u, u ∈ _all_discovered_urls (replay st (map EvDiscover links)) <->
            u ∈ links \/ u ∈ _all_discovered_urls st.
Proof.
  revert st. induction links as [|l links IH]; intros st.
  - simpl. split; [reflexivity|]. split; [reflexivity|].
    intros u. split; [auto|]. intros [H|H]; [|exact H].
    apply elem_of_nil in H. contradiction.
  - destruct (IH (apply_event (EvDiscover l) st)) as (Hv & Hc & Hd).
    split; [exact Hv|]. split; [exact Hc|].
    intros u. change (replay st (map EvDiscover (l :: links)))
      with (replay (apply_event (EvDiscover l) st) (map EvDiscover links)).
    rewrite Hd. simpl. rewrite elem_of_union, elem_of_singleton, elem_of_cons.
    tauto.
Qed.

(** X11. With a depth limit of zero or less the run stays on the start
    page: the start URL is the only one a call is made on, the inventory is
    the start URL together with every link found on the start page (the loop
    over them never breaks), and the content returned is the text of the
    start page when it is non-empty, the depth limit is exactly zero and the
    page limit is positive, and nothing otherwise. *)
Theorem depth_limit_zero_stays_on_the_start_page `{lib : UrlLib} (web : Web)
    (io : io_outcome) (start_url output_filename : string)
    (max_pages_to_visit max_depth : Z) (politeness_delay : seconds)
    (stale : CrawlState) (disk : gmap string string) :
  max_depth <= 0 ->
  let opening :=
    emit (EvVisit start_url)
      (emit (EvDiscover start_url) (emit (EvEnter start_url 0) fresh)) in
  let fetched := (_get_page_content web start_url 3 one_second opening).1 in
  exists r,
    scrape_website_to_file web io start_url output_filename max_pages_to_visit
      max_depth politeness_delay stale disk = Some r /\
    enters (trace (final r)) = [start_url] /\
    (forall u, u ∈ returned_urls r <->
               u = start_url \/
               exists text_content found_links,
                 fetched = Some (text_content, found_links) /\
                 u ∈ found_links) /\
    returned_content r =
      match fetched with
      | Some (text_content, _) =>
          if (0 <=? max_depth) && (0 <? max_pages_to_visit) &&
             Str.truthy text_content
          then [(start_url, text_content)] else []
      | None => []
      end.
Proof.
  intros Hd opening fetched. subst fetched opening.
  destruct (run_final web io start_url output_filename max_pages_to_visit
              max_depth politeness_delay stale disk)
    as (m & r & e & Hcrawl & Hrun & [_ Hvalid] & Htr & He & Hgl & Hcontent &
        Hurls & _).
  exists r. split; [exact Hrun|].
  rewrite recursive_scrape_S in Hcrawl.
  set (m0 := emit (EvEnter start_url 0) fresh) in *.
  assert (Hnv : start_url ∉ _visited_urls (globals m0))
    by apply not_elem_of_empty.
  destruct (_get_page_content web start_url 3 one_second
              (emit (EvVisit start_url) (emit (EvDiscover start_url) m0)))
    as [r0 m3] eqn:Hf.
  destruct (scrape_page_unvisited web max_depth max_pages_to_visit start_url
              0 m0 Hnv r0 m3 Hf) as (m1 & Hp & Htr1 & Hg1).
  rewrite Hp in Hcrawl.
  apply get_page_content_events in Hf as (es & Htr3 & Hg3 & Hall).
  set (links := match r0 with Some (_, l) => l | None => [] end).
  assert (Hm : trace m = trace m1 ++ map EvDiscover links /\
               globals m = replay (globals m1) (map EvDiscover links)).
  { unfold links. destruct r0 as [[text [|l ls]]|];
      cbn [fmap option_fmap option_map snd] in Hcrawl.
    - inversion Hcrawl; subst. simpl. rewrite app_nil_r. auto.
    - edestruct link_loop_no_descent as (m2 & Hloop & H); [exact Hd|].
      rewrite Hloop in Hcrawl. inversion Hcrawl; subst. exact H.
    - inversion Hcrawl; subst. simpl. rewrite app_nil_r. auto. }
  destruct Hm as [Htr2 Hg2].
  destruct (replay_discovers (globals m1) links) as (_ & Hkc & Hkd).
  set (extract := should_scrape_content (globals m0) start_url max_depth 0
                    max_pages_to_visit) in *.
  assert (Hextract : extract =
                     (0 <=? max_depth) && (0 <? max_pages_to_visit)).
  { unfold extract, should_scrape_content.
    rewrite bool_decide_eq_false_2 by exact Hnv. reflexivity. }
  split.
  { rewrite Htr, enters_app.
    replace (enters [e]) with (@nil string)
      by (destruct He as [->| ->]; reflexivity).
    rewrite app_nil_r.
    assert (Hshape : exists rest, trace m = EvEnter start_url 0 :: rest).
    { rewrite Htr2, Htr1, Htr3. unfold m0. rewrite !emit_trace. simpl. eauto. }
    destruct Hshape as (rest & Hshape). rewrite Hshape in *.
    eapply only_first_call; [exact Hvalid | left; exact Hd]. }
  split.
  { intros u. rewrite Hurls, sorted_elem_of, Hg2, Hkd, Hg1.
    assert (Hk : _all_discovered_urls
                   (replay (globals m3) (kept extract start_url r0)) =
                 _all_discovered_urls (globals m3)).
    { unfold kept. destruct r0 as [[text l]|]; [|reflexivity].
      destruct (extract && Str.truthy text); reflexivity. }
    rewrite Hk, Hg3. unfold m0. rewrite !emit_globals. simpl.
    rewrite elem_of_union, elem_of_singleton. unfold links.
    split.
    - intros [Hl|[->|Hempty]]; [|left; reflexivity|].
      + right. destruct r0 as [[text l]|]; [eauto|].
        apply elem_of_nil in Hl. contradiction.
      + apply not_elem_of_empty in Hempty. contradiction.
    - intros [->|(text & l & -> & Hl)]; [right; left; reflexivity|].
      left. exact Hl. }
  rewrite Hcontent, Hg2, Hkc, Hg1.
  unfold kept. destruct r0 as [[text l]|]; cbn [fst].
  - rewrite Hextract.
    destruct ((0 <=? max_depth) && (0 <? max_pages_to_visit) &&
              Str.truthy text).
    + simpl. rewrite Hg3. reflexivity.
    + simpl. rewrite Hg3. reflexivity.
  - simpl. rewrite Hg3. reflexivity.
Qed.

Lemma depth_limit_zero_on_site :
  let opening :=
    emit (EvVisit Site.home)
      (emit (EvDiscover Site.home) (emit (EvEnter Site.home 0) fresh)) in
  let fetched := (_get_page_content Site.web Site.home 3 one_second opening).1 in
  exists r,
    scrape_website_to_file Site.web WriteOk Site.home "out.txt" 50 0
      half_second cleared ∅ = Some r /\
    enters (trace (final r)) = [Site.home] /\
    (forall u, u ∈ returned_urls r <->
               u = Site.home \/
               exists text_content found_links,
                 fetched = Some (text_content, found_links) /\
                 u ∈ found_links) /\
    returned_content r =
      match fetched with
      | Some (text_content, _) =>
          if (0 <=? 0) && (0 <? 50) && Str.truthy text_content
          then [(Site.home, text_content)] else []
      | None => []
      end.
Proof.
  apply (depth_limit_zero_stays_on_the_start_page Site.web WriteOk Site.home
           "out.txt" 50 0 half_second cleared ∅).
  lia.
Defined.


(** ** The content returned *)

(** The URLs of the extracted pages follow the order of the visits: when an
    event is emitted, they are a sublist of the visited URLs, and of those
    before the last one while its fetch is still running. *)
Lemma appended_sublist_visits `{lib : UrlLib} base_url_netloc max_depth
    scrape_content_limit politeness_delay tr :
  Valid base_url_netloc max_depth scrape_content_limit politeness_delay tr ->
  map fst (appended tr) `sublist_of` visits tr /\
  forall tr0 u es,
    tr = tr0 ++ EvVisit u :: es -> Forall (fun e => silent e = true) es ->
    map fst (appended tr) `sublist_of` visits tr0.
Proof.
  induction 1 as [|tr e Hv [IH1 IH2] Hg].
  - split; [reflexivity|]. intros tr0 u es H. destruct tr0; discriminate.
  - assert (Hsplit : forall tr0 u es,
               tr ++ [e] = tr0 ++ EvVisit u :: es ->
               (es = [] /\ tr0 = tr /\ e = EvVisit u) \/
               exists es', es = es' ++ [e] /\ tr = tr0 ++ EvVisit u :: es').
    { intros tr0 u es Heq. destruct es as [|x es' _] using rev_ind.
      - apply app_inj_tail in Heq as [-> ->]. left. auto.
      - right. rewrite app_comm_cons, app_assoc in Heq.
        apply app_inj_tail in Heq as [-> ->]. eauto. }
    split.
    + rewrite appended_app, visits_app.
      destruct e; try (rewrite !app_nil_r; exact IH1).
      * cbn. rewrite app_nil_r. apply sublist_inserts_r, IH1.
      * destruct Hg as (_ & _ & tr0 & es & -> & Hes).
        cbn. rewrite map_app, app_nil_r, visits_app. cbn.
        apply sublist_app; [eapply IH2; eauto|].
        apply sublist_skip, sublist_nil_l.
    + intros tr0 u es Heq Hsil.
      destruct (Hsplit tr0 u es Heq) as [(-> & -> & ->)|(es' & -> & ->)].
      * rewrite appended_app. cbn. rewrite app_nil_r. exact IH1.
      * apply Forall_app in Hsil as [Hes' He].
        inversion He as [|e' l' He' _]; subst.
        rewrite appended_app.
        destruct e; try discriminate; cbn; rewrite app_nil_r;
          eapply IH2; eauto.
Qed.

(** X12. Every page in the content returned has a non-empty text, a URL
    that is in the inventory and was marked visited, and is the start page
    or a page on the host of the start URL whose URL is not a file URL.  The
    pages come in the order in which they were visited. *)
Theorem extracted_pages_are_visited_internal_pages `{lib : UrlLib} (web : Web)
    (io : io_outcome) (start_url output_filename : string)
    (max_pages_to_visit max_depth : Z) (politeness_delay : seconds)
    (stale : CrawlState) (disk : gmap string string) :
  exists r,
    scrape_website_to_file web io start_url output_filename max_pages_to_visit
      max_depth politeness_delay stale disk = Some r /\
    (forall u text_content,
        (u, text_content) ∈ returned_content r ->
        text_content <> EmptyString /\
        u ∈ returned_urls r /\
        u ∈ visits (trace (final r)) /\
        (u = start_url \/
         (netloc (urlparse u) = netloc (urlparse start_url) /\
          _is_file_url u = false))) /\
    map fst (returned_content r) `sublist_of` visits (trace (final r)).
Proof.
  destruct (run_facts web io start_url output_filename max_pages_to_visit
              max_depth politeness_delay stale disk)
    as (r & Hrun & Hfacts & Hvalid & (es & Htr) & Hcontent & Hurls).
  destruct Hfacts as [Hg _ _ _ _ _ _ _].
  exists r. split; [exact Hrun|]. split.
  - intros u text Hin. rewrite Hcontent in Hin. apply appended_elem_of in Hin.
    destruct (Valid_in _ _ _ _ _ _ Hvalid Hin)
      as (tr1 & tr2 & Heq & Htext & _ & tr0 & es0 & -> & _).
    assert (Hvisit : EvVisit u ∈ trace (final r)).
    { rewrite Heq. apply elem_of_app. left. apply elem_of_app. right. left. }
    destruct (Valid_in _ _ _ _ _ _ Hvalid Hvisit)
      as (tr1' & tr2' & Heq' & _ & tr0' & depth & ->).
    assert (Hdisc : EvDiscover u ∈ trace (final r)).
    { rewrite Heq'. apply elem_of_app. left. apply elem_of_app. right.
      right. left. }
    assert (Henter : EvEnter u depth ∈ trace (final r)).
    { rewrite Heq'. apply elem_of_app. left. apply elem_of_app. right. left. }
    split; [exact Htext|]. split.
    { rewrite Hurls, sorted_elem_of, Hg. apply discovered_after, Hdisc. }
    split; [apply visits_elem_of, Hvisit|].
    destruct (Valid_in _ _ _ _ _ _ Hvalid Henter)
      as (tr1'' & tr2'' & Heq'' & _ & _ & Hcase).
    destruct Hcase as [[-> ->]|(_ & _ & _ & _ & _ & Hnet & Hfile & _)].
    + left. rewrite Htr in Heq''. simpl in Heq''. congruence.
    + right. auto.
  - rewrite Hcontent.
    exact (proj1 (appended_sublist_visits _ _ _ _ _ Hvalid)).
Qed.

(** ** A start page that cannot be fetched *)

Lemma fetch_all_fail `{lib : UrlLib} web url m :
  (forall n, is_failure (web n url) = true) ->
  _get_page_content web url 3 one_second m =
  (None,
   emit (EvGiveUp url 3)
     (emit (EvRequest url 2 3 10)
        (emit (EvRetrySleep one_second)
           (emit (EvRequest url 1 3 10)
              (emit (EvRetrySleep one_second)
                 (emit (EvRequest url 0 3 10) m)))))).
Proof.
  intros Hfail. unfold _get_page_content.
  change (Z.to_nat 3) with 3%nat. cbn [attempts].
  repeat match goal with
         | |- context [web ?n url] =>
             let H := fresh in
             pose proof (Hfail n) as H;
             destruct (web n url); [discriminate H| | |]; clear H
         end; reflexivity.
Qed.

Lemma sorted_singleton u : sorted {[u]} = [u].
Proof. unfold sorted. rewrite elements_singleton. reflexivity. Qed.

(** X13. When every request for the start URL fails, the run sends three
    requests with one-second pauses between them and gives up: no content
    is returned, the inventory is the start URL alone, and when the write
    goes through the output file holds that one line. *)
Theorem unreachable_start_page_gives_a_one_line_inventory `{lib : UrlLib}
    (web : Web) (io : io_outcome) (start_url output_filename : string)
    (max_pages_to_visit max_depth : Z) (politeness_delay : seconds)
    (stale : CrawlState) (disk : gmap string string) :
  (forall n, is_failure (web n start_url) = true) ->
  exists r,
    scrape_website_to_file web io start_url output_filename max_pages_to_visit
      max_depth politeness_delay stale disk = Some r /\
    returned_content r = [] /\
    returned_urls r = [start_url] /\
    requests (trace (final r)) = 3%nat /\
    retry_sleeps (trace (final r)) = [one_second; one_second] /\
    polite_sleeps (trace (final r)) = 0%nat /\
    (io = WriteOk ->
     disk_after r !! output_filename = Some (file_text [start_url])).
Proof.
  intros Hfail.
  destruct (run_final web io start_url output_filename max_pages_to_visit
              max_depth politeness_delay stale disk)
    as (m & r & e & Hcrawl & Hrun & _ & Htr & He & Hgl & Hcontent &
        Hurls & Hsave).
  exists r. split; [exact Hrun|].
  rewrite recursive_scrape_S in Hcrawl.
  set (m0 := emit (EvEnter start_url 0) fresh) in *.
  assert (Hnv : start_url ∉ _visited_urls (globals m0))
    by apply not_elem_of_empty.
  pose proof (fetch_all_fail web start_url
                (emit (EvVisit start_url) (emit (EvDiscover start_url) m0))
                Hfail) as Hf.
  destruct (scrape_page_unvisited web max_depth max_pages_to_visit start_url
              0 m0 Hnv _ _ Hf) as (m1 & Hp & Htr1 & Hg1).
  rewrite Hp in Hcrawl. cbn [fmap option_fmap option_map] in Hcrawl.
  inversion Hcrawl; subst m1. clear Hcrawl.
  unfold kept in Htr1, Hg1. rewrite app_nil_r in Htr1.
  unfold m0 in Htr1, Hg1. rewrite !emit_trace in Htr1.
  rewrite !emit_globals in Hg1. simpl in Htr1, Hg1.
  assert (Hset : _all_discovered_urls (globals m) = {[start_url]}).
  { rewrite Hg1. simpl. apply (right_id_L ∅ (∪)). }
  split; [rewrite Hcontent, Hg1; reflexivity|].
  split; [rewrite Hurls, Hset; apply sorted_singleton|].
  assert (Hlast : requests [e] = 0%nat /\ retry_sleeps [e] = [] /\
                  polite_sleeps [e] = 0%nat)
    by (destruct He as [->| ->]; auto).
  destruct Hlast as (Hr & Hs & Hp').
  split; [rewrite Htr, requests_app, Hr, Htr1; reflexivity|].
  split.
  { rewrite Htr. unfold retry_sleeps in *. rewrite omap_app, Hs, Htr1.
    reflexivity. }
  split; [rewrite Htr, polite_sleeps_app, Hp', Htr1; reflexivity|].
  intros ->. simpl in Hsave. inversion Hsave as [[Hdisk Hfin]].
  rewrite Hurls, Hset, sorted_singleton in Hdisk. rewrite Hdisk.
  apply lookup_insert_eq.
Qed.

Lemma unreachable_start_page_on_site :
  exists r,
    scrape_website_to_file Site.web WriteOk "https://a.test/gone" "out.txt"
      50 3 half_second cleared ∅ = Some r /\
    returned_content r = [] /\
    returned_urls r = ["https://a.test/gone"] /\
    requests (trace (final r)) = 3%nat /\
    retry_sleeps (trace (final r)) = [one_second; one_second] /\
    polite_sleeps (trace (final r)) = 0%nat /\
    (WriteOk = WriteOk ->
     disk_after r !! "out.txt" = Some (file_text ["https://a.test/gone"])).
Proof.
  apply (unreachable_start_page_gives_a_one_line_inventory Site.web WriteOk
           "https://a.test/gone" "out.txt" 50 3 half_second cleared ∅).
  intros n. vm_compute. reflexivity.
Defined.


(** * The scripts that work on the crawler's output *)

(** ** Stripping and substituting characters *)

Lemma contains_lstrip p c s :
  Str.contains c s = false -> Str.contains c (Str.lstrip p s) = false.
Proof.
  induction s as [|a s IH]; simpl; [auto|]. intros H.
  apply orb_false_iff in H as [Ha Hs].
  destruct (p a); [auto|]. simpl. rewrite Ha, Hs. reflexivity.
Qed.

Lemma rstrip_cases p s :
  Text.rstrip p s = EmptyString \/
  exists r a, Text.rstrip p s = r +:+ String a EmptyString /\ p a = false.
Proof.
  induction s as [|a s IH]; simpl; [auto|].
  destruct IH as [->|(r & b & -> & Hb)].
  - destruct (p a) eqn:Ha; [auto|]. right. exists EmptyString, a. auto.
  - right. destruct (r +:+ String b EmptyString) eqn:Hr.
    + destruct r; discriminate.
    + rewrite <- Hr. exists (String a r), b. auto.
Qed.

Lemma contains_rstrip p c s :
  Str.contains c s = false -> Str.contains c (Text.rstrip p s) = false.
Proof.
  induction s as [|a s IH]; simpl; [auto|]. intros H.
  apply orb_false_iff in H as [Ha Hs]. specialize (IH Hs).
  destruct (Text.rstrip p s) eqn:Hr.
  - destruct (p a); simpl; [reflexivity|]. rewrite Ha. reflexivity.
  - simpl. simpl in IH. rewrite Ha, IH. reflexivity.
Qed.

Lemma lstrip_head p s a r : Str.lstrip p s = String a r -> p a = false.
Proof.
  induction s as [|b s IH]; simpl; [discriminate|].
  destruct (p b) eqn:Hb; [exact IH|]. intros H. inversion H; subst. exact Hb.
Qed.

Lemma rstrip_head p a s :
  p a = false -> exists r, Text.rstrip p (String a s) = String a r.
Proof.
  intros Ha. simpl. destruct (Text.rstrip p s); [|eauto].
  rewrite Ha. eauto.
Qed.

(** What [strip] leaves is empty, or begins and ends with a character that
    is not stripped. *)
Lemma strip_ends p s :
  Text.strip p s = EmptyString \/
  (exists a r, Text.strip p s = String a r /\ p a = false) /\
  (exists r a, Text.strip p s = r +:+ String a EmptyString /\ p a = false).
Proof.
  unfold Text.strip. destruct (Str.lstrip p s) as [|a r] eqn:Hl; [left; reflexivity|].
  right. split.
  - pose proof (lstrip_head p s a r Hl) as Ha.
    destruct (rstrip_head p a r Ha) as (r' & ->). eauto.
  - destruct (rstrip_cases p (String a r)) as [He|H]; [|exact H].
    pose proof (lstrip_head p s a r Hl) as Ha.
    destruct (rstrip_head p a r Ha) as (r' & Hr). congruence.
Qed.

Lemma contains_sub_chars class repl c s :
  class c = true -> class repl = false ->
  Str.contains c (Text.sub_chars class repl s) = false.
Proof.
  intros Hc Hr. induction s as [|a s IH]; simpl; [reflexivity|].
  rewrite IH, orb_false_r. apply Ascii.eqb_neq.
  destruct (class a) eqn:Ha; congruence.
Qed.

Lemma startswith_char a r b :
  Str.startswith (String a r) (String b EmptyString) = Ascii.eqb b a.
Proof. simpl. destruct r; apply andb_true_r. Qed.

Lemma endswith_char r a b :
  Str.endswith (r +:+ String a EmptyString) (String b EmptyString) =
  Ascii.eqb a b.
Proof.
  destruct (Ascii.eqb_spec a b) as [->|Hne].
  - apply endswith_spec. eauto.
  - destruct (Str.endswith _ _) eqn:He; [|reflexivity].
    apply endswith_spec in He as (t & Ht). exfalso. apply Hne.
    assert (Hrev : forall x y c d,
               x +:+ String c EmptyString = y +:+ String d EmptyString ->
               c = d).
    { induction x as [|x0 x IH]; intros [|y0 y] c d H.
      - inversion H. reflexivity.
      - inversion H. destruct y; discriminate.
      - inversion H. destruct x; discriminate.
      - inversion H. eapply IH. eassumption. }
    eapply Hrev. exact Ht.
Qed.

(** The name [sanitize_filename] returns: what the last three steps make
    of whatever the steps before them built. *)
Lemma sanitize_filename_shape `{lib : UrlLib}
    (unquote md5_hexdigest : string -> string) (isalnum : string -> bool)
    (url : string) :
  let filename := sanitize_filename unquote md5_hexdigest isalnum url in
  filename <> EmptyString /\
  (forall c, c ∈ invalid_chars -> Str.contains c filename = false) /\
  Str.startswith filename " " = false /\
  Str.startswith filename "." = false /\
  Str.endswith filename " " = false /\
  Str.endswith filename "." = false.
Proof.
  intros filename. subst filename. unfold sanitize_filename. cbv zeta.
  set (raw := match Text.rsplit_once "." _ with
              | Some (before, after) => _
              | None => _
              end).
  set (clean := Text.sub_chars (Text.among invalid_chars) "_" raw).
  set (p := Text.among [" "; "."]%char).
  assert (Hclean : forall c, c ∈ invalid_chars ->
                             Str.contains c clean = false).
  { intros c Hc. apply contains_sub_chars; [|reflexivity].
    apply list_elem_of_In in Hc. simpl in Hc.
    repeat (destruct Hc as [<-|Hc]; [reflexivity|]). contradiction. }
  destruct (strip_ends p clean) as [He|[(a & r & Ha & Hpa) (r' & b & Hb & Hpb)]].
  - rewrite He. simpl. split; [discriminate|].
    split; [|repeat split; reflexivity].
    intros c Hc. apply list_elem_of_In in Hc. simpl in Hc.
    repeat (destruct Hc as [<-|Hc]; [reflexivity|]). contradiction.
  - assert (Hne : Str.truthy (Text.strip p clean) = true)
      by (rewrite Ha; reflexivity).
    rewrite Hne. simpl. split; [rewrite Ha; discriminate|]. split.
    { intros c Hc. unfold Text.strip.
      apply contains_rstrip, contains_lstrip, Hclean, Hc. }
    assert (Hsp : forall x, p x = false ->
                            Ascii.eqb " " x = false /\ Ascii.eqb "." x = false).
    { intros x Hx. unfold p, Text.among in Hx. simpl in Hx.
      rewrite orb_false_r in Hx. apply orb_false_iff in Hx as [H1 H2].
      rewrite Ascii.eqb_sym in H1. rewrite Ascii.eqb_sym in H2. auto. }
    destruct (Hsp a Hpa) as [Ha1 Ha2]. destruct (Hsp b Hpb) as [Hb1 Hb2].
    split; [rewrite Ha, startswith_char; exact Ha1|].
    split; [rewrite Ha, startswith_char; exact Ha2|].
    rewrite Hb, !endswith_char.
    rewrite Ascii.eqb_sym in Hb1. rewrite Ascii.eqb_sym in Hb2. auto.
Qed.



(** ** Splitting off an extension *)

Lemma contains_app_char c a b :
  Str.contains c (a +:+ String c b) = true.
Proof.
  induction a as [|x a IH].
  - change (Str.contains c (String c b) = true). simpl.
    rewrite Ascii.eqb_refl. reflexivity.
  - change (Str.contains c (String x (a +:+ String c b)) = true). simpl.
    rewrite IH. apply orb_true_r.
Qed.

Lemma contains_app c a b :
  Str.contains c (a +:+ b) = Str.contains c a || Str.contains c b.
Proof.
  induction a as [|x a IH]; [reflexivity|].
  change (Str.contains c (String x (a +:+ b)) =
          Str.contains c (String x a) || Str.contains c b).
  simpl. rewrite IH. apply orb_assoc.
Qed.

(** The last occurrence of a character splits a string in one way only. *)
Lemma last_split_unique c :
  forall a a' b b',
    a +:+ String c b = a' +:+ String c b' ->
    Str.contains c b = false -> Str.contains c b' = false ->
    a = a' /\ b = b'.
Proof.
  induction a as [|x a IH]; intros [|x' a'] b b' Heq Hb Hb'.
  - inversion Heq. auto.
  - inversion Heq as [[Hx Hrest]]. subst.
    rewrite contains_app_char in Hb. discriminate.
  - inversion Heq as [[Hx Hrest]]. subst.
    rewrite contains_app_char in Hb'. discriminate.
  - inversion Heq as [[Hx Hrest]]. subst.
    destruct (IH a' b b' Hrest Hb Hb') as [-> ->]. auto.
Qed.

Lemma rfind_from_spec c s :
  forall i found,
    (Str.contains c s = false /\ Text.rfind_from c s i found = found) \/
    (exists a b, s = a +:+ String c b /\ Str.contains c b = false /\
                 Text.rfind_from c s i found = i + Z.of_nat (String.length a)).
Proof.
  induction s as [|x s IH]; intros i found; [left; auto|].
  cbn [Text.rfind_from Str.contains].
  destruct (IH (i + 1) (if Ascii.eqb x c then i else found))
    as [[Hc Hr]|(a & b & -> & Hb & Hr)].
  - destruct (Ascii.eqb_spec x c) as [->|Hne].
    + right. exists EmptyString, s. split; [reflexivity|].
      split; [exact Hc|]. rewrite Hr. simpl. lia.
    + left. rewrite Hc, Hr. auto.
  - right. exists (String x a), b. split; [reflexivity|].
    split; [exact Hb|]. rewrite Hr. cbn [String.length]. lia.
Qed.

Lemma rfind_spec c s :
  (Str.contains c s = false /\ Text.rfind c s = -1) \/
  (exists a b, s = a +:+ String c b /\ Str.contains c b = false /\
               Text.rfind c s = Z.of_nat (String.length a)).
Proof.
  destruct (rfind_from_spec c s 0 (-1)) as [H|(a & b & H1 & H2 & H3)];
    [left; exact H|].
  right. exists a, b. unfold Text.rfind. rewrite H3. auto.
Qed.

Lemma substring_prefix (a b : string) :
  substring 0 (String.length a) (a +:+ b) = a.
Proof.
  induction a as [|x a IH]; [destruct b; reflexivity|].
  change (String x a +:+ b) with (String x (a +:+ b)).
  cbn [String.length substring]. rewrite IH. reflexivity.
Qed.

Lemma substring_suffix (a b : string) :
  substring (String.length a)
    (String.length (a +:+ b) - String.length a) (a +:+ b) = b.
Proof.
  rewrite string_length_app.
  replace (String.length a + String.length b - String.length a)%nat
    with (String.length b) by lia.
  apply substring_app_skip.
Qed.

(** What [splitext] returns for a name whose last dot is known. *)
Lemma splitext_at_last_dot stem e :
  Str.contains "/" (stem +:+ String "." e) = false ->
  Str.contains "." e = false ->
  splitext (stem +:+ String "." e) =
    if Str.forallb (Ascii.eqb ".") stem
    then (stem +:+ String "." e, EmptyString)
    else (stem, String "." e).
Proof.
  intros Hsep He. unfold splitext.
  destruct (rfind_spec "/" (stem +:+ String "." e))
    as [[_ ->]|(a & b & Heq & _ & _)].
  2:{ rewrite Heq, contains_app_char in Hsep. discriminate. }
  destruct (rfind_spec "." (stem +:+ String "." e))
    as [[Hno _]|(a & b & Heq & Hb & ->)].
  { rewrite contains_app_char in Hno. discriminate. }
  destruct (last_split_unique "." _ _ _ _ Heq He Hb) as [<- <-].
  cbv zeta.
  replace (Z.of_nat (String.length stem) >? -1) with true
    by (symmetry; apply Z.gtb_lt; lia).
  unfold Text.slice.
  replace (Z.to_nat (-1 + 1)) with 0%nat by reflexivity.
  replace (Z.to_nat (Z.of_nat (String.length stem) - (-1 + 1)))
    with (String.length stem) by lia.
  replace (Z.to_nat 0) with 0%nat by reflexivity.
  replace (Z.to_nat (Z.of_nat (String.length stem) - 0))
    with (String.length stem) by lia.
  rewrite Nat2Z.id.
  replace (Z.to_nat (Z.of_nat (String.length (stem +:+ String "." e)) -
                     Z.of_nat (String.length stem)))
    with (String.length (stem +:+ String "." e) - String.length stem)%nat
    by lia.
  rewrite substring_prefix, substring_suffix.
  destruct (Str.forallb (Ascii.eqb ".") stem); reflexivity.
Qed.

(** The two parts make up the path, and the extension is empty or a dot
    followed by characters among which there is neither a dot nor a
    slash. *)
Lemma splitext_parts p :
  (splitext p).1 +:+ (splitext p).2 = p /\
  ((splitext p).2 = EmptyString \/
   exists e, (splitext p).2 = String "." e /\
             Str.contains "." e = false /\ Str.contains "/" e = false).
Proof.
  unfold splitext.
  destruct (rfind_spec "." p) as [[_ ->]|(a & b & Heq & Hb & Hdot)].
  { replace (-1 >? Text.rfind "/" p) with false.
    - simpl. split; [|left; reflexivity].
      induction p as [|x p IH]; [reflexivity|].
      change (String x (p +:+ EmptyString) = String x p). f_equal. exact IH.
    - symmetry. rewrite Z.gtb_ltb. apply Z.ltb_ge.
      destruct (rfind_spec "/" p) as [[_ ->]|(a & b & _ & _ & ->)]; lia. }
  rewrite Hdot. cbv zeta.
  destruct ((Z.of_nat (String.length a) >? Text.rfind "/" p) &&
            negb (Str.forallb (Ascii.eqb ".")
                    (Text.slice (Text.rfind "/" p + 1)
                       (Z.of_nat (String.length a)) p))) eqn:Hc.
  2:{ simpl. split; [|left; reflexivity].
      clear. induction p as [|x p IH]; [reflexivity|].
      change (String x (p +:+ EmptyString) = String x p). f_equal. exact IH. }
  apply andb_true_iff in Hc as [Hgt _]. apply Z.gtb_lt in Hgt.
  unfold Text.slice. cbn [fst snd].
  replace (Z.to_nat 0) with 0%nat by reflexivity.
  replace (Z.to_nat (Z.of_nat (String.length a) - 0))
    with (String.length a) by lia.
  rewrite Nat2Z.id.
  replace (Z.to_nat (Z.of_nat (String.length p) -
                     Z.of_nat (String.length a)))
    with (String.length p - String.length a)%nat by lia.
  assert (H1 : substring 0 (String.length a) p = a)
    by (rewrite Heq; apply substring_prefix).
  assert (H2 : substring (String.length a)
                 (String.length p - String.length a) p = String "." b)
    by (rewrite Heq; apply substring_suffix).
  rewrite H1, H2. clear H1 H2.
  split; [symmetry; exact Heq|]. right. exists b.
  split; [reflexivity|]. split; [exact Hb|].
  destruct (Str.contains "/" b) eqn:Hs; [|reflexivity]. exfalso.
  destruct (rfind_spec "/" p) as [[Hno _]|(a' & b' & Heq' & Hb' & Hsep)].
  { rewrite Heq, contains_app in Hno. cbn [Str.contains] in Hno.
    rewrite Hs, !orb_true_r in Hno. discriminate. }
  rewrite Hsep in Hgt.
  (* the last slash comes before the last dot, yet [b] holds a slash *)
  assert (Hlen : (String.length a' < String.length a)%nat) by lia.
  clear Hgt Hsep Hdot.
  subst p. revert a' Heq' Hlen.
  induction a as [|x a IH]; intros a' Heq' Hlen; [simpl in Hlen; lia|].
  destruct a' as [|x' a'].
  - inversion Heq' as [[Hx Hrest]].
    rewrite <- Hrest, contains_app in Hb'. cbn [Str.contains] in Hb'.
    rewrite Hs, !orb_true_r in Hb'. discriminate.
  - inversion Heq' as [[Hx Hrest]]. apply (IH a' Hrest).
    simpl in Hlen. lia.
Qed.


(** ** The extension of a download *)

Lemma lower_char_keeps x c :
  Str.is_upper c = false -> Str.is_alpha c = false ->
  Ascii.eqb (Str.lower_char x) c = Ascii.eqb x c.
Proof.
  intros Hu Ha. unfold Str.lower_char.
  destruct (Str.is_upper x) eqn:Hx; [|reflexivity].
  destruct (Ascii.eqb_spec x c) as [->|Hne]; [congruence|].
  apply Ascii.eqb_neq. intros Heq.
  assert (Hal : Str.is_alpha (ascii_of_nat (nat_of_ascii x + 32)) = true).
  { unfold Str.is_upper in Hx. apply andb_true_iff in Hx as [H1 H2].
    apply Nat.leb_le in H1. apply Nat.leb_le in H2.
    unfold Str.is_alpha. rewrite nat_ascii_embedding by lia.
    apply orb_true_iff. right. apply andb_true_iff.
    split; apply Nat.leb_le; lia. }
  rewrite Heq in Hal. congruence.
Qed.

Lemma contains_lower c s :
  Str.is_upper c = false -> Str.is_alpha c = false ->
  Str.contains c (Str.lower s) = Str.contains c s.
Proof.
  intros Hu Ha. induction s as [|x s IH]; [reflexivity|].
  simpl. rewrite IH, lower_char_keeps by assumption. reflexivity.
Qed.



(** ** The text files of the saved pages *)

Lemma string_app_assoc (a b c : string) : (a +:+ b) +:+ c = a +:+ (b +:+ c).
Proof.
  induction a as [|x a IH]; [reflexivity|].
  change (String x ((a +:+ b) +:+ c) = String x (a +:+ (b +:+ c))).
  f_equal. exact IH.
Qed.

Lemma last_char_inj x y c d :
  x +:+ String c EmptyString = y +:+ String d EmptyString -> c = d.
Proof.
  revert y. induction x as [|x0 x IH]; intros [|y0 y] H.
  - inversion H. reflexivity.
  - inversion H. destruct y; discriminate.
  - inversion H. destruct x; discriminate.
  - inversion H. eapply IH. eassumption.
Qed.

Lemma string_app_inv_tail (a b c : string) : a +:+ c = b +:+ c -> a = b.
Proof.
  revert b. induction a as [|x a IH]; intros [|y b] H.
  - reflexivity.
  - apply (f_equal String.length) in H.
    rewrite !string_length_app in H. simpl in H. lia.
  - apply (f_equal String.length) in H.
    rewrite !string_length_app in H. simpl in H. lia.
  - inversion H as [[Hx Hrest]]. f_equal. apply IH, Hrest.
Qed.

(** A name that ends in [.txt] is not the name of a saved page. *)
Lemma txt_is_not_html r :
  Str.endswith (r +:+ ".txt") ".txt" = true /\
  is_html_name (r +:+ ".txt") = false.
Proof.
  split; [apply endswith_spec; eauto|].
  unfold is_html_name. apply orb_false_iff. split.
  - destruct (Str.endswith _ ".html") eqn:He; [|reflexivity].
    apply endswith_spec in He as (t & Ht).
    change ".txt" with (".tx" +:+ "t") in Ht.
    change ".html" with (".htm" +:+ "l") in Ht.
    rewrite <- !string_app_assoc in Ht. apply last_char_inj in Ht.
    discriminate.
  - destruct (Str.endswith _ ".htm") eqn:He; [|reflexivity].
    apply endswith_spec in He as (t & Ht).
    change ".txt" with (".tx" +:+ "t") in Ht.
    change ".htm" with (".ht" +:+ "m") in Ht.
    rewrite <- !string_app_assoc in Ht. apply last_char_inj in Ht.
    discriminate.
Qed.

Section SaveTextFacts.

Variable get_text : string -> option string.
Variable fs_read : string -> read_outcome.
Variable fs_write : string -> write_outcome.

Local Abbreviation step := (extract_one get_text fs_read fs_write).

(** One iteration touches the text file of its page at most. *)
Lemma extract_one_changes out filename k :
  step out filename !! k <> out !! k ->
  is_html_name filename = true /\ k = (splitext filename).1 +:+ ".txt".
Proof.
  unfold extract_one.
  destruct (is_html_name filename); [|congruence].
  destruct (fs_read filename) as [html|]; [|congruence].
  destruct (get_text html) as [text|]; [|congruence].
  cbv zeta. intros Hk. split; [reflexivity|].
  destruct (decide (k = (splitext filename).1 +:+ ".txt")) as [->|Hne];
    [reflexivity|].
  exfalso. apply Hk. unfold write_text.
  destruct (fs_write filename); try reflexivity;
    apply lookup_insert_ne; congruence.
Qed.

Lemma extract_all_changes filenames :
  forall out k,
    fold_left step filenames out !! k <> out !! k ->
    exists filename,
      filename ∈ filenames /\ is_html_name filename = true /\
      k = (splitext filename).1 +:+ ".txt".
Proof.
  induction filenames as [|f fs IH]; intros out k Hk; [simpl in Hk; congruence|].
  simpl in Hk.
  destruct (decide (fold_left step fs (step out f) !! k =
                    step out f !! k)) as [Heq|Hne].
  - rewrite Heq in Hk. apply extract_one_changes in Hk as [H1 H2].
    exists f. split; [left|auto].
  - destruct (IH _ _ Hne) as (g & Hg & H). exists g. split; [right; exact Hg|exact H].
Qed.

Lemma extract_all_keeps filenames :
  forall out k,
    (forall g, g ∈ filenames -> is_html_name g = true ->
               (splitext g).1 +:+ ".txt" <> k) ->
    fold_left step filenames out !! k = out !! k.
Proof.
  intros out k Hno.
  destruct (decide (fold_left step filenames out !! k = out !! k))
    as [Heq|Hne]; [exact Heq|].
  destruct (extract_all_changes filenames out k Hne) as (g & Hg & Hh & ->).
  exfalso. eapply Hno; eauto.
Qed.

End SaveTextFacts.

(** X16. The extraction changes nothing but text files of saved pages: a
    file of the output directory that differs after the run is named after
    a listed file whose name ends in [.html] or [.htm], by replacing what
    [splitext] takes for its extension with [.txt].  Such a name ends in
    [.txt] and is never itself the name of a page, so no page is
    overwritten even when both directories are the same.  When the input
    directory is missing, nothing is written at all. *)
Theorem only_text_files_of_pages_are_written
    (get_text : string -> option string) (fs_read : string -> read_outcome)
    (fs_write : string -> write_outcome) (listing : option (list string))
    (out : gmap string string) (k : string) :
  extract_text_from_html_files_and_save get_text fs_read fs_write listing out
    !! k <> out !! k ->
  exists filenames filename,
    listing = Some filenames /\ filename ∈ filenames /\
    is_html_name filename = true /\
    k = (splitext filename).1 +:+ ".txt" /\
    Str.endswith k ".txt" = true /\
    is_html_name k = false.
Proof.
  destruct listing as [filenames|]; simpl; [|congruence].
  intros Hk.
  destruct (extract_all_changes get_text fs_read fs_write filenames out k Hk)
    as (f & Hf & Hh & ->).
  exists filenames, f. do 4 (split; [auto|]). apply txt_is_not_html.
Qed.

Lemma only_text_files_of_pages_are_written_example :
  exists filenames filename,
    Some ["a.html"; "notes.pdf"] = Some filenames /\ filename ∈ filenames /\
    is_html_name filename = true /\
    "a.txt" = (splitext filename).1 +:+ ".txt" /\
    Str.endswith "a.txt" ".txt" = true /\
    is_html_name "a.txt" = false.
Proof.
  apply (only_text_files_of_pages_are_written
           Some (fun _ => ReadOk "<p>hello</p>") (fun _ => WriteDone)
           (Some ["a.html"; "notes.pdf"]) ∅ "a.txt").
  vm_compute. discriminate.
Defined.

(** X17. The text file of a saved page is named after the page without its
    [.html] or [.htm] suffix, except when nothing but dots comes before the
    suffix: then [splitext] finds no extension and [.txt] is added to the
    whole name, so that the page [.html] gives [.html.txt]. *)
Theorem page_names_lose_their_extension (filename : string) :
  Str.contains "/" filename = false ->
  is_html_name filename = true ->
  exists stem ext,
    filename = stem +:+ ext /\ (ext = ".html" \/ ext = ".htm") /\
    (splitext filename).1 +:+ ".txt" =
      if Str.forallb (Ascii.eqb ".") stem then filename +:+ ".txt"
      else stem +:+ ".txt".
Proof.
  intros Hsep Hname. unfold is_html_name in Hname.
  apply orb_true_iff in Hname as [H|H];
    apply endswith_spec in H as (stem & ->).
  - exists stem, ".html". split; [reflexivity|]. split; [left; reflexivity|].
    change ".html" with (String "." "html").
    rewrite splitext_at_last_dot by (assumption || reflexivity).
    destruct (Str.forallb (Ascii.eqb ".") stem); reflexivity.
  - exists stem, ".htm". split; [reflexivity|]. split; [right; reflexivity|].
    change ".htm" with (String "." "htm").
    rewrite splitext_at_last_dot by (assumption || reflexivity).
    destruct (Str.forallb (Ascii.eqb ".") stem); reflexivity.
Qed.

Lemma page_names_lose_their_extension_dot_page :
  exists stem ext,
    ".html" = stem +:+ ext /\ (ext = ".html" \/ ext = ".htm") /\
    (splitext ".html").1 +:+ ".txt" =
      if Str.forallb (Ascii.eqb ".") stem then ".html" +:+ ".txt"
      else stem +:+ ".txt".
Proof.
  apply (page_names_lose_their_extension ".html"); reflexivity.
Defined.

(** X18. A page that can be read, parsed and written is extracted whatever
    happens to the files around it: failures on other files do not stop the
    loop, and its text is what the output directory holds under its name at
    the end, unless a later page has the same name up to the extension. *)
Theorem a_page_is_extracted_whatever_happens_to_the_others
    (get_text : string -> option string) (fs_read : string -> read_outcome)
    (fs_write : string -> write_outcome) (before after : list string)
    (filename html_content text_content : string)
    (out : gmap string string) :
  is_html_name filename = true ->
  fs_read filename = ReadOk html_content ->
  get_text html_content = Some text_content ->
  fs_write filename = WriteDone ->
  (forall g, g ∈ after -> is_html_name g = true ->
             (splitext g).1 <> (splitext filename).1) ->
  extract_text_from_html_files_and_save get_text fs_read fs_write
    (Some (before ++ filename :: after)) out
    !! ((splitext filename).1 +:+ ".txt") = Some text_content.
Proof.
  intros Hname Hread Htext Hwrite Hlater. simpl.
  rewrite fold_left_app. simpl.
  rewrite extract_all_keeps.
  - unfold extract_one. rewrite Hname, Hread, Htext, Hwrite. simpl.
    apply lookup_insert_eq.
  - intros g Hg Hh Heq. apply string_app_inv_tail in Heq.
    exact (Hlater g Hg Hh Heq).
Qed.

Lemma a_page_is_extracted_after_a_broken_one :
  extract_text_from_html_files_and_save Some
    (fun f => if String.eqb f "broken.html" then ReadFails
              else ReadOk "<p>hello</p>")
    (fun _ => WriteDone)
    (Some (["broken.html"; "notes.pdf"] ++ "a.html" :: ["b.htm"])) ∅
    !! ((splitext "a.html").1 +:+ ".txt") = Some "<p>hello</p>".
Proof.
  apply (a_page_is_extracted_whatever_happens_to_the_others Some
           (fun f => if String.eqb f "broken.html" then ReadFails
                     else ReadOk "<p>hello</p>")
           (fun _ => WriteDone) ["broken.html"; "notes.pdf"] ["b.htm"]
           "a.html" "<p>hello</p>" "<p>hello</p>" ∅);
    try reflexivity.
  intros g Hg _. apply list_elem_of_singleton in Hg. subst g.
  vm_compute. discriminate.
Defined.


(** ** The download loop *)

Lemma string_app_inv_head (a b c : string) : a +:+ b = a +:+ c -> b = c.
Proof.
  induction a as [|x a IH]; intros H; [exact H|].
  inversion H as [Hrest]. apply IH, Hrest.
Qed.

Lemma os_path_join_relative a b :
  Str.startswith b "/" = false -> os_path_join a b = dir_prefix a +:+ b.
Proof.
  intros Hb. unfold os_path_join, dir_prefix. rewrite Hb.
  destruct (negb (Str.truthy a) || Str.endswith a "/"); [reflexivity|].
  symmetry. apply string_app_assoc.
Qed.

Lemma startswith_app_head base y c :
  base <> EmptyString ->
  Str.startswith base (String c EmptyString) = false ->
  Str.startswith (base +:+ y) (String c EmptyString) = false.
Proof.
  intros Hne Hs. destruct base as [|a r]; [congruence|].
  rewrite startswith_char in Hs.
  change (String a r +:+ y) with (String a (r +:+ y)).
  rewrite startswith_char. exact Hs.
Qed.

Lemma contains_head c s :
  Str.contains c s = false -> Str.startswith s (String c EmptyString) = false.
Proof.
  destruct s as [|a r]; [reflexivity|]. simpl. intros H.
  apply orb_false_iff in H as [Ha _]. rewrite Ascii.eqb_sym, Ha. reflexivity.
Qed.

Section UniquePath.

Variables (fs : gmap string node) (target_dir base_filename file_ext : string).
Hypothesis base_nonempty : base_filename <> EmptyString.
Hypothesis base_relative : Str.startswith base_filename "/" = false.

Local Abbreviation numbered :=
  (numbered_filepath target_dir base_filename file_ext).

Lemma numbered_filepath_eq counter :
  numbered counter =
  dir_prefix target_dir +:+
  (base_filename +:+ ("_" +:+ (pretty counter +:+ file_ext))).
Proof.
  unfold numbered_filepath. apply os_path_join_relative.
  apply startswith_app_head; assumption.
Qed.

Lemma numbered_filepath_inj c c' : numbered c = numbered c' -> c = c'.
Proof.
  rewrite !numbered_filepath_eq. intros H.
  do 3 apply string_app_inv_head in H.
  apply string_app_inv_tail in H. apply (inj pretty) in H. exact H.
Qed.

Lemma first_filepath_not_numbered c :
  os_path_join target_dir (base_filename +:+ file_ext) <> numbered c.
Proof.
  rewrite numbered_filepath_eq, os_path_join_relative
    by (apply startswith_app_head; assumption).
  intros H. do 2 apply string_app_inv_head in H.
  apply (f_equal String.length) in H.
  rewrite string_length_app in H. simpl in H.
  rewrite string_length_app in H. lia.
Qed.

Lemma unique_filepath_search fuel :
  forall (X : gset string) counter filepath,
    (size X < fuel)%nat ->
    (forall c, counter <= c -> os_path_exists fs (numbered c) = true ->
               numbered c ∈ X) ->
    (os_path_exists fs filepath = true -> filepath ∈ X) ->
    (forall c, counter <= c -> filepath <> numbered c) ->
    exists p,
      unique_filepath fuel fs target_dir base_filename file_ext counter
        filepath = Some p /\
      fs !! p = None.
Proof.
  induction fuel as [|fuel IH]; intros X counter filepath Hsize Hnum Hin Hnew;
    [lia|].
  cbn [unique_filepath].
  destruct (os_path_exists fs filepath) eqn:Hex.
  - specialize (Hin eq_refl).
    apply (IH (X ∖ {[filepath]})).
    + rewrite size_difference by (apply singleton_subseteq_l, Hin).
      rewrite size_singleton.
      assert (size X <> 0%nat).
      { intros H0. apply size_empty_inv in H0.
        apply (not_elem_of_empty (C := gset string) filepath).
        rewrite <- (leibniz_equiv _ _ H0). exact Hin. }
      lia.
    + intros c Hc Hexc. apply elem_of_difference. split.
      * apply Hnum; [lia | exact Hexc].
      * rewrite elem_of_singleton. intros Heq. apply (Hnew c); [lia|].
        symmetry. exact Heq.
    + intros Hexc. apply elem_of_difference. split.
      * apply Hnum; [lia | exact Hexc].
      * rewrite elem_of_singleton. intros Heq. apply (Hnew counter); [lia|].
        symmetry. exact Heq.
    + intros c Hc Heq. apply numbered_filepath_inj in Heq. lia.
  - exists filepath. split; [reflexivity|].
    unfold os_path_exists in Hex. destruct (fs !! filepath); congruence.
Qed.

(** The search of lines 200-204 ends, on a path that does not exist. *)
Lemma unique_filepath_total :
  exists p,
    unique_filepath (S (size fs)) fs target_dir base_filename file_ext 1
      (os_path_join target_dir (base_filename +:+ file_ext)) = Some p /\
    fs !! p = None.
Proof.
  apply (unique_filepath_search _ (dom fs)).
  - rewrite size_dom. lia.
  - intros c _ Hex. apply elem_of_dom. unfold os_path_exists in Hex.
    destruct (fs !! numbered c); [eauto | discriminate].
  - intros Hex. apply elem_of_dom. unfold os_path_exists in Hex.
    destruct (fs !! _); [eauto | discriminate].
  - intros c _. apply first_filepath_not_numbered.
Qed.

End UniquePath.


Lemma record_history e d : history (record e d) = history d ++ [e].
Proof. reflexivity. Qed.

Lemma record_files e d : files (record e d) = files d.
Proof. reflexivity. Qed.

Lemma dl_requests_app es1 es2 :
  dl_requests (es1 ++ es2) = (dl_requests es1 + dl_requests es2)%nat.
Proof. unfold dl_requests. rewrite List.filter_app, length_app. reflexivity. Qed.

Lemma dl_polite_sleeps_app es1 es2 :
  dl_polite_sleeps (es1 ++ es2) = dl_polite_sleeps es1 ++ dl_polite_sleeps es2.
Proof. apply omap_app. Qed.

Lemma dl_failures_app es1 es2 :
  dl_failures (es1 ++ es2) = dl_failures es1 ++ dl_failures es2.
Proof. apply omap_app. Qed.

Lemma preserves_refl open fs : preserves open fs fs.
Proof. intros p n H. left. exact H. Qed.

Lemma preserves_trans open fs1 fs2 fs3 :
  preserves open fs1 fs2 -> preserves open fs2 fs3 -> preserves open fs1 fs3.
Proof.
  intros H12 H23 p n Hp. destruct (H12 p n Hp) as [H|H]; [|right; exact H].
  apply H23, H.
Qed.

Lemma preserves_weaken open open' fs fs' :
  (forall p, p ∈ open -> p ∈ open') ->
  preserves open fs fs' -> preserves open' fs fs'.
Proof.
  intros Hsub H p n Hp. destruct (H p n Hp) as [H'|[Hin Hn]]; [left; exact H'|].
  right. split; [apply Hsub, Hin | exact Hn].
Qed.

(** A write changes the file at its path at most, and never a directory. *)
Lemma write_file_preserves o path content fs :
  preserves [path] fs (write_file o path content fs).1.
Proof.
  unfold write_file. intros q n Hq.
  destruct (fs !! path) as [[c|]|] eqn:Hp.
  - destruct (decide (q = path)) as [->|Hne].
    + right. split; [left|]. rewrite Hp in Hq. inversion Hq. eauto.
    + left. destruct o; simpl; rewrite ?lookup_insert_ne by congruence;
        exact Hq.
  - left. exact Hq.
  - left. assert (q <> path) by congruence.
    destruct o; simpl; rewrite ?lookup_insert_ne by congruence; exact Hq.
Qed.

Lemma write_file_fresh o path content fs :
  fs !! path = None -> preserves [] fs (write_file o path content fs).1.
Proof.
  intros Hp q n Hq. left. unfold write_file. rewrite Hp.
  assert (q <> path) by congruence.
  destruct o; simpl; rewrite ?lookup_insert_ne by congruence; exact Hq.
Qed.

Lemma attempt_event_quiet url n delay es :
  Forall (attempt_event url n delay) es ->
  dl_polite_sleeps es = [] /\
  (forall u, DlSkip u ∉ es) /\
  (forall u a t, DlRequest u a t ∈ es -> u = url /\ t = 15 /\ 0 <= a < n).
Proof.
  induction 1 as [|e es He _ (IH1 & IH2 & IH3)].
  - split; [reflexivity|]. split.
    + intros u. apply not_elem_of_nil.
    + intros u a t Hin. apply elem_of_nil in Hin. contradiction.
  - split; [|split].
    + destruct e; simpl in He; try contradiction; exact IH1.
    + intros u Hin. apply elem_of_cons in Hin as [<-|Hin];
        [exact He | exact (IH2 u Hin)].
    + intros u a t Hin. apply elem_of_cons in Hin as [<-|Hin];
        [exact He | exact (IH3 u a t Hin)].
Qed.

Section DownloadFacts.

Context `{lib : UrlLib}.
Variable unquote : string -> string.
Variable md5_hexdigest : string -> string.
Variable isalnum : string -> bool.
Variable strip : string -> string.
Variable guess_extension : string -> option string.
Variable net : Net.
Variable output_base_dir : string.

Local Abbreviation paths_of :=
  (page_paths unquote md5_hexdigest isalnum output_base_dir).
Local Abbreviation save :=
  (save_response unquote md5_hexdigest isalnum strip guess_extension
     output_base_dir).
Local Abbreviation retry :=
  (download_attempts unquote md5_hexdigest isalnum strip guess_extension net
     output_base_dir).
Local Abbreviation one_url :=
  (download_url unquote md5_hexdigest isalnum strip guess_extension net
     output_base_dir).
Local Abbreviation all_urls :=
  (download_all unquote md5_hexdigest isalnum strip guess_extension net
     output_base_dir).

(** Saving a response returns; it sends nothing, reports what it saved,
    and leaves alone every file but the two of an HTML page. *)
Lemma save_response_facts url content_type_header body saving
    text_content text_saving d :
  exists done d',
    save url content_type_header body saving text_content text_saving d =
      Some (done, d') /\
    sent d' = sent d /\
    (exists es, history d' = history d ++ es /\ Forall save_event es) /\
    preserves (paths_of url) (files d) (files d').
Proof.
  unfold save_response.
  destruct (get_content_type_and_extension strip guess_extension url
              content_type_header) as [content_type file_ext].
  destruct (sanitize_filename_shape unquote md5_hexdigest isalnum url)
    as (Hne & Hinv & _).
  assert (Hrel : Str.startswith
                   (sanitize_filename unquote md5_hexdigest isalnum url) "/" =
                 false).
  { apply contains_head, Hinv, list_elem_of_In. simpl. auto. }
  unfold page_paths.
  set (base := sanitize_filename unquote md5_hexdigest isalnum url) in *.
  cbv zeta.
  destruct (String.eqb (choose_target_dir output_base_dir content_type file_ext)
              (html_dir output_base_dir)) eqn:Hhtml.
  - apply String.eqb_eq in Hhtml. rewrite Hhtml.
    set (html_filepath :=
           os_path_join (html_dir output_base_dir) (base +:+ ".html")).
    set (text_filepath :=
           os_path_join (text_dir output_base_dir) (base +:+ ".txt")).
    pose proof (write_file_preserves saving html_filepath body (files d))
      as Hp1.
    destruct (write_file saving html_filepath body (files d))
      as [fs1 done1].
    cbn [fst] in Hp1.
    assert (Hp1' : preserves [html_filepath; text_filepath] (files d) fs1).
    { eapply preserves_weaken; [|exact Hp1].
      intros p Hp. apply list_elem_of_singleton in Hp. subst p. left. }
    destruct done1.
    + destruct text_content as [text|].
      * cbn [files record with_files].
        pose proof (write_file_preserves text_saving text_filepath text fs1)
          as Hp2.
        destruct (write_file text_saving text_filepath text fs1)
          as [fs2 done2].
        cbn [fst] in Hp2.
        assert (Hp2' : preserves [html_filepath; text_filepath] (files d) fs2).
        { eapply preserves_trans; [exact Hp1'|].
          eapply preserves_weaken; [|exact Hp2].
          intros p Hp. apply list_elem_of_singleton in Hp. subst p.
          right. left. }
        destruct done2; eexists _, _; (split; [reflexivity|]);
          (split; [reflexivity|]);
          (split; [|exact Hp2']);
          eexists [_; _];
          (split; [cbn [history record with_files]; rewrite <- app_assoc;
                   reflexivity|]);
          repeat constructor.
      * eexists _, _. split; [reflexivity|]. split; [reflexivity|].
        split; [|exact Hp1'].
        eexists [_; _].
        split; [cbn [history record with_files]; rewrite <- app_assoc;
                reflexivity|].
        repeat constructor.
    + eexists _, _. split; [reflexivity|]. split; [reflexivity|].
      split; [|exact Hp1'].
      exists []. split; [symmetry; apply app_nil_r | constructor].
  - destruct (unique_filepath_total (files d)
                (choose_target_dir output_base_dir content_type file_ext)
                base file_ext Hne Hrel) as (filepath & Hu & Hfree).
    rewrite Hu.
    pose proof (write_file_fresh saving filepath body (files d) Hfree) as Hp.
    destruct (write_file saving filepath body (files d)) as [fs1 done1].
    cbn [fst] in Hp.
    assert (Hp' : preserves
                    [os_path_join (html_dir output_base_dir) (base +:+ ".html");
                     os_path_join (text_dir output_base_dir) (base +:+ ".txt")]
                    (files d) fs1).
    { eapply preserves_weaken; [|exact Hp].
      intros p Hin. apply elem_of_nil in Hin. contradiction. }
    destruct done1; eexists _, _; (split; [reflexivity|]);
      (split; [reflexivity|]); (split; [|exact Hp']).
    + eexists [_]. split; [reflexivity|]. repeat constructor.
    + exists []. split; [symmetry; apply app_nil_r | constructor].
Qed.

Lemma save_event_quiet url n delay es :
  Forall save_event es ->
  Forall (attempt_event url n delay) es /\ dl_requests es = 0%nat.
Proof.
  induction 1 as [|e es He _ [IH1 IH2]]; [split; [constructor|reflexivity]|].
  destruct e; simpl in He; try contradiction;
    (split; [constructor; [exact I | exact IH1] | exact IH2]).
Qed.

(** The retry loop returns.  It sends at most one request per iteration,
    all for its URL, and leaves alone every file but the two of an HTML
    page. *)
Lemma download_attempts_facts url max_retries retry_delay remaining :
  forall attempt d,
    0 <= attempt ->
    remaining = 0%nat \/ attempt + Z.of_nat remaining = max_retries ->
    exists d',
      retry url max_retries retry_delay remaining attempt d = Some d' /\
      (exists es,
          history d' = history d ++ es /\
          Forall (attempt_event url max_retries retry_delay) es /\
          (dl_requests es <= remaining)%nat /\
          (remaining = 0%nat -> es = [DlFailed url max_retries]) /\
          sent d' = (sent d + dl_requests es)%nat) /\
      preserves (paths_of url) (files d) (files d').
Proof.
  induction remaining as [|k IH]; intros attempt d Ha Hrem.
  - eexists. split; [reflexivity|]. split; [|apply preserves_refl].
    exists [DlFailed url max_retries].
    split; [reflexivity|]. split; [repeat constructor|].
    split; [cbn; lia|]. split; [reflexivity|]. cbn. lia.
  - assert (Hbound : 0 <= attempt < max_retries) by lia.
    cbn [download_attempts]. cbv zeta.
    set (d0 := record (DlRequest url attempt 15) d).
    assert (Hres : exists done d1,
               match net (sent d) url with
               | NoResponse => Some (false, d0)
               | Response content_type_header body saving text_content
                   text_saving =>
                   save url content_type_header body saving text_content
                     text_saving d0
               end = Some (done, d1) /\
               sent d1 = sent d0 /\
               (exists es, history d1 = history d0 ++ es /\
                           Forall save_event es) /\
               preserves (paths_of url) (files d0) (files d1)).
    { destruct (net (sent d) url) as [|h body saving text text_saving].
      - exists false, d0. split; [reflexivity|]. split; [reflexivity|].
        split; [|apply preserves_refl].
        exists []. split; [symmetry; apply app_nil_r | constructor].
      - apply save_response_facts. }
    destruct Hres as (done & d1 & -> & Hsent1 & (es1 & Hh1 & Hs1) & Hp1).
    destruct (save_event_quiet url max_retries retry_delay es1 Hs1)
      as [Ha1 Hq1].
    destruct done.
    + exists d1. split; [reflexivity|]. split; [|exact Hp1].
      exists (DlRequest url attempt 15 :: es1).
      split; [rewrite Hh1; unfold d0; rewrite record_history, <- app_assoc;
              reflexivity|].
      split; [constructor; [simpl; auto | exact Ha1]|].
      split; [change (dl_requests (DlRequest url attempt 15 :: es1))
                with (S (dl_requests es1)); lia|].
      split; [discriminate|].
      rewrite Hsent1. unfold d0. cbn [sent record dl_is_request].
      change (dl_requests (DlRequest url attempt 15 :: es1))
        with (S (dl_requests es1)). lia.
    + set (d2 := record (DlRetry url attempt) d1).
      set (sl := if attempt <? max_retries - 1
                 then [DlRetrySleep retry_delay] else []).
      set (d3 := if attempt <? max_retries - 1
                 then record (DlRetrySleep retry_delay) d2 else d2).
      assert (Hd3 : history d3 = history d2 ++ sl /\ sent d3 = sent d2 /\
                    files d3 = files d2).
      { unfold d3, sl. destruct (attempt <? max_retries - 1).
        - auto.
        - rewrite app_nil_r. auto. }
      destruct Hd3 as (Hh3 & Hsent3 & Hf3).
      destruct (IH (attempt + 1) d3) as (d' & Hrun & (es & Hh & Hall & Hle & _ & Hsent) & Hp);
        [lia | right; lia |].
      exists d'. split; [exact Hrun|]. split.
      * exists (DlRequest url attempt 15 :: es1 ++ DlRetry url attempt :: sl ++ es).
        split.
        { rewrite Hh, Hh3. unfold d2. rewrite record_history, Hh1.
          unfold d0. rewrite record_history, <- !app_assoc. reflexivity. }
        split.
        { constructor; [simpl; auto|]. apply Forall_app. split; [exact Ha1|].
          constructor; [simpl; auto|]. apply Forall_app. split; [|exact Hall].
          unfold sl. destruct (attempt <? max_retries - 1); repeat constructor. }
        assert (Hcount : dl_requests (DlRequest url attempt 15 ::
                           es1 ++ DlRetry url attempt :: sl ++ es) =
                         S (dl_requests es)).
        { change (DlRequest url attempt 15 :: es1 ++ DlRetry url attempt :: sl ++ es)
            with ([DlRequest url attempt 15] ++ es1 ++
                  [DlRetry url attempt] ++ sl ++ es).
          rewrite !dl_requests_app, Hq1.
          replace (dl_requests sl) with 0%nat
            by (unfold sl; destruct (attempt <? max_retries - 1); reflexivity).
          reflexivity. }
        rewrite Hcount. split; [lia|]. split; [discriminate|].
        rewrite Hsent, Hsent3. unfold d2. cbn [sent record dl_is_request].
        rewrite Hsent1. unfold d0. cbn [sent record dl_is_request]. lia.
      * eapply preserves_trans; [exact Hp1|]. rewrite Hf3 in Hp. exact Hp.
Qed.

Lemma download_url_facts politeness_delay max_retries retry_delay url d :
  exists d',
    one_url politeness_delay max_retries retry_delay url d = Some d' /\
    (exists es,
        history d' = history d ++ es /\
        (forall u a t, DlRequest u a t ∈ es ->
                       u = url /\ is_allowed url = true /\ t = 15 /\
                       0 <= a < max_retries) /\
        dl_polite_sleeps es =
          (if is_allowed url then [politeness_delay] else []) /\
        (dl_requests es <=
         if is_allowed url then Z.to_nat max_retries else 0)%nat /\
        (max_retries <= 0 ->
         es = without_attempt politeness_delay max_retries url) /\
        sent d' = (sent d + dl_requests es)%nat) /\
    preserves (if is_allowed url then paths_of url else []) (files d) (files d').
Proof.
  unfold download_url, without_attempt, is_allowed. cbv zeta.
  destruct (String.eqb (netloc (urlparse url)) allowed_domain) eqn:Hal.
  - cbn [negb].
    destruct (download_attempts_facts url max_retries retry_delay
                (Z.to_nat max_retries) 0 d)
      as (d1 & -> & (es & Hh & Hall & Hle & Hzero & Hsent) & Hp); [lia|lia|].
    destruct (attempt_event_quiet _ _ _ _ Hall) as (Hq1 & Hq2 & Hq3).
    eexists. split; [reflexivity|]. split; [|exact Hp].
    exists (es ++ [DlPoliteSleep politeness_delay]).
    split; [rewrite record_history, Hh, <- app_assoc; reflexivity|].
    split.
    { intros u a t Hin. apply elem_of_app in Hin as [Hin|Hin].
      - destruct (Hq3 u a t Hin) as (-> & -> & Hb). auto.
      - apply list_elem_of_singleton in Hin. discriminate. }
    split; [rewrite dl_polite_sleeps_app, Hq1; reflexivity|].
    split; [rewrite dl_requests_app; cbn; lia|].
    split.
    { intros Hneg. rewrite Hzero by lia. reflexivity. }
    cbn [sent record dl_is_request]. rewrite Hsent, dl_requests_app. cbn. lia.
  - cbn [negb]. eexists. split; [reflexivity|]. split; [|apply preserves_refl].
    exists [DlSkip url]. split; [reflexivity|]. split.
    { intros u a t Hin. apply list_elem_of_singleton in Hin. discriminate. }
    split; [reflexivity|]. split; [cbn; lia|]. split; [reflexivity|].
    cbn. lia.
Qed.

Lemma download_all_facts politeness_delay max_retries retry_delay urls :
  forall d,
    exists d',
      all_urls politeness_delay max_retries retry_delay urls d = Some d' /\
      (exists es,
          history d' = history d ++ es /\
          (forall u a t, DlRequest u a t ∈ es ->
                         u ∈ urls /\ is_allowed u = true /\ t = 15 /\
                         0 <= a < max_retries) /\
          dl_polite_sleeps es =
            replicate (length (List.filter is_allowed urls))
              politeness_delay /\
          (dl_requests es <=
           Z.to_nat max_retries * length (List.filter is_allowed urls))%nat /\
          (max_retries <= 0 ->
           es = flat_map (without_attempt politeness_delay max_retries) urls) /\
          sent d' = (sent d + dl_requests es)%nat) /\
      preserves (flat_map paths_of (List.filter is_allowed urls))
        (files d) (files d').
Proof.
  induction urls as [|url urls IH]; intros d.
  - exists d. split; [reflexivity|]. split; [|apply preserves_refl].
    exists []. split; [symmetry; apply app_nil_r|].
    split; [intros u a t Hin; apply elem_of_nil in Hin; contradiction|].
    split; [reflexivity|]. split; [cbn; lia|]. split; [reflexivity|].
    cbn. lia.
  - cbn [download_all].
    destruct (download_url_facts politeness_delay max_retries retry_delay url d)
      as (d1 & -> & (es1 & Hh1 & Hr1 & Hs1 & Hle1 & Hz1 & Hsent1) & Hp1).
    destruct (IH d1)
      as (d' & Hrun & (es & Hh & Hr & Hs & Hle & Hz & Hsent) & Hp).
    exists d'. split; [exact Hrun|]. split.
    + exists (es1 ++ es). split; [rewrite Hh, Hh1, <- app_assoc; reflexivity|].
      split.
      { intros u a t Hin. apply elem_of_app in Hin as [Hin|Hin].
        - destruct (Hr1 u a t Hin) as (-> & Hal & Ht & Hb).
          split; [left|auto].
        - destruct (Hr u a t Hin) as (Hu & H). split; [right; exact Hu | exact H]. }
      split.
      { rewrite dl_polite_sleeps_app, Hs1, Hs. cbn [List.filter].
        destruct (is_allowed url); reflexivity. }
      split.
      { rewrite dl_requests_app. cbn [List.filter].
        destruct (is_allowed url); cbn [length]; lia. }
      split.
      { intros Hneg. rewrite (Hz1 Hneg), (Hz Hneg). reflexivity. }
      rewrite Hsent, Hsent1, dl_requests_app. lia.
    + cbn [List.filter]. eapply preserves_trans.
      * eapply preserves_weaken; [|exact Hp1].
        intros p Hin. destruct (is_allowed url).
        -- cbn [flat_map]. apply elem_of_app. left. exact Hin.
        -- apply elem_of_nil in Hin. contradiction.
      * eapply preserves_weaken; [|exact Hp].
        intros p Hin. destruct (is_allowed url); [|exact Hin].
        cbn [flat_map]. apply elem_of_app. right. exact Hin.
Qed.

End DownloadFacts.


(** ** What a run of the downloader does *)


(** X20. A run of the downloader removes nothing and changes no directory,
    and a file that was there before the run is left as it was unless it is
    the [.html] or the [.txt] file of a listed URL on the allowed host.  So
    a download that is not an HTML page never overwrites a file: it goes to
    the first name that is free. *)
Theorem downloads_overwrite_nothing_but_pages `{lib : UrlLib}
    (unquote md5_hexdigest : string -> string) (isalnum : string -> bool)
    (strip : string -> string) (guess_extension : string -> option string)
    (net : Net) (output_base_dir : string) (url_list_file : option string)
    (politeness_delay : seconds) (max_retries : Z) (retry_delay : seconds)
    (fs : gmap string node) :
  let urls :=
    match url_list_file with
    | Some text => urls_to_download strip text
    | None => []
    end in
  exists d,
    download_content_from_urls unquote md5_hexdigest isalnum strip
      guess_extension net output_base_dir url_list_file politeness_delay
      max_retries retry_delay fs = Some d /\
    forall p n,
      fs !! p = Some n ->
      files d !! p = Some n \/
      exists content url,
        n = File content /\ url ∈ urls /\ is_allowed url = true /\
        p ∈ page_paths unquote md5_hexdigest isalnum output_base_dir url.
Proof.
  intros urls. unfold download_content_from_urls.
  destruct url_list_file as [text|].
  - destruct (download_all_facts unquote md5_hexdigest isalnum strip
                guess_extension net output_base_dir politeness_delay
                max_retries retry_delay urls
                {| files := fs; sent := 0; history := [] |})
      as (d & Hrun & _ & Hp).
    exists d. split; [exact Hrun|]. intros p n Hpn.
    destruct (Hp p n Hpn) as [H|[Hin (content & ->)]]; [left; exact H|].
    right. apply list_elem_of_In, in_flat_map in Hin as (url & Hurl & Hin).
    apply filter_In in Hurl as [Hurl Hal].
    exists content, url. split; [reflexivity|].
    split; [apply list_elem_of_In, Hurl|]. split; [exact Hal|].
    apply list_elem_of_In, Hin.
  - eexists. split; [reflexivity|]. intros p n Hpn. left. exact Hpn.
Qed.

(** X21. With [max_retries] zero or negative no request is sent and no file
    is touched: every listed URL on the allowed host is reported as failed
    and followed by the politeness pause, and every other one is skipped. *)
Theorem no_download_without_retries `{lib : UrlLib}
    (unquote md5_hexdigest : string -> string) (isalnum : string -> bool)
    (strip : string -> string) (guess_extension : string -> option string)
    (net : Net) (output_base_dir text : string)
    (politeness_delay : seconds) (max_retries : Z) (retry_delay : seconds)
    (fs : gmap string node) :
  max_retries <= 0 ->
  exists d,
    download_content_from_urls unquote md5_hexdigest isalnum strip
      guess_extension net output_base_dir (Some text) politeness_delay
      max_retries retry_delay fs = Some d /\
    files d = fs /\
    sent d = 0%nat /\
    history d =
      flat_map (without_attempt politeness_delay max_retries)
        (urls_to_download strip text).
Proof.
  intros Hneg. unfold download_content_from_urls.
  generalize (urls_to_download strip text). intros urls.
  assert (Hgen : forall d, exists d',
             download_all unquote md5_hexdigest isalnum strip guess_extension
               net output_base_dir politeness_delay max_retries retry_delay
               urls d = Some d' /\
             files d' = files d /\ sent d' = sent d /\
             history d' =
               history d ++
               flat_map (without_attempt politeness_delay max_retries) urls).
  { induction urls as [|url urls IH]; intros d.
    - exists d. simpl. rewrite app_nil_r. auto.
    - cbn [download_all flat_map]. unfold download_url, without_attempt.
      cbv zeta. fold (is_allowed url).
      replace (Z.to_nat max_retries) with 0%nat by lia.
      destruct (is_allowed url); cbn [negb download_attempts].
      + destruct (IH (record (DlPoliteSleep politeness_delay)
                        (record (DlFailed url max_retries) d)))
          as (d' & Hrun & Hf & Hs & Hh).
        exists d'. split; [exact Hrun|]. split; [exact Hf|].
        split; [exact Hs|]. rewrite Hh, !record_history, <- !app_assoc.
        reflexivity.
      + destruct (IH (record (DlSkip url) d)) as (d' & Hrun & Hf & Hs & Hh).
        exists d'. split; [exact Hrun|]. split; [exact Hf|].
        split; [exact Hs|]. rewrite Hh, !record_history, <- !app_assoc.
        reflexivity. }
  destruct (Hgen {| files := fs; sent := 0; history := [] |})
    as (d & Hrun & Hf & Hs & Hh).
  exists d. auto.
Qed.

Lemma no_download_without_retries_example :
  exists d,
    download_content_from_urls (fun s => s) (fun _ => "d41d8cd98f00b204")
      (fun _ => false) ascii_strip (fun _ => None) (fun _ _ => NoResponse)
      "out"
      (Some (file_text ["https://ext.test/x"; "https://www.mosdac.gov.in/"]))
      half_second 0 one_second ∅ = Some d /\
    files d = ∅ /\
    sent d = 0%nat /\
    history d =
      flat_map (without_attempt half_second 0)
        (urls_to_download ascii_strip
           (file_text ["https://ext.test/x"; "https://www.mosdac.gov.in/"])).
Proof.
  apply (no_download_without_retries (fun s => s)
           (fun _ => "d41d8cd98f00b204") (fun _ => false) ascii_strip
           (fun _ => None) (fun _ _ => NoResponse) "out"
           (file_text ["https://ext.test/x"; "https://www.mosdac.gov.in/"])
           half_second 0 one_second ∅).
  lia.
Defined.

(** ** From the crawler to the downloader *)

Lemma text_lines_aux_line u :
  forall cur s,
    Str.contains "010" u = false -> Str.contains "013" u = false ->
    text_lines_aux cur (u +:+ String "010" s) =
    cur (u +:+ String "010" EmptyString) :: text_lines s.
Proof.
  induction u as [|c u IH]; intros cur s Hn Hr; [reflexivity|].
  simpl in Hn, Hr.
  apply orb_false_iff in Hn as [Hn1 Hn2].
  apply orb_false_iff in Hr as [Hr1 Hr2].
  change (String c u +:+ String "010" s)
    with (String c (u +:+ String "010" s)).
  cbn [text_lines_aux]. rewrite Hn1, Hr1.
  rewrite (IH (fun x => cur (String c x)) s Hn2 Hr2). reflexivity.
Qed.

Lemma text_lines_file_text urls :
  Forall (fun u => Str.contains "010" u = false /\
                   Str.contains "013" u = false) urls ->
  text_lines (file_text urls) =
  map (fun u => u +:+ String "010" EmptyString) urls.
Proof.
  induction 1 as [|u urls [Hn Hr] _ IH]; [reflexivity|].
  cbn [file_text map]. rewrite append_line_feed.
  unfold text_lines at 1. rewrite text_lines_aux_line by assumption.
  rewrite IH. reflexivity.
Qed.

(** X22. The downloader reads back the inventory the crawler saved: when
    the crawler's write goes through, the URLs the downloader takes from
    the output file are the URLs the crawler returned, in the same order,
    provided each of them is non-empty, holds no line break and is what
    [strip] makes of its line. *)
Theorem the_downloader_reads_the_inventory_back `{lib : UrlLib} (web : Web)
    (start_url output_filename : string) (max_pages_to_visit max_depth : Z)
    (politeness_delay : seconds) (stale : CrawlState)
    (disk : gmap string string) (strip : string -> string) :
  exists r text,
    scrape_website_to_file web WriteOk start_url output_filename
      max_pages_to_visit max_depth politeness_delay stale disk = Some r /\
    disk_after r !! output_filename = Some text /\
    (Forall (fun u => u <> EmptyString /\
                      Str.contains "010" u = false /\
                      Str.contains "013" u = false /\
                      strip (u +:+ String "010" EmptyString) = u)
       (returned_urls r) ->
     urls_to_download strip text = returned_urls r).
Proof.
  destruct (run_final web WriteOk start_url output_filename max_pages_to_visit
              max_depth politeness_delay stale disk)
    as (m & r & e & _ & Hrun & _ & _ & _ & _ & _ & _ & Hsave).
  exists r, (file_text (returned_urls r)). split; [exact Hrun|].
  split.
  { simpl in Hsave. inversion Hsave as [[Hdisk Hfin]]. rewrite Hdisk.
    apply lookup_insert_eq. }
  generalize (returned_urls r). intros urls Hok.
  unfold urls_to_download. rewrite text_lines_file_text.
  2:{ eapply Forall_impl; [exact Hok|]. intros u (_ & H1 & H2 & _).
      split; assumption. }
  induction Hok as [|u urls (Hne & _ & _ & Hstrip) _ IH]; [reflexivity|].
  cbn [map List.filter]. rewrite Hstrip.
  destruct u; [congruence|]. cbn [Str.truthy map]. rewrite Hstrip.
  f_equal. exact IH.
Qed.

Lemma the_downloader_reads_the_site_inventory_back :
  exists r text,
    scrape_website_to_file Site.web WriteOk Site.home "out.txt" 50 3
      half_second cleared ∅ = Some r /\
    disk_after r !! "out.txt" = Some text /\
    urls_to_download ascii_strip text = returned_urls r.
Proof.
  destruct (the_downloader_reads_the_inventory_back Site.web Site.home
              "out.txt" 50 3 half_second cleared ∅ ascii_strip)
    as (r & text & Hrun & Hdisk & Hback).
  exists r, text. split; [exact Hrun|]. split; [exact Hdisk|].
  apply Hback.
  vm_compute in Hrun. inversion Hrun as [Hr]. cbn [returned_urls].
  repeat constructor; vm_compute; congruence.
Defined.
